(** * ai-shell: the command history buffer, the stream decoder and the worker bridge

    A shallow embedding of the command history buffer
    (helpers/command-history.ts), of the stream reader [readData] with its
    [parseContent] (helpers/completion.ts, which follows the history buffer
    in the same source file) and of the bridge to the worker process
    (helpers/fork-ai.ts), with the properties of the specification stated
    and settled against them.

    JavaScript strings are sequences of UTF-16 code units; they are modelled
    as lists of code units ([N]).  Literals are written through [u], which
    sends every byte of an ASCII literal to the code unit of the same value.

    A read is driven by a schedule of events (chunks of the stream, key
    presses, SIGINT), one event at a time, as the single thread of the
    process takes them between two [await]s. *)

From Stdlib Require Import List ZArith NArith Lia Bool Ascii DecimalString.
From Stdlib Require String.
Import ListNotations String.StringSyntax.
Delimit Scope string_scope with string.

Set Implicit Arguments.

(* ================================================================== *)
(** ** JavaScript strings *)
(* ================================================================== *)

Module JS.

Definition jsstring := list N.

(** An ASCII literal as a JavaScript string. *)
Definition u (s : String.string) : jsstring :=
  map N_of_ascii (String.list_ascii_of_string s).

(** The same, with every apostrophe of the literal standing for a double
    quote (code unit 34): JSON frames are written with apostrophes. *)
Definition q (s : String.string) : jsstring :=
  map (fun c => if N.eqb c 39 then 34%N else c) (u s).

Definition nl : jsstring := [10%N].

(** Three backticks. *)
Definition fence_text : jsstring := [96%N; 96%N; 96%N].

Fixpoint str_eqb (a b : jsstring) : bool :=
  match a, b with
  | [], [] => true
  | x :: a', y :: b' => N.eqb x y && str_eqb a' b'
  | _, _ => false
  end.

(** [s.startsWith(p)] *)
Fixpoint startsWith (s p : jsstring) : bool :=
  match p, s with
  | [], _ => true
  | x :: p', y :: s' => N.eqb x y && startsWith s' p'
  | _ :: _, [] => false
  end.

(** [s.includes(p)] *)
Fixpoint includes (s p : jsstring) : bool :=
  startsWith s p ||
  match s with
  | [] => false
  | _ :: s' => includes s' p
  end.

(** [s.split(sep)].  The scan goes left to right; [skip] counts the code
    units of a separator occurrence that are still to be dropped, [cur] holds
    the current piece in reverse. *)
Fixpoint split_go (sep : jsstring) (skip : nat) (cur s : jsstring)
  : list jsstring :=
  match s with
  | [] => [rev cur]
  | c :: s' =>
      match skip with
      | S k => split_go sep k cur s'
      | O =>
          if startsWith s sep
          then rev cur :: split_go sep (length sep - 1) [] s'
          else split_go sep 0 (c :: cur) s'
      end
  end.

Definition split (s sep : jsstring) : list jsstring :=
  match sep with
  | [] => map (fun c => [c]) s
  | _ :: _ => split_go sep 0 [] s
  end.

(** [pieces.join(sep)] *)
Fixpoint join (sep : jsstring) (pieces : list jsstring) : jsstring :=
  match pieces with
  | [] => []
  | [p] => p
  | p :: rest => p ++ sep ++ join sep rest
  end.

(** WhiteSpace and LineTerminator code units of ECMAScript: what [trim]
    strips and what the regular expression class [\s] matches. *)
Definition is_whitespace (c : N) : bool :=
  ((9 <=? c) && (c <=? 13) || (c =? 32) || (c =? 160) || (c =? 5760)
   || (8192 <=? c) && (c <=? 8202) || (c =? 8232) || (c =? 8233)
   || (c =? 8239) || (c =? 8287) || (c =? 12288) || (c =? 65279))%N.

Fixpoint trimStart (s : jsstring) : jsstring :=
  match s with
  | c :: s' => if is_whitespace c then trimStart s' else s
  | [] => []
  end.

(** [s.trim()] *)
Definition trim (s : jsstring) : jsstring :=
  rev (trimStart (rev (trimStart s))).

(** A string is truthy when it is not empty. *)
Definition truthy (s : jsstring) : bool :=
  match s with [] => false | _ :: _ => true end.

(** Template-literal rendering of an integer. *)
Definition string_of_nat (n : nat) : jsstring :=
  u (NilZero.string_of_uint (Nat.to_uint n)).

Definition string_of_Z (z : Z) : jsstring :=
  u (NilZero.string_of_int (Z.to_int z)).

(** [arr.slice(-n)]: the last [n] elements; [slice(-0)] is [slice(0)], the
    whole array. *)
Definition slice_last (A : Type) (n : nat) (l : list A) : list A :=
  match n with
  | O => l
  | S _ => skipn (length l - n) l
  end.

End JS.

Import JS.
Arguments u s%_string.
Arguments q s%_string.

(* ================================================================== *)
(** ** Regular expressions *)
(* ================================================================== *)

(** The fragment of ECMAScript regular expressions the code uses, with the
    backtracking semantics of the language: a matcher takes the current
    position and a continuation, and a quantifier tries one more iteration
    before it tries the continuation (greedy). *)
Module Regex.

Inductive regex :=
| REmpty                                  (* the empty pattern *)
| RChar (c : N)                           (* one literal code unit *)
| RClass (ranges : list (N * N))          (* a class of inclusive ranges *)
| RBol                                    (* [^], without the m flag *)
| RCat (a b : regex)
| RAlt (a b : regex)
| RStar (a : regex)                       (* [a*] *)
| ROpt (a : regex).                       (* [a?] *)

(** A RegExp object: every pattern of the repository carries the [g] flag,
    so only [i] is recorded. *)
Record RegExp := {
  source : regex;
  ignoreCase : bool
}.

(** Canonicalize of the language, for a pattern without the [u] flag: a
    code unit is compared through its upper case; no code unit of 128 or
    more is sent below 128, so on the ASCII patterns of the repository only
    the ASCII letters matter. *)
Definition canonicalize (ic : bool) (c : N) : N :=
  if ic && (97 <=? c)%N && (c <=? 122)%N then (c - 32)%N else c.

Definition in_ranges (ranges : list (N * N)) (c : N) : bool :=
  existsb (fun r => (fst r <=? c)%N && (c <=? snd r)%N) ranges.

(** A class matches [c] under [i] when some member has the canonical form
    of [c]: for ASCII, [c] itself or its other case. *)
Definition class_mem (ic : bool) (ranges : list (N * N)) (c : N) : bool :=
  in_ranges ranges c ||
  (ic && (((97 <=? c)%N && (c <=? 122)%N && in_ranges ranges (c - 32)%N)
          || ((65 <=? c)%N && (c <=? 90)%N && in_ranges ranges (c + 32)%N))).

(** [m ic r pos rest k]: match [r] at position [pos], where [rest] is the
    input from [pos] on, then continue with [k]; the result is the end
    position of the whole match.  An iteration of a quantifier that consumes
    nothing fails (the empty check of RepeatMatcher), so [S (length rest)]
    iterations are never exhausted. *)
Fixpoint m (ic : bool) (r : regex) (pos : nat) (rest : jsstring)
  (k : nat -> jsstring -> option nat) {struct r} : option nat :=
  match r with
  | REmpty => k pos rest
  | RChar c =>
      match rest with
      | x :: rest' =>
          if (canonicalize ic x =? canonicalize ic c)%N
          then k (S pos) rest' else None
      | [] => None
      end
  | RClass ranges =>
      match rest with
      | x :: rest' => if class_mem ic ranges x then k (S pos) rest' else None
      | [] => None
      end
  | RBol => if pos =? 0 then k pos rest else None
  | RCat a b => m ic a pos rest (fun p r' => m ic b p r' k)
  | RAlt a b =>
      match m ic a pos rest k with
      | Some e => Some e
      | None => m ic b pos rest k
      end
  | ROpt a =>
      match m ic a pos rest (fun p r' => if p =? pos then None else k p r') with
      | Some e => Some e
      | None => k pos rest
      end
  | RStar a =>
      (fix loop (fuel pos : nat) (rest : jsstring) {struct fuel}
         : option nat :=
         match fuel with
         | O => k pos rest
         | S f =>
             match m ic a pos rest
                     (fun p r' => if p =? pos then None else loop f p r') with
             | Some e => Some e
             | None => k pos rest
             end
         end) (S (length rest)) pos rest
  end.

(** The end of the match that starts exactly at [pos], if there is one. *)
Definition match_at (re : RegExp) (pos : nat) (rest : jsstring)
  : option nat :=
  m (ignoreCase re) (source re) pos rest (fun p _ => Some p).

(** Whether [re] matches somewhere at or after [pos]. *)
Fixpoint search (re : RegExp) (pos : nat) (rest : jsstring) : bool :=
  match match_at re pos rest with
  | Some _ => true
  | None =>
      match rest with
      | [] => false
      | _ :: rest' => search re (S pos) rest'
      end
  end.

(** [s.match(re)] is truthy when [re] matches somewhere in [s]. *)
Definition test (re : RegExp) (s : jsstring) : bool := search re 0 s.

(** [s.replaceAll(re, '')]: the matches are found left to right, each
    search starting where the previous match ended (one further after an
    empty match); [skip] counts the code units of the current match that are
    still to be dropped. *)
Fixpoint remove_go (re : RegExp) (skip pos : nat) (rest : jsstring)
  : jsstring :=
  match rest with
  | [] => []
  | x :: rest' =>
      match skip with
      | S n => remove_go re n (S pos) rest'
      | O =>
          match match_at re pos rest with
          | Some e =>
              if e =? pos then x :: remove_go re 0 (S pos) rest'
              else remove_go re (e - pos - 1) (S pos) rest'
          | None => x :: remove_go re 0 (S pos) rest'
          end
      end
  end.

Definition removeAll (re : RegExp) (s : jsstring) : jsstring :=
  remove_go re 0 0 s.

(** [s.replaceAll(lit, '')] for a non-empty literal string. *)
Fixpoint remove_literal_go (lit : jsstring) (skip : nat) (s : jsstring)
  : jsstring :=
  match s with
  | [] => []
  | x :: s' =>
      match skip with
      | S n => remove_literal_go lit n s'
      | O =>
          if startsWith s lit
          then remove_literal_go lit (length lit - 1) s'
          else x :: remove_literal_go lit 0 s'
      end
  end.

Definition removeAllLiteral (lit s : jsstring) : jsstring :=
  remove_literal_go lit 0 s.

(** The pattern that matches the code units of [s] one after the other. *)
Fixpoint literal (s : jsstring) : regex :=
  match s with
  | [] => REmpty
  | [c] => RChar c
  | c :: s' => RCat (RChar c) (literal s')
  end.

Definition letters : regex := RClass [(97, 122); (65, 90)]%N.

(** [\s] *)
Definition whitespace : regex :=
  RClass [(9, 13); (32, 32); (160, 160); (5760, 5760); (8192, 8202);
          (8232, 8233); (8239, 8239); (8287, 8287); (12288, 12288);
          (65279, 65279)]%N.

End Regex.

(* ================================================================== *)
(** ** JSON.parse *)
(* ================================================================== *)

(** The JSON grammar (ECMA-404) as [JSON.parse] reads it: a lexer over the
    code units and a stack machine over the tokens, both by structural
    recursion on their input. *)
Module Json.

#[local] Set Warnings "-register-all".

Inductive json :=
| JNull
| JBool (b : bool)
| JNumber (raw : jsstring)               (* the literal as written *)
| JString (s : jsstring)
| JArray (items : list json)
| JObject (members : list (jsstring * json)).

Inductive token :=
| TLBrace | TRBrace | TLBracket | TRBracket | TColon | TComma
| TString (s : jsstring)
| TNumber (raw : jsstring)
| TTrue | TFalse | TNull.

Definition is_json_ws (c : N) : bool :=
  ((c =? 32) || (c =? 9) || (c =? 10) || (c =? 13))%N.

Definition is_digit (c : N) : bool := ((48 <=? c) && (c <=? 57))%N.

Definition hex_value (c : N) : option N :=
  if is_digit c then Some (c - 48)%N
  else if ((97 <=? c) && (c <=? 102))%N then Some (c - 87)%N
  else if ((65 <=? c) && (c <=? 70))%N then Some (c - 55)%N
  else None.

(** The escapes of one code unit after a backslash. *)
Definition simple_escape (c : N) : option N :=
  if (c =? 34)%N then Some 34%N          (* quote *)
  else if (c =? 92)%N then Some 92%N     (* backslash *)
  else if (c =? 47)%N then Some 47%N     (* solidus *)
  else if (c =? 98)%N then Some 8%N      (* b *)
  else if (c =? 102)%N then Some 12%N    (* f *)
  else if (c =? 110)%N then Some 10%N    (* n *)
  else if (c =? 114)%N then Some 13%N    (* r *)
  else if (c =? 116)%N then Some 9%N     (* t *)
  else None.

(** The body of a string literal, after its opening quote: the decoded
    string and the number of code units of the whole literal.  [acc] is the
    decoded text in reverse, [n] the code units read so far. *)
Fixpoint lex_string (s acc : jsstring) (n : nat)
  : option (jsstring * nat) :=
  match s with
  | [] => None
  | c :: s' =>
      if (c =? 34)%N then Some (rev acc, S n)
      else if (c =? 92)%N then
        match s' with
        | [] => None
        | e :: s'' =>
            if (e =? 117)%N then
              match s'' with
              | h1 :: h2 :: h3 :: h4 :: s4 =>
                  match hex_value h1, hex_value h2, hex_value h3,
                        hex_value h4 with
                  | Some a, Some b, Some c', Some d =>
                      lex_string s4
                        ((a * 4096 + b * 256 + c' * 16 + d)%N :: acc)
                        (6 + n)
                  | _, _, _, _ => None
                  end
              | _ => None
              end
            else
              match simple_escape e with
              | Some x => lex_string s'' (x :: acc) (2 + n)
              | None => None
              end
        end
      else if (c <? 32)%N then None
      else lex_string s' (c :: acc) (S n)
  end.

Definition is_number_char (c : N) : bool :=
  is_digit c || (c =? 45)%N || (c =? 43)%N || (c =? 46)%N
  || (c =? 101)%N || (c =? 69)%N.

Fixpoint number_span (s : jsstring) : jsstring :=
  match s with
  | c :: s' => if is_number_char c then c :: number_span s' else []
  | [] => []
  end.

Fixpoint skip_digits (s : jsstring) : jsstring :=
  match s with
  | c :: s' => if is_digit c then skip_digits s' else s
  | [] => []
  end.

(** After the fraction: nothing, or an exponent. *)
Definition valid_exponent (s : jsstring) : bool :=
  match s with
  | [] => true
  | e :: r =>
      if ((e =? 101) || (e =? 69))%N then
        let r' :=
          match r with
          | sign :: r2 => if ((sign =? 43) || (sign =? 45))%N then r2 else r
          | [] => r
          end in
        match r' with
        | d :: r3 =>
            is_digit d && match skip_digits r3 with [] => true | _ => false end
        | [] => false
        end
      else false
  end.

(** After the integer part: an optional fraction, then [valid_exponent]. *)
Definition valid_fraction (s : jsstring) : bool :=
  match s with
  | c :: r =>
      if (c =? 46)%N then
        match r with
        | d :: r2 => is_digit d && valid_exponent (skip_digits r2)
        | [] => false
        end
      else valid_exponent s
  | [] => true
  end.

(** A number literal: an optional minus, then a single zero or a non-zero
    digit with further digits, then an optional fraction and exponent. *)
Definition valid_number (raw : jsstring) : bool :=
  let s :=
    match raw with
    | c :: r => if (c =? 45)%N then r else raw
    | [] => raw
    end in
  match s with
  | c :: r =>
      if (c =? 48)%N then valid_fraction r
      else if is_digit c then valid_fraction (skip_digits r)
      else false
  | [] => false
  end.

Definition cons_token (t : token) (rest : option (list token))
  : option (list token) :=
  match rest with
  | Some ts => Some (t :: ts)
  | None => None
  end.

(** The tokens of a text; [skip] counts the code units of the current token
    that are still to be passed over. *)
Fixpoint lex (skip : nat) (s : jsstring) : option (list token) :=
  match s with
  | [] => Some []
  | c :: s' =>
      match skip with
      | S k => lex k s'
      | O =>
          if is_json_ws c then lex 0 s'
          else if (c =? 123)%N then cons_token TLBrace (lex 0 s')
          else if (c =? 125)%N then cons_token TRBrace (lex 0 s')
          else if (c =? 91)%N then cons_token TLBracket (lex 0 s')
          else if (c =? 93)%N then cons_token TRBracket (lex 0 s')
          else if (c =? 58)%N then cons_token TColon (lex 0 s')
          else if (c =? 44)%N then cons_token TComma (lex 0 s')
          else if (c =? 34)%N then
            match lex_string s' [] 1 with
            | Some (str, n) => cons_token (TString str) (lex (n - 1) s')
            | None => None
            end
          else if is_digit c || (c =? 45)%N then
            let raw := number_span s in
            if valid_number raw
            then cons_token (TNumber raw) (lex (length raw - 1) s')
            else None
          else if startsWith s (u "true") then cons_token TTrue (lex 3 s')
          else if startsWith s (u "false") then cons_token TFalse (lex 4 s')
          else if startsWith s (u "null") then cons_token TNull (lex 3 s')
          else None
      end
  end.

(** A container under construction: its finished parts in reverse, and for
    an object the key that waits for its value. *)
Inductive frame :=
| FArray (items : list json)
| FObject (members : list (jsstring * json)) (key : option jsstring).

Inductive pstate :=
| SValue (stack : list frame)        (* a value must follow *)
| SArrayStart (stack : list frame)   (* after an opening bracket *)
| SObjectStart (stack : list frame)  (* after an opening brace *)
| SKey (stack : list frame)          (* after a comma in an object *)
| SColon (stack : list frame)        (* after a key *)
| SNext (stack : list frame)         (* after a value in a container *)
| SDone (v : json)                   (* the text's value is complete *)
| SError.

(** A finished value goes to the container on top of the stack. *)
Definition deliver (v : json) (stack : list frame) : pstate :=
  match stack with
  | [] => SDone v
  | FArray items :: stack' => SNext (FArray (v :: items) :: stack')
  | FObject members (Some k) :: stack' =>
      SNext (FObject ((k, v) :: members) None :: stack')
  | FObject _ None :: _ => SError
  end.

Definition value_token (t : token) (stack : list frame) : pstate :=
  match t with
  | TLBrace => SObjectStart (FObject [] None :: stack)
  | TLBracket => SArrayStart (FArray [] :: stack)
  | TString s => deliver (JString s) stack
  | TNumber raw => deliver (JNumber raw) stack
  | TTrue => deliver (JBool true) stack
  | TFalse => deliver (JBool false) stack
  | TNull => deliver JNull stack
  | TRBrace | TRBracket | TColon | TComma => SError
  end.

Definition key_token (t : token) (stack : list frame) : pstate :=
  match t, stack with
  | TString k, FObject members None :: stack' =>
      SColon (FObject members (Some k) :: stack')
  | _, _ => SError
  end.

Definition close_array (stack : list frame) : pstate :=
  match stack with
  | FArray items :: stack' => deliver (JArray (rev items)) stack'
  | _ => SError
  end.

Definition close_object (stack : list frame) : pstate :=
  match stack with
  | FObject members None :: stack' => deliver (JObject (rev members)) stack'
  | _ => SError
  end.

Definition parse_step (st : pstate) (t : token) : pstate :=
  match st with
  | SValue stack => value_token t stack
  | SArrayStart stack =>
      match t with
      | TRBracket => close_array stack
      | _ => value_token t stack
      end
  | SObjectStart stack =>
      match t with
      | TRBrace => close_object stack
      | _ => key_token t stack
      end
  | SKey stack => key_token t stack
  | SColon stack =>
      match t with
      | TColon => SValue stack
      | _ => SError
      end
  | SNext stack =>
      match t, stack with
      | TComma, FArray _ :: _ => SValue stack
      | TComma, FObject _ _ :: _ => SKey stack
      | TRBracket, _ => close_array stack
      | TRBrace, _ => close_object stack
      | _, _ => SError
      end
  | SDone _ => SError
  | SError => SError
  end.

(** [JSON.parse(text)]: [None] stands for the SyntaxError. *)
Definition JSON_parse (text : jsstring) : option json :=
  match lex 0 text with
  | Some tokens =>
      match fold_left parse_step tokens (SValue []) with
      | SDone v => Some v
      | _ => None
      end
  | None => None
  end.

(** The property names [parseContent] reads. *)
Inductive prop := P_choices | P_0 | P_delta | P_content.

Definition prop_name (p : prop) : jsstring :=
  match p with
  | P_choices => u "choices"
  | P_0 => u "0"
  | P_delta => u "delta"
  | P_content => u "content"
  end.

(** The value of the last member with the key: a repeated key overwrites. *)
Fixpoint lookup (key : jsstring) (members : list (jsstring * json))
  : option json :=
  match members with
  | [] => None
  | (k, v) :: rest =>
      match lookup key rest with
      | Some v' => Some v'
      | None => if str_eqb k key then Some v else None
      end
  end.

(** [v[p]] for a value that is neither [null] nor [undefined]; [None] is
    [undefined].  An array and a string have the index 0 and none of the
    three names; a number and a boolean have none of the four. *)
Definition get (v : json) (p : prop) : option json :=
  match v with
  | JObject members => lookup (prop_name p) members
  | JArray items =>
      match p with
      | P_0 => hd_error items
      | _ => None
      end
  | JString s =>
      match p, s with
      | P_0, c :: _ => Some (JString [c])
      | _, _ => None
      end
  | JNull | JBool _ | JNumber _ => None
  end.

(** [v?.[p]] *)
Definition get_opt (v : option json) (p : prop) : option json :=
  match v with
  | None | Some JNull => None
  | Some v' => get v' p
  end.

End Json.

(* ================================================================== *)
(** ** The collaborators the core consumes *)
(* ================================================================== *)

(** What the embedded code takes from outside the repository's core: the
    locale-dependent clock rendering, the translation table, the terminal
    colouring, and the engine's wording of the errors it throws. *)
Record Env := {
  (** [new Date(t).toLocaleTimeString()] *)
  toLocaleTimeString : Z -> jsstring;
  (** [i18n.t(key)] *)
  i18n_t : jsstring -> jsstring;
  (** kolorist's [yellow] *)
  yellow : jsstring -> jsstring;
  (** the rendering of the SyntaxError [JSON.parse] throws on a text *)
  syntax_error_text : jsstring -> jsstring;
  (** the rendering of the TypeError of a property read on [null] *)
  null_read_error_text : jsstring;
  (** [new RegExp(source)], which [String.prototype.match] applies to a
      string argument; [None] stands for the SyntaxError of a source that
      is no pattern *)
  RegExp_of_source : jsstring -> option Regex.regex
}.

(** The code units with a meaning of their own in a pattern source. *)
Definition is_syntax_character (c : N) : bool :=
  existsb (N.eqb c) [36; 40; 41; 42; 43; 46; 47; 63; 91; 92; 93; 94; 123;
                     124; 125]%N.

(** A concrete environment for evaluating examples: the English locale,
    where a translation key is its own text, and a terminal without
    colours.  Its [RegExp_of_source] compiles the sources that have no
    syntax character, which stand for themselves, and refuses the others. *)
Definition plain_env : Env := {|
  toLocaleTimeString := fun _ => u "12:00:00 PM";
  i18n_t := fun k => k;
  yellow := fun s => s;
  syntax_error_text := fun _ => u "SyntaxError: Unexpected token in JSON";
  null_read_error_text := u "TypeError: Cannot read properties of null";
  RegExp_of_source := fun s =>
    if existsb is_syntax_character s then None else Some (Regex.literal s)
|}.

(* ================================================================== *)
(** ** helpers/command-history.ts *)
(* ================================================================== *)

Module History.

Record CommandResult := {
  command : jsstring;
  exitCode : Z;
  stdout : jsstring;
  stderr : jsstring;
  timestamp : Z
}.

Definition MAX_HISTORY_SIZE : nat := 5.

(** The module-level array [commandHistory] is threaded explicitly.
    [unshift] puts the entry in front, [pop] drops the last one. *)
Definition addToCommandHistory
  (commandHistory : list CommandResult) (result : CommandResult)
  : list CommandResult :=
  let h := result :: commandHistory in
  if MAX_HISTORY_SIZE <? length h then removelast h else h.

Definition getCommandHistory (commandHistory : list CommandResult)
  : list CommandResult := commandHistory.

Definition clearCommandHistory (commandHistory : list CommandResult)
  : list CommandResult := [].

(** The elision line of [trimOutput]. *)
Definition elision (count : nat) : jsstring :=
  u "... (" ++ string_of_nat count ++ u " more lines) ...".

Definition trimOutput (output : jsstring) (maxLines : nat) : jsstring :=
  let lines := split output nl in
  if length lines <=? maxLines then output
  else
    let halfMax := Nat.div maxLines 2 in
    let firstHalf := firstn halfMax lines in
    let secondHalf := slice_last halfMax lines in
    join nl (firstHalf ++ [elision (length lines - maxLines)] ++ secondHalf).

Section Format.
Variable E : Env.

(** The body of the [map] callback of [formatCommandHistoryForAI]:
    [total] is [commandHistory.length]. *)
Definition formatEntry (total index : nat) (result : CommandResult)
  : jsstring :=
  let date := toLocaleTimeString E (timestamp result) in
  let commandNumber := total - index in
  let statusIndicator :=
    if (exitCode result =? 0)%Z then [10003%N] else [10007%N] in
  let output :=
    u "## Command " ++ string_of_nat commandNumber ++ u " [" ++ date
      ++ u "] " ++ statusIndicator ++ nl in
  let output :=
    output ++ fence_text ++ u "bash" ++ nl ++ u "$ " ++ command result ++ nl
      ++ fence_text ++ nl in
  let output :=
    output ++ u "Exit code: " ++ string_of_Z (exitCode result) ++ nl in
  let output :=
    if truthy (stdout result) && truthy (trim (stdout result)) then
      output ++ nl ++ u "Output:" ++ nl ++ fence_text ++ nl
        ++ trimOutput (stdout result) 15 ++ nl ++ fence_text ++ nl
    else output in
  let output :=
    if truthy (stderr result) && truthy (trim (stderr result)) then
      output ++ nl ++ u "Error:" ++ nl ++ fence_text ++ nl
        ++ trimOutput (stderr result) 15 ++ nl ++ fence_text ++ nl
    else output in
  output.

Fixpoint mapi_from (A B : Type) (f : nat -> A -> B) (i : nat) (l : list A)
  : list B :=
  match l with
  | [] => []
  | x :: l' => f i x :: mapi_from f (S i) l'
  end.

Definition formatCommandHistoryForAI (commandHistory : list CommandResult)
  : jsstring :=
  match commandHistory with
  | [] => u "No command history available."
  | _ :: _ =>
      join nl (mapi_from (formatEntry (length commandHistory)) 0
                 commandHistory)
  end.

End Format.

(** The operations on the buffer, for statements about every sequence of
    them. *)
Inductive op :=
| Record_ (result : CommandResult)
| Clear.

Definition apply_op (h : list CommandResult) (o : op) : list CommandResult :=
  match o with
  | Record_ r => addToCommandHistory h r
  | Clear => clearCommandHistory h
  end.

End History.


(* ================================================================== *)
(** ** helpers/completion.ts: readData *)
(* ================================================================== *)

Module Completion.

Import Regex Json.

(** One entry of [excluded : (RegExp | string | undefined)[]]. *)
Inductive pattern :=
| PRegExp (re : RegExp)
| PString (s : jsstring)
| PUndefined.

Definition pattern_truthy (p : pattern) : bool :=
  match p with
  | PRegExp _ => true
  | PString s => truthy s
  | PUndefined => false
  end.

(** [/```[a-zA-Z]*\n/gi] *)
Definition fence_line : RegExp := {|
  source := RCat (literal fence_text) (RCat (RStar letters) (RChar 10));
  ignoreCase := true
|}.

(** [/```[a-zA-Z]*/gi] *)
Definition fence_open : RegExp := {|
  source := RCat (literal fence_text) (RStar letters);
  ignoreCase := true
|}.

Definition shellCodeExclusions : list pattern :=
  [PRegExp fence_line; PRegExp fence_open; PString nl].

(** Modelled from the spec: [stripRegexPatterns] of
    helpers/strip-regex-patterns.ts, which src/ does not hold.  The spec has
    every fragment pass through all the exclusion patterns, regular
    expressions removed globally and literal strings removed; the patterns
    are applied one after the other in the order of the list, and an entry
    that is [undefined] or the empty string removes nothing. *)
Definition strip_one (current : jsstring) (p : pattern) : jsstring :=
  match p with
  | PRegExp re => removeAll re current
  | PString [] => current
  | PString ((_ :: _) as lit) => removeAllLiteral lit current
  | PUndefined => current
  end.

Definition stripRegexPatterns (inputString : jsstring)
  (patternList : list pattern) : jsstring :=
  fold_left strip_one patternList inputString.

(** [/(\n)?^data:\s*/g] *)
Definition data_marker : RegExp := {|
  source := RCat (ROpt (RChar 10))
              (RCat RBol (RCat (literal (u "data:")) (RStar whitespace)));
  ignoreCase := false
|}.

(** What [parseContent] hands back: its declared type is [string]; a JSON
    value of another type in the content field is kept apart. *)
Inductive content :=
| Text (s : jsstring)
| NotText (v : json).

(** The events one read can meet, in the order they reach the process: the
    stream yields a chunk, ends or fails; a key is pressed; SIGINT is
    delivered. *)
Inductive event :=
| Chunk (chunk : jsstring)
| StreamEnd
| StreamError
| Keypress (name : jsstring)
| Sigint.

(** A SIGINT listener of the process: one registered before the read, or the
    handler the read installs in analysis mode. *)
Inductive listener :=
| Prior (id : nat)
| AnalysisHandler.

(** Where the [for await] loop of the read stands. *)
Inductive loop_status :=
| Running       (* waiting for the next chunk *)
| Returned      (* left by [return] or by the end of the stream *)
| Threw         (* an exception left the async executor: nothing settles *)
| Untyped       (* a content that is no string, against the declared type
                   of [parseContent]: the model follows the read no further *)
| Exited.       (* SIGINT met no listener: the process is gone *)

(** A call of the writer, by its call site: the two notices of the
    analysis mode, or a decoded fragment. *)
Inductive written_item :=
| Notice (s : jsstring)
| Fragment (s : jsstring).

Definition written_text (w : written_item) : jsstring :=
  match w with
  | Notice s => s
  | Fragment s => s
  end.

(** The variables of one [readData] call, its promise, the writer's calls
    so far, and the process around it. *)
Record state := {
  stopTextStream : bool;
  stoppedByUser : bool;
  data : jsstring;
  dataStart : bool;
  buffer : jsstring;
  originalSigintHandler : option listener;
  loop : loop_status;
  settled : option jsstring;          (* the value the promise resolved with *)
  written : list written_item;        (* the writer's calls, oldest first *)
  sigint_listeners : list listener;   (* [process.listeners('SIGINT')] *)
  invoked : list listener             (* prior listeners SIGINT has run *)
}.

Definition with_stopTextStream (v : bool) (st : state) : state :=
  {| stopTextStream := v; stoppedByUser := stoppedByUser st;
     data := data st; dataStart := dataStart st; buffer := buffer st;
     originalSigintHandler := originalSigintHandler st; loop := loop st;
     settled := settled st; written := written st;
     sigint_listeners := sigint_listeners st; invoked := invoked st |}.

Definition with_stoppedByUser (v : bool) (st : state) : state :=
  {| stopTextStream := stopTextStream st; stoppedByUser := v;
     data := data st; dataStart := dataStart st; buffer := buffer st;
     originalSigintHandler := originalSigintHandler st; loop := loop st;
     settled := settled st; written := written st;
     sigint_listeners := sigint_listeners st; invoked := invoked st |}.

Definition with_data (v : jsstring) (st : state) : state :=
  {| stopTextStream := stopTextStream st; stoppedByUser := stoppedByUser st;
     data := v; dataStart := dataStart st; buffer := buffer st;
     originalSigintHandler := originalSigintHandler st; loop := loop st;
     settled := settled st; written := written st;
     sigint_listeners := sigint_listeners st; invoked := invoked st |}.

Definition with_dataStart (v : bool) (st : state) : state :=
  {| stopTextStream := stopTextStream st; stoppedByUser := stoppedByUser st;
     data := data st; dataStart := v; buffer := buffer st;
     originalSigintHandler := originalSigintHandler st; loop := loop st;
     settled := settled st; written := written st;
     sigint_listeners := sigint_listeners st; invoked := invoked st |}.

Definition with_buffer (v : jsstring) (st : state) : state :=
  {| stopTextStream := stopTextStream st; stoppedByUser := stoppedByUser st;
     data := data st; dataStart := dataStart st; buffer := v;
     originalSigintHandler := originalSigintHandler st; loop := loop st;
     settled := settled st; written := written st;
     sigint_listeners := sigint_listeners st; invoked := invoked st |}.

Definition with_loop (v : loop_status) (st : state) : state :=
  {| stopTextStream := stopTextStream st; stoppedByUser := stoppedByUser st;
     data := data st; dataStart := dataStart st; buffer := buffer st;
     originalSigintHandler := originalSigintHandler st; loop := v;
     settled := settled st; written := written st;
     sigint_listeners := sigint_listeners st; invoked := invoked st |}.

Definition with_settled (v : option jsstring) (st : state) : state :=
  {| stopTextStream := stopTextStream st; stoppedByUser := stoppedByUser st;
     data := data st; dataStart := dataStart st; buffer := buffer st;
     originalSigintHandler := originalSigintHandler st; loop := loop st;
     settled := v; written := written st;
     sigint_listeners := sigint_listeners st; invoked := invoked st |}.

Definition with_written (v : list written_item) (st : state) : state :=
  {| stopTextStream := stopTextStream st; stoppedByUser := stoppedByUser st;
     data := data st; dataStart := dataStart st; buffer := buffer st;
     originalSigintHandler := originalSigintHandler st; loop := loop st;
     settled := settled st; written := v;
     sigint_listeners := sigint_listeners st; invoked := invoked st |}.

Definition with_sigint_listeners (v : list listener) (st : state) : state :=
  {| stopTextStream := stopTextStream st; stoppedByUser := stoppedByUser st;
     data := data st; dataStart := dataStart st; buffer := buffer st;
     originalSigintHandler := originalSigintHandler st; loop := loop st;
     settled := settled st; written := written st;
     sigint_listeners := v; invoked := invoked st |}.

Definition with_invoked (v : list listener) (st : state) : state :=
  {| stopTextStream := stopTextStream st; stoppedByUser := stoppedByUser st;
     data := data st; dataStart := dataStart st; buffer := buffer st;
     originalSigintHandler := originalSigintHandler st; loop := loop st;
     settled := settled st; written := written st;
     sigint_listeners := sigint_listeners st; invoked := v |}.

(** [writer(s)] *)
Definition write (w : written_item) (st : state) : state :=
  with_written (written st ++ [w]) st.

(** [resolve(v)]: a promise keeps the first value it is resolved with. *)
Definition resolve (v : jsstring) (st : state) : state :=
  match settled st with
  | Some _ => st
  | None => with_settled (Some v) st
  end.

Definition is_running (st : state) : bool :=
  match loop st with
  | Running => true
  | _ => false
  end.

Section ReadData.

Variable E : Env.
(** [...excluded] *)
Variable excluded : list pattern.
(** [options?.isAnalysis] *)
Variable isAnalysis : bool.

(** [const [excludedPrefix] = excluded] *)
Definition excludedPrefix : pattern :=
  match excluded with
  | [] => PUndefined
  | p :: _ => p
  end.

(** [parseContent(payload)]: the marker is removed, the rest is parsed, and
    [delta.choices?.[0]?.delta?.content ?? ''] is read.  The catch clause
    takes the SyntaxError of [JSON.parse] and the TypeError of reading
    [choices] on [null] alike. *)
Definition parseContent (payload : jsstring) : content :=
  let data := removeAll data_marker payload in
  let diagnostic (error : jsstring) :=
    Text (u "Error with JSON.parse and " ++ payload ++ u "." ++ nl ++ error) in
  match JSON_parse (trim data) with
  | None => diagnostic (syntax_error_text E (trim data))
  | Some JNull => diagnostic (null_read_error_text E)
  | Some delta =>
      match get_opt (get_opt (get_opt (get delta P_choices) P_0) P_delta)
              P_content with
      | None | Some JNull => Text []
      | Some (JString s) => Text s
      | Some v => NotText v
      end
  end.

(** Whether [buffer.match(excludedPrefix ?? '')] is truthy; [None] when the
    RegExp constructor refuses a string pattern.  The empty source is the
    empty pattern, which matches every string. *)
Definition match_prefix (buffer : jsstring) : option bool :=
  match excludedPrefix with
  | PRegExp re => Some (test re buffer)
  | PString [] | PUndefined => Some true
  | PString ((_ :: _) as src) =>
      match RegExp_of_source E src with
      | Some r => Some (test {| source := r; ignoreCase := false |} buffer)
      | None => None
      end
  end.

(** The [cleanup] closure. *)
Definition cleanup (st : state) : state :=
  if isAnalysis then
    with_sigint_listeners
      (match originalSigintHandler st with
       | Some h => [h]
       | None => []
       end) st
  else st.

(** The handler the read registers for SIGINT in analysis mode. *)
Definition analysis_handler (st : state) : state :=
  let st := with_stoppedByUser true st in
  let st := with_stopTextStream true st in
  let st :=
    write (Notice (nl ++ nl ++ yellow E (i18n_t E (u "Analysis stopped"))
                     ++ nl)) st in
  resolve (data st) st.

(** The branch of the payload loop taken on the completion marker or on the
    stop flag, up to its [return]. *)
Definition finish (st : state) : state :=
  let st := with_dataStart false st in
  let st := cleanup st in
  let st :=
    if stoppedByUser st
    then write (Notice (nl ++ yellow E (i18n_t E (u "Analysis complete"))
                          ++ nl)) st
    else st in
  let st := resolve (data st) st in
  with_loop Returned st.

(** [if (dataStart && content) { ... }] *)
Definition emit (content : jsstring) (st : state) : state :=
  if dataStart st && truthy content then
    let contentWithoutExcluded := stripRegexPatterns content excluded in
    let st := with_data (data st ++ contentWithoutExcluded) st in
    write (Fragment contentWithoutExcluded) st
  else st.

(** One iteration of [for (const payload of payloads)]; the boolean tells
    whether the iteration left the loop by [break]. *)
Definition payload_step (payload : jsstring) (st : state) : state * bool :=
  if includes payload (u "[DONE]") || stopTextStream st then
    (finish st, false)
  else if startsWith payload (u "data:") then
    match parseContent payload with
    | NotText _ => (with_loop Untyped st, false)
    | Text content =>
        if negb (dataStart st) then
          let st := with_buffer (buffer st ++ content) st in
          match match_prefix (buffer st) with
          | None => (with_loop Threw st, false)
          | Some true =>
              let st := with_dataStart true st in
              let st := with_buffer [] st in
              if pattern_truthy excludedPrefix then (st, true)
              else (emit content st, false)
          | Some false => (emit content st, false)
          end
        else (emit content st, false)
    end
  else (st, false).

(** The payloads of one chunk, until the loop is left by [break], by
    [return] or by an exception. *)
Fixpoint payloads_loop (payloads : list jsstring) (st : state) : state :=
  match payloads with
  | [] => st
  | payload :: rest =>
      let (st', broke) := payload_step payload st in
      if broke || negb (is_running st') then st'
      else payloads_loop rest st'
  end.

Definition stopTextStreamKeys : list jsstring := [u "q"; u "escape"].

Definition run_listener (st : state) (l : listener) : state :=
  match l with
  | Prior _ => with_invoked (invoked st ++ [l]) st
  | AnalysisHandler => analysis_handler st
  end.

(** The body of [for await] for one chunk, given its payloads. *)
Definition on_chunk (payloads : list jsstring) (st : state) : state :=
  if is_running st then payloads_loop payloads st else st.

(** What one event does to the read and the process.  A SIGINT that meets
    no listener ends the process, by the default action of the runtime. *)
Definition step (st : state) (e : event) : state :=
  match e with
  | Chunk chunk => on_chunk (split chunk (nl ++ nl)) st
  | StreamEnd =>
      if is_running st
      then with_loop Returned (let st := cleanup st in resolve (data st) st)
      else st
  | StreamError =>
      if is_running st then with_loop Threw st else st
  | Keypress name =>
      if existsb (str_eqb name) stopTextStreamKeys
      then with_stopTextStream true st
      else st
  | Sigint =>
      match sigint_listeners st with
      | [] => with_loop Exited st
      | ls => fold_left run_listener ls st
      end
  end.

(** The read up to its first [await]: the variables are initialised and, in
    analysis mode, the SIGINT listeners are taken over.  [listeners] are
    the ones the process had, by their identifiers, oldest first: the last
    of them is kept in [originalSigintHandler] ([pop]), all of them are
    removed, and the handler of the read is registered. *)
Definition start (listeners : list nat) : state :=
  {| stopTextStream := false; stoppedByUser := false; data := [];
     dataStart := false; buffer := [];
     originalSigintHandler :=
       if isAnalysis then
         match listeners with
         | [] => None
         | id :: ids => Some (Prior (last ids id))
         end
       else None;
     loop := Running; settled := None; written := [];
     sigint_listeners :=
       if isAnalysis then [AnalysisHandler] else map Prior listeners;
     invoked := [] |}.

Definition run (st : state) (events : list event) : state :=
  fold_left step events st.

(** [readData(iterableStream, ...excluded)(writer, options)] under a
    schedule of events. *)
Definition readData (listeners : list nat) (events : list event)
  : state :=
  run (start listeners) events.

(** *** What a run shows *)

(** The decoded fragments among the writer's calls, oldest first. *)
Definition fragment_writes (st : state) : list jsstring :=
  flat_map (fun w => match w with
                     | Fragment s => [s]
                     | Notice _ => []
                     end) (written st).

(** The content fragment a payload stands for: the payloads with the
    event-data marker carry one, the completion marker carries none. *)
Definition payload_fragment (payload : jsstring) : list jsstring :=
  if includes payload (u "[DONE]") then []
  else if startsWith payload (u "data:") then
    match parseContent payload with
    | Text s => [s]
    | NotText _ => []
    end
  else [].

(** The content fragments of a schedule, in the order of the stream. *)
Definition fragments (events : list event) : list jsstring :=
  flat_map (fun e => match e with
                     | Chunk chunk =>
                         flat_map payload_fragment (split chunk (nl ++ nl))
                     | _ => []
                     end) events.

End ReadData.

End Completion.

(* ================================================================== *)
(** ** helpers/fork-ai.ts: the bridge of one generation request *)
(* ================================================================== *)

Module ForkAi.

(** An Error object as the bridge builds or relays it.  [stack] is [None]
    for the trace the engine attaches on its own. *)
Record error_value := {
  err_message : jsstring;
  err_name : jsstring;
  err_code : option jsstring;
  err_stack : option jsstring
}.

(** [new Error(message)] *)
Definition new_Error (message : jsstring) : error_value :=
  {| err_message := message; err_name := u "Error"; err_code := None;
     err_stack := None |}.

(** The messages of the worker, by their [type]. *)
Inductive worker_message :=
| MReady
| MChunk (data : jsstring)
| MDone
| MError (message name : jsstring) (code : option jsstring)
         (stack : jsstring)
| MOther.

(** What reaches the supervising side from the worker process: a message,
    its exit with a code ([None] is [null], the exit by a signal), or an
    error of the process. *)
Inductive worker_event :=
| Message (m : worker_message)
| Exit (code : option Z)
| ProcessError (err : error_value).

(** What the mock response emits to the waiting caller. *)
Inductive response_event :=
| data_event (chunk : jsstring)
| end_event
| error_event (err : error_value).

(** The listeners [generateCompletionWithFork] attached for one request,
    and what its mock response has emitted. *)
Record bridge := {
  message_listening : bool;
  error_listening : bool;
  emitted : list response_event
}.

Definition emit (ev : response_event) (b : bridge) : bridge :=
  {| message_listening := message_listening b;
     error_listening := error_listening b;
     emitted := emitted b ++ [ev] |}.

(** [process.removeListener] of [messageHandler] and [errorHandler]. *)
Definition remove_listeners (b : bridge) : bridge :=
  {| message_listening := false; error_listening := false;
     emitted := emitted b |}.

(** The state on return from [generateCompletionWithFork]. *)
Definition attached : bridge :=
  {| message_listening := true; error_listening := true; emitted := [] |}.

Definition messageHandler (m : worker_message) (b : bridge) : bridge :=
  match m with
  | MChunk data => emit (data_event data) b
  | MDone => remove_listeners (emit end_event b)
  | MError message name code stack =>
      remove_listeners
        (emit (error_event {| err_message := message; err_name := name;
                              err_code := code; err_stack := Some stack |})
           b)
  | MReady | MOther => b
  end.

(** The text of [code] in a template literal. *)
Definition code_text (code : option Z) : jsstring :=
  match code with
  | None => u "null"
  | Some z => string_of_Z z
  end.

(** The listener of [exit]: [if (code !== 0) { ... }]. *)
Definition exitHandler (code : option Z) (b : bridge) : bridge :=
  match code with
  | Some 0%Z => b
  | _ =>
      emit (error_event
              (new_Error (u "AI process exited with code " ++ code_text code)))
        b
  end.

Definition errorHandler (err : error_value) (b : bridge) : bridge :=
  emit (error_event err) b.

Definition step (b : bridge) (e : worker_event) : bridge :=
  match e with
  | Message m => if message_listening b then messageHandler m b else b
  | Exit code => exitHandler code b
  | ProcessError err => if error_listening b then errorHandler err b else b
  end.

Definition run (events : list worker_event) : bridge :=
  fold_left step events attached.

End ForkAi.

(* ================================================================== *)
(** ** helpers/ai-process.ts: the worker *)
(* ================================================================== *)

Module AiProcess.

Import ForkAi.

(** An exception as the worker catches it: the four properties it
    reads. *)
Record thrown := {
  message : jsstring;
  stack : jsstring;
  name : jsstring;
  code : option jsstring
}.

(** The message of type [error] that both handlers send. *)
Definition error_message (error : thrown) : worker_message :=
  MError (message error) (name error) (code error) (stack error).

(** How one generation goes in the worker: [generateCompletion] and the
    iteration of the stream hand over the chunks, each by its text
    ([chunk.toString()]), and the stream ends; or an exception is thrown
    after some of them. *)
Inductive generation :=
| Streamed (chunks : list jsstring)
| Failed (chunks : list jsstring) (error : thrown).

(** The listener of [message], with the IPC channel open: what it sends
    to the parent for a message of the given type. *)
Definition on_message (type : jsstring) (g : generation)
  : list worker_message :=
  if str_eqb type (u "generate") then
    match g with
    | Streamed chunks => map MChunk chunks ++ [MDone]
    | Failed chunks error => map MChunk chunks ++ [error_message error]
    end
  else [].

(** The listener of [uncaughtException], as the parent sees it: the error
    is sent, and the process exits with code 1. *)
Definition on_uncaughtException (error : thrown) : list worker_event :=
  [Message (error_message error); Exit (Some 1%Z)].

End AiProcess.

(* ================================================================== *)
(** ** Sample inputs *)
(* ================================================================== *)

Module Samples.

Import History.

(** A history entry told apart by its exit code. *)
Definition entry (n : Z) : CommandResult :=
  {| command := u "echo"; exitCode := n; stdout := []; stderr := [];
     timestamp := n |}.

(** The text whose lines are the numbers from 1 to [n]. *)
Definition numbered_lines (n : nat) : jsstring :=
  join nl (map string_of_nat (seq 1 n)).

(** A frame of the upstream API whose delta carries [content] (written as
    JSON text, apostrophes standing for double quotes), with the
    double-newline delimiter after it. *)
Definition frame (content : String.string) : jsstring :=
  q "data: {'choices':[{'delta':{'content':'" ++ q content ++ q "'}}]}"
    ++ nl ++ nl.

Definition done_frame : jsstring := u "data: [DONE]" ++ nl ++ nl.

End Samples.

Arguments Samples.frame content%_string.

(* ================================================================== *)
(** ** The frames of the upstream API *)
(* ================================================================== *)

(** What the stream carries, for statements about every content: the JSON
    text of a string, with the quote, the backslash and the control
    characters escaped, and the frame whose delta has that string as its
    content. *)
Module Upstream.

(** The lower-case hexadecimal digit of a number below 16. *)
Definition hex_digit (d : N) : N :=
  if (d <? 10)%N then (48 + d)%N else (87 + d)%N.

Definition escape_unit (c : N) : jsstring :=
  if (c =? 34)%N then [92; 34]%N
  else if (c =? 92)%N then [92; 92]%N
  else if (c =? 8)%N then [92; 98]%N
  else if (c =? 12)%N then [92; 102]%N
  else if (c =? 10)%N then [92; 110]%N
  else if (c =? 13)%N then [92; 114]%N
  else if (c =? 9)%N then [92; 116]%N
  else if (c <? 32)%N then
    [92; 117; 48; 48; hex_digit (c / 16); hex_digit (c mod 16)]%N
  else [c].

Definition json_escape (s : jsstring) : jsstring :=
  flat_map escape_unit s.

(** The payload [data: {"choices":[{"delta":{"content":"..."}}]}] with the
    content [content]. *)
Definition content_payload (content : jsstring) : jsstring :=
  q "data: {'choices':[{'delta':{'content':'" ++ json_escape content
    ++ q "'}}]}".

(** The chunk that carries the payloads of [contents], each closed by the
    double newline. *)
Definition content_chunk (contents : list jsstring) : jsstring :=
  flat_map (fun c => content_payload c ++ nl ++ nl) contents.

End Upstream.

(* ================================================================== *)
(** * Properties *)
(* ================================================================== *)

(** ** The language primitives on sample inputs *)

Module BuiltinFacts.

Import Regex Json Completion Samples.

Example split_frames :
  split (u "a" ++ nl ++ nl ++ u "b" ++ nl ++ nl) (nl ++ nl)
  = [u "a"; u "b"; []]
  /\ split (u "a" ++ nl ++ nl ++ nl ++ u "b") (nl ++ nl) = [u "a"; nl ++ u "b"]
  /\ split [] (nl ++ nl) = [[]].
Proof.
  repeat split; reflexivity.
Qed.

Example trim_both_ends :
  trim (u "  ls -la " ++ nl) = u "ls -la"
  /\ trim (u " " ++ nl) = [].
Proof.
  split; reflexivity.
Qed.

Example integers_in_templates :
  string_of_nat 0 = u "0" /\ string_of_nat 120 = u "120"
  /\ string_of_Z (-15) = u "-15" /\ string_of_Z 0 = u "0".
Proof.
  repeat split; reflexivity.
Qed.

Example fence_patterns :
  test fence_line (u "```bash" ++ nl) = true
  /\ test fence_line (u "```bash") = false
  /\ test fence_line (u "so: ```" ++ nl ++ u "ls") = true
  /\ removeAll fence_line (u "```BASH" ++ nl ++ u "ls") = u "ls"
  /\ removeAll fence_open (u "a```sh b``` c``") = u "a b c``"
  /\ removeAllLiteral nl (u "a" ++ nl ++ nl ++ u "b" ++ nl) = u "ab".
Proof.
  repeat split; reflexivity.
Qed.

(** The marker is removed at the start of the payload only: without the m
    flag the caret matches nowhere else. *)
Example data_marker_removal :
  removeAll data_marker (u "data:   {} data: x") = u "{} data: x"
  /\ removeAll data_marker (nl ++ u "data: x") = nl ++ u "data: x"
  /\ removeAll data_marker (u "data:") = [].
Proof.
  repeat split; reflexivity.
Qed.

Example stripRegexPatterns_in_order :
  stripRegexPatterns (u "```sh" ++ nl ++ u "ls" ++ nl ++ u "```")
    shellCodeExclusions = u "ls"
  /\ stripRegexPatterns (u "ls") [] = u "ls"
  /\ stripRegexPatterns (u "a-b") [PUndefined; PString []; PString (u "-")]
     = u "ab".
Proof.
  repeat split; reflexivity.
Qed.

Example JSON_parse_values :
  JSON_parse (q " {'a' : [1, -2.5e+10, true, false, null, [], {}], 'b': 'x\nA'} ")
  = Some (JObject
            [(u "a", JArray [JNumber (u "1"); JNumber (u "-2.5e+10");
                             JBool true; JBool false; JNull; JArray [];
                             JObject []]);
             (u "b", JString (u "x" ++ nl ++ u "A"))]).
Proof.
  reflexivity.
Qed.

Example JSON_parse_refuses :
  JSON_parse [] = None
  /\ JSON_parse (u "[DONE]") = None
  /\ JSON_parse (u "[1,]") = None
  /\ JSON_parse (u "01") = None
  /\ JSON_parse (u "1.") = None
  /\ JSON_parse (q "{'a' 1}") = None
  /\ JSON_parse (q "{'a':1,}") = None
  /\ JSON_parse (u "tru") = None
  /\ JSON_parse (u "1 2") = None
  /\ JSON_parse (q "'abc") = None
  /\ JSON_parse (q "{'a':1") = None.
Proof.
  repeat split; reflexivity.
Qed.

(** A frame as the upstream API sends it, and the payloads whose content
    is absent or [null]. *)
Example parseContent_frames (E : Env) :
  parseContent E
    (q "data: {'id':'c1','created':1694268190,'choices':[{'index':0,'delta':{'content':'Hello'},'finish_reason':null}]}")
  = Text (u "Hello")
  /\ parseContent E (q "data: {'choices':[{'delta':{'role':'assistant'}}]}")
     = Text []
  /\ parseContent E (q "data: {'choices':[{'delta':{'content':null}}]}")
     = Text []
  /\ parseContent E (q "data: {'choices':[]}") = Text []
  /\ parseContent E (q "data: {}") = Text []
  /\ parseContent E (q "data: {'choices':[{'delta':{'content':'a'}}],'choices':[]}")
     = Text []
  /\ parseContent E (q "data: null")
     = Text (u "Error with JSON.parse and data: null." ++ nl
               ++ null_read_error_text E).
Proof.
  repeat split; reflexivity.
Qed.

End BuiltinFacts.

(** ** The command history buffer *)

Module HistoryFacts.

Import History Samples.

Lemma firstn_app_firstn (A : Type) (n : nat) (a b : list A) :
  firstn n (a ++ firstn n b) = firstn n (a ++ b).
Proof.
  rewrite !firstn_app, firstn_firstn.
  f_equal. f_equal. lia.
Qed.

(** Below capacity or at it, an insertion is the first [MAX_HISTORY_SIZE]
    entries of the buffer with the new entry in front. *)
Lemma addToCommandHistory_firstn (h : list CommandResult) (r : CommandResult) :
  length h <= MAX_HISTORY_SIZE ->
  addToCommandHistory h r = firstn MAX_HISTORY_SIZE (r :: h).
Proof.
  intros Hlen. unfold addToCommandHistory.
  destruct (MAX_HISTORY_SIZE <? length (r :: h)) eqn:Hfull.
  - apply Nat.ltb_lt in Hfull.
    rewrite removelast_firstn_len. f_equal.
    simpl in *. unfold MAX_HISTORY_SIZE in *. lia.
  - apply Nat.ltb_ge in Hfull.
    symmetry. apply firstn_all2. exact Hfull.
Qed.

Lemma addToCommandHistory_length (h : list CommandResult) (r : CommandResult) :
  length h <= MAX_HISTORY_SIZE ->
  length (addToCommandHistory h r) <= MAX_HISTORY_SIZE.
Proof.
  intros Hlen. rewrite addToCommandHistory_firstn by exact Hlen.
  rewrite length_firstn. lia.
Qed.

Lemma record_all_firstn (rs h : list CommandResult) :
  length h <= MAX_HISTORY_SIZE ->
  fold_left addToCommandHistory rs h
  = firstn MAX_HISTORY_SIZE (rev rs ++ h).
Proof.
  revert h. induction rs as [|r rs IH]; intros h Hlen.
  - cbn [fold_left rev app]. symmetry. apply firstn_all2. exact Hlen.
  - cbn [fold_left rev].
    rewrite IH by (apply addToCommandHistory_length; exact Hlen).
    rewrite addToCommandHistory_firstn by exact Hlen.
    rewrite firstn_app_firstn, <- app_assoc. reflexivity.
Qed.

Lemma apply_ops_length (ops : list op) (h : list CommandResult) :
  length h <= MAX_HISTORY_SIZE ->
  length (fold_left apply_op ops h) <= MAX_HISTORY_SIZE.
Proof.
  revert h. induction ops as [|o ops IH]; intros h Hlen; simpl.
  - exact Hlen.
  - apply IH. destruct o; simpl.
    + apply addToCommandHistory_length. exact Hlen.
    + unfold MAX_HISTORY_SIZE. lia.
Qed.

(** C5.  After more insertions than the capacity, into the empty buffer or
    into any buffer within the capacity, the buffer holds exactly
    [MAX_HISTORY_SIZE] entries: the last ones inserted, the most recent
    first.  An insertion into a full buffer puts the new entry in front and
    drops the last entry, the one inserted longest ago.  After any sequence
    of insertions and resets the length is at most the capacity. *)
Theorem history_holds_last_capacity_entries
  (h0 rs : list CommandResult) :
  length h0 <= MAX_HISTORY_SIZE ->
  MAX_HISTORY_SIZE < length rs ->
  let h := fold_left addToCommandHistory rs h0 in
  length h = MAX_HISTORY_SIZE
  /\ h = firstn MAX_HISTORY_SIZE (rev rs)
  /\ (forall full r,
        length full = MAX_HISTORY_SIZE ->
        addToCommandHistory full r = r :: removelast full)
  /\ (forall ops,
        length (fold_left apply_op ops []) <= MAX_HISTORY_SIZE).
Proof.
  intros Hreach Hmore h. subst h.
  rewrite record_all_firstn by exact Hreach.
  rewrite firstn_app, length_rev.
  replace (MAX_HISTORY_SIZE - length rs) with 0 by lia.
  rewrite firstn_O, app_nil_r.
  repeat split.
  - rewrite length_firstn, length_rev. lia.
  - intros full r Hfull. unfold addToCommandHistory.
    destruct full as [|x full]; [discriminate Hfull|].
    cbn [length] in *. rewrite Hfull.
    reflexivity.
  - intros ops. apply apply_ops_length. simpl. lia.
Qed.

Lemma history_holds_last_capacity_entries_witness :
  fold_left addToCommandHistory (map entry [1; 2; 3; 4; 5; 6; 7]%Z)
    [entry 0]
  = map entry [7; 6; 5; 4; 3]%Z.
Proof.
  pose proof (@history_holds_last_capacity_entries [entry 0]
                (map entry [1; 2; 3; 4; 5; 6; 7]%Z)) as H.
  assert (Hreach : length [entry 0] <= MAX_HISTORY_SIZE)
    by (unfold MAX_HISTORY_SIZE; simpl; lia).
  assert (Hlen : MAX_HISTORY_SIZE < length (map entry [1; 2; 3; 4; 5; 6; 7]%Z))
    by (unfold MAX_HISTORY_SIZE; simpl; lia).
  destruct (H Hreach Hlen) as [_ [Heq _]].
  exact Heq.
Defined.

(** The shape of a trimmed output: with more than fifteen lines, the seven
    first and the seven last lines are kept around the elision line, and the
    lines left out are one more than the elision line says. *)
Lemma trimOutput_long (output : jsstring) :
  15 < length (split output nl) ->
  exists omitted,
    split output nl
    = firstn 7 (split output nl) ++ omitted ++ slice_last 7 (split output nl)
    /\ length omitted = S (length (split output nl) - 15)
    /\ trimOutput output 15
       = join nl (firstn 7 (split output nl)
                    ++ [elision (length (split output nl) - 15)]
                    ++ slice_last 7 (split output nl)).
Proof.
  intros Hlong. set (lines := split output nl) in *.
  exists (firstn (length lines - 14) (skipn 7 lines)).
  split; [|split].
  - unfold slice_last.
    replace (length lines - 7) with ((length lines - 14) + 7) by lia.
    rewrite <- skipn_skipn, firstn_skipn, firstn_skipn. reflexivity.
  - rewrite length_firstn, length_skipn. lia.
  - unfold trimOutput. fold lines.
    destruct (length lines <=? 15) eqn:Hle.
    + apply Nat.leb_le in Hle. lia.
    + reflexivity.
Qed.

(** C6.  A captured output of sixteen lines is rendered as its lines 1 to 7,
    the elision line, and its lines 10 to 16: the lines 8 and 9 are left
    out, two lines, and the elision line states one. *)
Theorem trimOutput_sixteen_lines :
  trimOutput (numbered_lines 16) 15
  = join nl (map string_of_nat (seq 1 7)
               ++ [u "... (1 more lines) ..."]
               ++ map string_of_nat (seq 10 7))
  /\ includes
       (formatCommandHistoryForAI plain_env
          [{| command := u "seq 16"; exitCode := 0;
              stdout := numbered_lines 16; stderr := []; timestamp := 0 |}])
       (nl ++ u "7" ++ nl ++ u "... (1 more lines) ..." ++ nl ++ u "10" ++ nl)
     = true.
Proof.
  split; vm_compute; reflexivity.
Qed.

Lemma join_nonempty (sep p : jsstring) (rest : list jsstring) :
  p <> [] -> join sep (p :: rest) <> [].
Proof.
  intros Hp. destruct rest as [|p' rest]; simpl.
  - exact Hp.
  - destruct p as [|c p]; [contradiction|discriminate].
Qed.

Lemma formatEntry_nonempty (E : Env) (total index : nat) (r : CommandResult) :
  formatEntry E total index r <> [].
Proof.
  unfold formatEntry.
  destruct (truthy (stdout r) && truthy (trim (stdout r)));
    destruct (truthy (stderr r) && truthy (trim (stderr r)));
    discriminate.
Qed.

(** C10.  On the empty history the formatter returns the text
    [No command history available.], which is not the empty string; and on
    no history at all is the formatted block empty. *)
Theorem formatCommandHistoryForAI_empty_history (E : Env) :
  formatCommandHistoryForAI E [] = u "No command history available."
  /\ formatCommandHistoryForAI E [] <> []
  /\ forall commandHistory, formatCommandHistoryForAI E commandHistory <> [].
Proof.
  split; [reflexivity|split]; [discriminate|].
  intros [|r h]; [discriminate|].
  unfold formatCommandHistoryForAI. cbn [mapi_from].
  apply join_nonempty, formatEntry_nonempty.
Qed.

End HistoryFacts.

(** ** The worker bridge *)

Module ForkAiFacts.

Import ForkAi.

(** C9, as the code has it.  Whatever the request has received so far, the
    exit of the worker with a code other than 0 (a number, or [null] for the
    exit by a signal) makes the mock response emit one error whose message
    carries that code. *)
Theorem exit_with_nonzero_code_emits_error (b : bridge) (code : option Z) :
  code <> Some 0%Z ->
  emitted (step b (Exit code))
  = emitted b
      ++ [error_event
            (new_Error (u "AI process exited with code " ++ code_text code))].
Proof.
  intros Hcode. cbn [step]. unfold exitHandler.
  destruct code as [[|p|p]|]; try reflexivity.
  contradiction Hcode. reflexivity.
Qed.

Lemma exit_with_nonzero_code_emits_error_witness :
  emitted (run [Message (MChunk (u "ls")); Exit (Some 1%Z)])
  = [data_event (u "ls");
     error_event (new_Error (u "AI process exited with code 1"))].
Proof.
  change (run [Message (MChunk (u "ls")); Exit (Some 1%Z)])
    with (step (run [Message (MChunk (u "ls"))]) (Exit (Some 1%Z))).
  rewrite (@exit_with_nonzero_code_emits_error
             (run [Message (MChunk (u "ls"))]) (Some 1%Z)) by discriminate.
  reflexivity.
Defined.

(** C9, as the claim has it, fails on the exit code 0: the worker exits in
    the middle of the stream, after a chunk and before any terminal
    message, and the mock response emits no error. *)
Lemma exit_with_code_zero_emits_nothing :
  let b := run [Message (MChunk (u "ls")); Exit (Some 0%Z)] in
  emitted b = [data_event (u "ls")]
  /\ forall err, ~ In (error_event err) (emitted b).
Proof.
  split; [reflexivity|].
  intros err [H|[]]. discriminate H.
Qed.

End ForkAiFacts.

(** ** The stream decoder and the cancellable reader *)

Module DecoderFacts.

Import Regex Json Completion Samples.

(** *** The end-to-end scenario *)

(** C8.  The frames with the contents [ls] and [ -la], then the [DONE]
    frame, each closed by the double newline, with no exclusion pattern:
    the read resolves with [ls -la], whether the frames come one per chunk
    or all in one chunk, in either mode and whatever the environment. *)
Theorem readData_ls_la (E : Env) (isAnalysis : bool)
  (listeners : list nat) :
  settled (readData E [] isAnalysis listeners
             [Chunk (frame "ls"); Chunk (frame " -la"); Chunk done_frame])
  = Some (u "ls -la")
  /\ settled (readData E [] isAnalysis listeners
                [Chunk (frame "ls" ++ frame " -la" ++ done_frame)])
     = Some (u "ls -la").
Proof.
  destruct isAnalysis; split; vm_compute; reflexivity.
Qed.

(** *** Elementary facts on the state *)

Lemma split_go_nonempty (sep : jsstring) (skip : nat) (cur s : jsstring) :
  split_go sep skip cur s <> [].
Proof.
  revert skip cur. induction s as [|c s IH]; intros skip cur.
  - cbn [split_go]. intros H. discriminate H.
  - cbn [split_go]. destruct skip as [|k]; [|apply IH].
    destruct (startsWith (c :: s) sep); [intros H; discriminate H|apply IH].
Qed.

(** A chunk always has a first payload. *)
Lemma split_delimiter_nonempty (chunk : jsstring) :
  split chunk (nl ++ nl) <> [].
Proof.
  apply split_go_nonempty.
Qed.

Lemma with_stopTextStream_same (st : state) :
  stopTextStream st = true -> with_stopTextStream true st = st.
Proof.
  destruct st; simpl; intros ->; reflexivity.
Qed.

Section Reads.

Variable E : Env.
Variable excluded : list pattern.
Variable isAnalysis : bool.

Local Abbreviation parseContent := (Completion.parseContent E).
Local Abbreviation finish := (Completion.finish E isAnalysis).
Local Abbreviation cleanup := (Completion.cleanup isAnalysis).
Local Abbreviation analysis_handler := (Completion.analysis_handler E).
Local Abbreviation emit := (Completion.emit excluded).
Local Abbreviation payload_step := (Completion.payload_step E excluded isAnalysis).
Local Abbreviation payloads_loop := (Completion.payloads_loop E excluded isAnalysis).
Local Abbreviation run_listener := (Completion.run_listener E).
Local Abbreviation step := (Completion.step E excluded isAnalysis).
Local Abbreviation run := (Completion.run E excluded isAnalysis).
Local Abbreviation readData := (Completion.readData E excluded isAnalysis).
Local Abbreviation fragments := (Completion.fragments E).
Local Abbreviation payload_fragment := (Completion.payload_fragment E).

Lemma fragment_writes_write (w : written_item) (st : state) :
  fragment_writes (write w st)
  = fragment_writes st
      ++ match w with Fragment s => [s] | Notice _ => [] end.
Proof.
  unfold fragment_writes, write. cbn [written with_written].
  rewrite flat_map_app. cbn [flat_map]. rewrite app_nil_r. reflexivity.
Qed.

Lemma resolve_settled (v : jsstring) (st : state) :
  settled (resolve v st)
  = match settled st with Some x => Some x | None => Some v end.
Proof.
  unfold resolve. destruct (settled st) eqn:Hs; [exact Hs|reflexivity].
Qed.

(** [resolve] touches the promise only. *)
Lemma resolve_fields (v : jsstring) (st : state) :
  let st' := resolve v st in
  data st' = data st /\ dataStart st' = dataStart st
  /\ buffer st' = buffer st /\ written st' = written st
  /\ loop st' = loop st /\ sigint_listeners st' = sigint_listeners st
  /\ stopTextStream st' = stopTextStream st
  /\ stoppedByUser st' = stoppedByUser st
  /\ invoked st' = invoked st
  /\ originalSigintHandler st' = originalSigintHandler st.
Proof.
  unfold resolve. destruct (settled st); repeat split; reflexivity.
Qed.

Lemma cleanup_fields (st : state) :
  let st' := cleanup st in
  data st' = data st /\ dataStart st' = dataStart st
  /\ buffer st' = buffer st /\ written st' = written st
  /\ loop st' = loop st /\ settled st' = settled st
  /\ stopTextStream st' = stopTextStream st
  /\ stoppedByUser st' = stoppedByUser st
  /\ invoked st' = invoked st
  /\ originalSigintHandler st' = originalSigintHandler st.
Proof.
  unfold Completion.cleanup. destruct isAnalysis; repeat split; reflexivity.
Qed.

(** What the branch of the completion marker and the stop flag leaves. *)
Lemma finish_fields (st : state) :
  let st' := finish st in
  loop st' = Returned
  /\ data st' = data st
  /\ dataStart st' = false
  /\ fragment_writes st' = fragment_writes st
  /\ settled st'
     = match settled st with Some x => Some x | None => Some (data st) end
  /\ sigint_listeners st' = sigint_listeners (cleanup st).
Proof.
  unfold Completion.finish.
  set (st1 := cleanup (with_dataStart false st)).
  destruct (cleanup_fields (with_dataStart false st))
    as (Hd & Hs & Hb & Hw & Hl & Hset & Hstop & Hu & Hi & Ho).
  fold st1 in Hd, Hs, Hb, Hw, Hl, Hset, Hstop, Hu, Hi, Ho.
  cbn in Hd, Hs, Hb, Hw, Hl, Hset, Hstop, Hu, Hi, Ho.
  assert (Hls : sigint_listeners st1 = sigint_listeners (cleanup st)).
  { unfold st1, Completion.cleanup. destruct isAnalysis; reflexivity. }
  assert (Hfw : fragment_writes st1 = fragment_writes st).
  { unfold fragment_writes. rewrite Hw. reflexivity. }
  destruct (stoppedByUser st1).
  - set (st2 := write _ st1).
    destruct (resolve_fields (data st2) st2)
      as (Hd2 & Hs2 & Hb2 & Hw2 & Hl2 & Hls2 & _).
    cbn [loop with_loop data dataStart settled sigint_listeners].
    repeat split.
    + rewrite Hd2. exact Hd.
    + rewrite Hs2. exact Hs.
    + unfold fragment_writes at 1. cbn [written with_loop]. rewrite Hw2.
      change (fragment_writes st2 = fragment_writes st).
      unfold st2. rewrite fragment_writes_write, app_nil_r. exact Hfw.
    + rewrite resolve_settled. cbn. rewrite Hset, Hd. reflexivity.
    + rewrite Hls2. exact Hls.
  - destruct (resolve_fields (data st1) st1)
      as (Hd2 & Hs2 & Hb2 & Hw2 & Hl2 & Hls2 & _).
    cbn [loop with_loop data dataStart settled sigint_listeners].
    repeat split.
    + rewrite Hd2. exact Hd.
    + rewrite Hs2. exact Hs.
    + unfold fragment_writes at 1. cbn [written with_loop]. rewrite Hw2.
      exact Hfw.
    + rewrite resolve_settled. rewrite Hset, Hd. reflexivity.
    + rewrite Hls2. exact Hls.
Qed.

(** *** Events that leave the decoded text alone *)

(** [quiet st st']: from [st] to [st'] the accumulated text, the start of
    the emission, the look-behind buffer and the fragments written are the
    same, a settled promise keeps its value, and the loop has at most
    stopped. *)
Definition quiet (st st' : state) : Prop :=
  data st' = data st
  /\ dataStart st' = dataStart st
  /\ buffer st' = buffer st
  /\ fragment_writes st' = fragment_writes st
  /\ (forall v, settled st = Some v -> settled st' = Some v)
  /\ (loop st' = loop st \/ loop st' <> Running).

Lemma quiet_refl (st : state) : quiet st st.
Proof.
  unfold quiet. repeat split; auto.
Qed.

Lemma quiet_trans (a b c : state) : quiet a b -> quiet b c -> quiet a c.
Proof.
  intros (Hd & Hs & Hb & Hw & Hp & Hl) (Hd' & Hs' & Hb' & Hw' & Hp' & Hl').
  unfold quiet. repeat split.
  - congruence.
  - congruence.
  - congruence.
  - congruence.
  - intros v Hv. apply Hp', Hp, Hv.
  - destruct Hl' as [Hl'|Hl']; [|right; exact Hl'].
    destruct Hl as [Hl|Hl]; [left|right]; congruence.
Qed.

Lemma resolve_quiet (v : jsstring) (st : state) : quiet st (resolve v st).
Proof.
  destruct (resolve_fields v st) as (Hd & Hs & Hb & Hw & Hl & _).
  unfold quiet. repeat split; auto.
  - unfold fragment_writes. rewrite Hw. reflexivity.
  - intros x Hx. rewrite resolve_settled, Hx. reflexivity.
Qed.

Lemma cleanup_quiet (st : state) : quiet st (cleanup st).
Proof.
  destruct (cleanup_fields st) as (Hd & Hs & Hb & Hw & Hl & Hset & _).
  unfold quiet. repeat split; auto.
  - unfold fragment_writes. rewrite Hw. reflexivity.
  - intros x Hx. rewrite Hset. exact Hx.
Qed.

Lemma analysis_handler_quiet (st : state) : quiet st (analysis_handler st).
Proof.
  unfold Completion.analysis_handler.
  eapply quiet_trans; [|apply resolve_quiet].
  unfold quiet. repeat split; auto.
  rewrite fragment_writes_write, app_nil_r. reflexivity.
Qed.

Lemma run_listener_quiet (st : state) (l : listener) :
  quiet st (run_listener st l).
Proof.
  destruct l; [|apply analysis_handler_quiet].
  unfold quiet. repeat split; auto.
Qed.

Lemma run_listeners_quiet (ls : list listener) (st : state) :
  quiet st (fold_left run_listener ls st).
Proof.
  revert st. induction ls as [|l ls IH]; intros st; simpl.
  - apply quiet_refl.
  - eapply quiet_trans; [apply run_listener_quiet|apply IH].
Qed.

Lemma step_not_running (st : state) (chunk : jsstring) :
  loop st <> Running -> step st (Chunk chunk) = st.
Proof.
  intros Hl. unfold Completion.step, on_chunk, is_running.
  destruct (loop st); [contradiction Hl|..]; reflexivity.
Qed.

(** Every event but a chunk is quiet. *)
Lemma step_quiet (st : state) (e : event) :
  (forall chunk, e <> Chunk chunk) -> quiet st (step st e).
Proof.
  intros Hnc. unfold Completion.step.
  destruct e as [chunk| | |name|].
  - contradiction (Hnc chunk). reflexivity.
  - destruct (is_running st); [|apply quiet_refl].
    eapply quiet_trans; [apply cleanup_quiet|].
    eapply quiet_trans; [apply resolve_quiet|].
    unfold quiet. repeat split; auto.
    right. discriminate.
  - destruct (is_running st); [|apply quiet_refl].
    unfold quiet. repeat split; auto.
    right. discriminate.
  - destruct (existsb (str_eqb name) stopTextStreamKeys);
      [|apply quiet_refl].
    unfold quiet. repeat split; auto.
  - destruct (sigint_listeners st) as [|l ls] eqn:Hls.
    + unfold quiet. repeat split; auto.
      right. discriminate.
    + rewrite <- Hls. apply run_listeners_quiet.
Qed.

(** Once the loop has stopped, no event changes what the read produced. *)
Lemma stopped_stays (st : state) (events : list event) :
  loop st <> Running ->
  let st' := run st events in
  loop st' <> Running /\ quiet st st'.
Proof.
  revert st. induction events as [|e events IH]; intros st Hl.
  - split; [exact Hl|apply quiet_refl].
  - assert (Hq : quiet st (step st e)).
    { destruct e as [chunk| | | |];
        try (apply step_quiet; intros c Hc; discriminate Hc).
      rewrite step_not_running by exact Hl. apply quiet_refl. }
    assert (Hl' : loop (step st e) <> Running).
    { destruct Hq as (_ & _ & _ & _ & _ & [Heq|Hne]); congruence. }
    destruct (IH (step st e) Hl') as [Hfin Hq'].
    split; [exact Hfin|].
    eapply quiet_trans; [exact Hq|exact Hq'].
Qed.

(** *** Stopping by a key *)

Lemma payload_step_stopped (payload : jsstring) (st : state) :
  stopTextStream st = true -> payload_step payload st = (finish st, false).
Proof.
  intros Hstop. unfold Completion.payload_step.
  rewrite Hstop, orb_true_r. reflexivity.
Qed.

(** With the stop flag set, the first payload of the next chunk ends the
    read. *)
Lemma payloads_loop_stopped (payloads : list jsstring) (st : state) :
  payloads <> [] -> stopTextStream st = true ->
  payloads_loop payloads st = finish st.
Proof.
  intros Hne Hstop. destruct payloads as [|p ps]; [contradiction Hne; reflexivity|].
  cbn [Completion.payloads_loop].
  rewrite payload_step_stopped by exact Hstop.
  destruct (finish_fields st) as (Hl & _).
  unfold is_running. rewrite Hl. reflexivity.
Qed.

Definition is_keypress (e : event) : Prop :=
  match e with
  | Keypress _ => True
  | _ => False
  end.

Lemma keypresses_keep_stop (events : list event) (st : state) :
  stopTextStream st = true ->
  Forall is_keypress events -> run st events = st.
Proof.
  intros Hstop Hkeys. revert st Hstop.
  induction Hkeys as [|e events He _ IH]; intros st Hstop.
  - reflexivity.
  - destruct e as [| | |name|]; try contradiction He.
    cbn [Completion.run fold_left]. unfold Completion.step at 2.
    destruct (existsb (str_eqb name) stopTextStreamKeys).
    + rewrite with_stopTextStream_same by exact Hstop.
      apply IH; assumption.
    + apply IH; assumption.
Qed.

Lemma run_app (st : state) (a b : list event) :
  run st (a ++ b) = run (run st a) b.
Proof.
  apply fold_left_app.
Qed.

(** C7.  The read is still under way after the events [pre]; a stop key
    ([q] or [escape]) is pressed; after more key presses, if any, the stream
    yields its next chunk or ends.  Then the promise is resolved, with
    exactly the text accumulated over [pre], and whatever follows adds
    neither text nor a decoded fragment. *)
Theorem keypress_stop_resolves_with_text_so_far
  (listeners : list nat) (pre mid post : list event)
  (key : jsstring) (next : event) :
  let st := readData listeners pre in
  loop st = Running ->
  settled st = None ->
  In key stopTextStreamKeys ->
  Forall is_keypress mid ->
  (exists chunk, next = Chunk chunk) \/ next = StreamEnd ->
  let final :=
    readData listeners (pre ++ Keypress key :: mid ++ next :: post) in
  settled final = Some (data st)
  /\ data final = data st
  /\ fragment_writes final = fragment_writes st.
Proof.
  intros st Hrun Hnone Hkey Hmid Hnext final.
  unfold final, Completion.readData.
  rewrite run_app. fold (readData listeners pre). fold st.
  cbn [Completion.run fold_left].
  change (fold_left step (mid ++ next :: post) (step st (Keypress key)))
    with (run (step st (Keypress key)) (mid ++ next :: post)).
  rewrite run_app.
  (* the key sets the flag *)
  assert (Hpress : step st (Keypress key) = with_stopTextStream true st).
  { unfold Completion.step.
    replace (existsb (str_eqb key) stopTextStreamKeys) with true;
      [reflexivity|].
    destruct Hkey as [<-|[<-|[]]]; reflexivity. }
  rewrite Hpress.
  set (st1 := with_stopTextStream true st).
  rewrite (@keypresses_keep_stop mid st1)
    by first [exact Hmid | reflexivity].
  cbn [Completion.run fold_left].
  (* the next chunk, or the end of the stream, settles the promise *)
  assert (Hset : loop (step st1 next) <> Running
                 /\ settled (step st1 next) = Some (data st)
                 /\ data (step st1 next) = data st
                 /\ fragment_writes (step st1 next) = fragment_writes st).
  { assert (Hrun1 : is_running st1 = true).
    { unfold is_running. cbn [loop st1 with_stopTextStream].
      rewrite Hrun. reflexivity. }
    destruct Hnext as [[chunk ->]| ->].
    - assert (Hstep : step st1 (Chunk chunk) = finish st1).
      { unfold Completion.step, on_chunk. rewrite Hrun1.
        apply payloads_loop_stopped;
          [apply split_delimiter_nonempty|reflexivity]. }
      rewrite Hstep.
      destruct (finish_fields st1) as (Hl & Hd & _ & Hw & Hs & _).
      rewrite Hl, Hd, Hw, Hs. cbn [settled st1 with_stopTextStream data].
      rewrite Hnone. repeat split. discriminate.
    - unfold Completion.step. rewrite Hrun1.
      cbn [loop with_loop settled data].
      destruct (cleanup_fields st1) as (Hd & _ & _ & Hw & _ & Hs & _).
      destruct (resolve_fields (data (cleanup st1)) (cleanup st1))
        as (Hd2 & _ & _ & Hw2 & _).
      repeat split.
      + discriminate.
      + rewrite resolve_settled, Hs, Hd.
        cbn [settled st1 with_stopTextStream data].
        rewrite Hnone. reflexivity.
      + rewrite Hd2, Hd. reflexivity.
      + unfold fragment_writes. cbn [written with_loop].
        rewrite Hw2, Hw. reflexivity. }
  destruct Hset as (Hl & Hs & Hd & Hw).
  destruct (@stopped_stays (step st1 next) post Hl)
    as (_ & Hd' & _ & _ & Hw' & Hs' & _).
  change (fold_left step post (step st1 next))
    with (run (step st1 next) post).
  repeat split.
  - apply Hs'. exact Hs.
  - rewrite Hd'. exact Hd.
  - rewrite Hw'. exact Hw.
Qed.

(** *** The invariant of a read *)

Lemma firstn_prefix_app (A : Type) (n : nat) (a b : list A) :
  exists n', firstn n a = firstn n' (a ++ b).
Proof.
  destruct (Nat.le_gt_cases n (length a)) as [Hle|Hgt].
  - exists n. rewrite firstn_app.
    replace (n - length a) with 0 by lia.
    rewrite firstn_O, app_nil_r. reflexivity.
  - exists (length a). rewrite firstn_all2 by lia.
    rewrite firstn_app, firstn_all, Nat.sub_diag, firstn_O, app_nil_r.
    reflexivity.
Qed.

(** The start-of-content detector has matched the look-behind buffer made
    of the first [k] fragments, for some [k]. *)
Definition started (F : list jsstring) : Prop :=
  exists k,
    Completion.match_prefix E excluded (concat (firstn k F)) = Some true.

(** [w] is a fragment of [F] after the exclusion patterns. *)
Definition stripped_from (F : list jsstring) (w : jsstring) : Prop :=
  exists f, In f F /\ w = stripRegexPatterns f excluded.

(** [F] are the fragments of the stream so far.  The accumulated text is
    the concatenation of the decoded fragments written; each of them is a
    fragment of the stream after the patterns; and either the detector has
    matched, or nothing was written and the buffer holds all of [F]. *)
Definition inv (F : list jsstring) (st : state) : Prop :=
  data st = concat (fragment_writes st)
  /\ Forall (stripped_from F) (fragment_writes st)
  /\ (started F
      \/ (fragment_writes st = [] /\ dataStart st = false
          /\ (loop st = Running -> buffer st = concat F))).

Lemma started_grow (F X : list jsstring) : started F -> started (F ++ X).
Proof.
  intros [k Hk]. destruct (firstn_prefix_app k F X) as [k' Hk'].
  exists k'. rewrite <- Hk'. exact Hk.
Qed.

Lemma stripped_from_grow (F X : list jsstring) (w : jsstring) :
  stripped_from F w -> stripped_from (F ++ X) w.
Proof.
  intros (f & Hin & Hw). exists f. split; [|exact Hw].
  apply in_or_app. left. exact Hin.
Qed.

Lemma stripped_from_grow_all (F X : list jsstring) (ws : list jsstring) :
  Forall (stripped_from F) ws -> Forall (stripped_from (F ++ X)) ws.
Proof.
  apply Forall_impl. intros w. apply stripped_from_grow.
Qed.

(** The invariant passes to a state where the loop has stopped, if the
    text and the fragments written are the same. *)
Lemma inv_stop (F X : list jsstring) (st st' : state) :
  inv F st ->
  data st' = data st ->
  fragment_writes st' = fragment_writes st ->
  (dataStart st = false -> dataStart st' = false) ->
  loop st' <> Running ->
  inv (F ++ X) st'.
Proof.
  intros (Hd & Hf & Hs) Hd' Hw' Hds Hl. unfold inv.
  rewrite Hd', Hw'. split; [exact Hd|split].
  - apply stripped_from_grow_all. exact Hf.
  - destruct Hs as [Hs|(Hnone & Hns & _)].
    + left. apply started_grow. exact Hs.
    + right. split; [exact Hnone|split].
      * apply Hds. exact Hns.
      * intros Hrun. contradiction (Hl Hrun).
Qed.

(** The invariant passes to more fragments once the detector has
    matched. *)
Lemma inv_started_grow (F X : list jsstring) (st : state) :
  inv F st -> started F -> inv (F ++ X) st.
Proof.
  intros (Hd & Hf & _) Hs. unfold inv. split; [exact Hd|split].
  - apply stripped_from_grow_all. exact Hf.
  - left. apply started_grow. exact Hs.
Qed.

Lemma emit_effect (c : jsstring) (st : state) :
  let out :=
    if dataStart st && truthy c then [stripRegexPatterns c excluded]
    else [] in
  data (emit c st) = data st ++ concat out
  /\ fragment_writes (emit c st) = fragment_writes st ++ out
  /\ loop (emit c st) = loop st
  /\ dataStart (emit c st) = dataStart st
  /\ buffer (emit c st) = buffer st.
Proof.
  unfold Completion.emit.
  destruct (dataStart st && truthy c).
  - rewrite fragment_writes_write. cbn. rewrite app_nil_r.
    repeat split; reflexivity.
  - cbn. rewrite !app_nil_r. repeat split; reflexivity.
Qed.

(** Emission of a fragment of [F], after the detector has matched. *)
Lemma emit_inv (F : list jsstring) (c : jsstring) (st : state) :
  data st = concat (fragment_writes st) ->
  Forall (stripped_from F) (fragment_writes st) ->
  started F -> In c F ->
  inv F (emit c st).
Proof.
  intros Hd Hf Hs Hin.
  destruct (emit_effect c st) as (Hd' & Hw' & _).
  unfold inv. rewrite Hd', Hw'. split; [|split].
  - rewrite concat_app, Hd. reflexivity.
  - apply Forall_app. split; [exact Hf|].
    destruct (dataStart st && truthy c); constructor; [|constructor].
    exists c. split; [exact Hin|reflexivity].
  - left. exact Hs.
Qed.

Lemma concat_snoc (F : list jsstring) (c : jsstring) :
  concat (F ++ [c]) = concat F ++ c.
Proof.
  rewrite concat_app. cbn. rewrite app_nil_r. reflexivity.
Qed.

(** One payload keeps the invariant, with the fragment of the payload
    added; and the loop is left by [break] only when the detector has
    matched. *)
Lemma payload_step_inv (F : list jsstring) (payload : jsstring) (st : state) :
  loop st = Running -> inv F st ->
  inv (F ++ payload_fragment payload) (fst (payload_step payload st))
  /\ (snd (payload_step payload st) = true ->
      started (F ++ payload_fragment payload)).
Proof.
  intros Hrun Hinv.
  assert (Hfinish : forall X, inv (F ++ X) (finish st)).
  { intros X. destruct (finish_fields st) as (Hl & Hd & Hs & Hw & _).
    apply (@inv_stop F X st); auto. rewrite Hl. discriminate. }
  unfold Completion.payload_step, Completion.payload_fragment.
  destruct (includes payload (u "[DONE]")); cbn [orb].
  { split; [apply Hfinish|intros H; discriminate H]. }
  destruct (stopTextStream st).
  { split; [apply Hfinish|intros H; discriminate H]. }
  destruct (startsWith payload (u "data:")).
  2:{ cbn [fst snd]. rewrite app_nil_r.
      split; [exact Hinv|intros H; discriminate H]. }
  destruct (parseContent payload) as [c|v].
  2:{ cbn [fst snd]. split; [|intros H; discriminate H].
      apply (@inv_stop F [] st); auto. cbn. discriminate. }
  assert (Hin : In c (F ++ [c])) by (apply in_or_app; right; left; reflexivity).
  pose proof Hinv as (Hd & Hf & Hs).
  pose proof (@stripped_from_grow_all F [c] _ Hf) as Hf'.
  destruct (dataStart st) eqn:Hds; cbn [negb].
  - (* the emission has started *)
    cbn [fst snd]. split; [|intros H; discriminate H].
    destruct Hs as [Hs|(_ & Hns & _)]; [|discriminate Hns].
    apply emit_inv; auto. apply started_grow. exact Hs.
  - (* the look-behind buffer *)
    cbn [buffer with_buffer].
    destruct (Completion.match_prefix E excluded (buffer st ++ c))
      as [[|]|] eqn:Hmatch.
    + (* the detector matches *)
      assert (Hs' : started (F ++ [c])).
      { destruct Hs as [Hs|(_ & _ & Hb)]; [apply started_grow; exact Hs|].
        exists (length (F ++ [c])).
        rewrite firstn_all, concat_snoc, <- (Hb Hrun). exact Hmatch. }
      destruct (pattern_truthy (Completion.excludedPrefix excluded)).
      * cbn [fst snd]. split; [|intros _; exact Hs'].
        unfold inv. split; [exact Hd|]. split; [exact Hf'|]. left. exact Hs'.
      * cbn [fst snd]. split; [|intros H; discriminate H].
        apply emit_inv; [exact Hd|exact Hf'|exact Hs'|exact Hin].
    + (* no match yet *)
      cbn [fst snd]. split; [|intros H; discriminate H].
      set (st1 := with_buffer (buffer st ++ c) st).
      destruct (emit_effect c st1) as (Hd1 & Hw1 & Hl1 & Hds1 & Hb1).
      cbn [dataStart st1 with_buffer] in Hd1, Hw1, Hds1.
      rewrite Hds in Hd1, Hw1, Hds1. cbn [andb concat] in Hd1, Hw1.
      rewrite app_nil_r in Hd1, Hw1.
      unfold inv. rewrite Hd1, Hw1. split; [exact Hd|split]; [exact Hf'|].
      destruct Hs as [Hs|(Hnone & _ & Hb)].
      * left. apply started_grow. exact Hs.
      * right. split; [exact Hnone|split]; [exact Hds1|].
        intros _. rewrite Hb1. cbn [buffer st1 with_buffer].
        rewrite concat_snoc, (Hb Hrun). reflexivity.
    + (* the pattern source is refused *)
      cbn [fst snd]. split; [|intros H; discriminate H].
      apply (@inv_stop F [c] st); auto.
      cbn. discriminate.
Qed.

Lemma payloads_loop_inv (payloads : list jsstring) (F : list jsstring)
  (st : state) :
  loop st = Running -> inv F st ->
  inv (F ++ flat_map payload_fragment payloads) (payloads_loop payloads st).
Proof.
  revert F st. induction payloads as [|p ps IH]; intros F st Hrun Hinv.
  - cbn. rewrite app_nil_r. exact Hinv.
  - cbn [Completion.payloads_loop flat_map]. rewrite app_assoc.
    destruct (@payload_step_inv F p st Hrun Hinv) as [Hinv' Hbroke].
    destruct (payload_step p st) as [st' broke]. cbn [fst snd] in *.
    destruct broke; cbn [orb].
    + apply inv_started_grow; [exact Hinv'|apply Hbroke; reflexivity].
    + unfold is_running. destruct (loop st') eqn:Hl'; cbn [negb];
        try (apply (@inv_stop _ _ st'); auto; rewrite Hl'; discriminate).
      apply IH; assumption.
Qed.

Lemma quiet_inv (F : list jsstring) (st st' : state) :
  quiet st st' -> inv F st -> inv F st'.
Proof.
  intros (Hd & Hs & Hb & Hw & _ & Hl) (Hid & Hif & His).
  unfold inv. rewrite Hd, Hw. split; [exact Hid|split]; [exact Hif|].
  destruct His as [His|(Hnone & Hns & Hbuf)]; [left; exact His|right].
  split; [exact Hnone|split]; [congruence|].
  intros Hrun. rewrite Hb. apply Hbuf.
  destruct Hl as [Hl|Hl]; congruence.
Qed.

Lemma on_chunk_inv (payloads : list jsstring) (F : list jsstring)
  (st : state) :
  inv F st ->
  inv (F ++ flat_map payload_fragment payloads) (on_chunk E excluded isAnalysis payloads st).
Proof.
  intros Hinv. unfold on_chunk, is_running.
  destruct (loop st) eqn:Hl;
    try (apply (@inv_stop _ _ st); auto; rewrite Hl; discriminate).
  apply payloads_loop_inv; assumption.
Qed.

Lemma run_inv (events : list event) (F : list jsstring) (st : state) :
  inv F st -> inv (F ++ fragments events) (run st events).
Proof.
  revert F st. induction events as [|e events IH]; intros F st Hinv.
  - cbn. rewrite app_nil_r. exact Hinv.
  - cbn [Completion.run fold_left Completion.fragments flat_map].
    rewrite app_assoc. apply IH.
    destruct e as [chunk| | |name|];
      try (rewrite app_nil_r; apply (@quiet_inv F st); [|exact Hinv];
           apply step_quiet; intros c Hc; discriminate Hc).
    apply on_chunk_inv. exact Hinv.
Qed.

Lemma start_inv (listeners : list nat) :
  inv [] (Completion.start isAnalysis listeners).
Proof.
  unfold inv. cbn. split; [reflexivity|split]; [constructor|].
  right. auto.
Qed.

(** The invariant holds after every schedule, and at every payload
    boundary of the chunk that follows it. *)
Lemma readData_inv (listeners : list nat) (events : list event)
  (payloads : list jsstring) :
  inv (fragments events ++ flat_map payload_fragment payloads)
    (on_chunk E excluded isAnalysis payloads (readData listeners events)).
Proof.
  apply on_chunk_inv.
  apply (@run_inv events [] (Completion.start isAnalysis listeners)).
  apply start_inv.
Qed.

End Reads.

Lemma in_fragment_writes (s : jsstring) (st : state) :
  In (Fragment s) (written st) -> In s (fragment_writes st).
Proof.
  intros Hin. unfold fragment_writes. apply in_flat_map.
  exists (Fragment s). split; [exact Hin|left; reflexivity].
Qed.

(** *** Reads without an exclusion pattern *)

Section PlainReads.

Variable E : Env.
Variable isAnalysis : bool.

Local Abbreviation payload_step := (Completion.payload_step E [] isAnalysis).
Local Abbreviation payloads_loop := (Completion.payloads_loop E [] isAnalysis).
Local Abbreviation finish := (Completion.finish E isAnalysis).
Local Abbreviation step := (Completion.step E [] isAnalysis).
Local Abbreviation run := (Completion.run E [] isAnalysis).
Local Abbreviation readData := (Completion.readData E [] isAnalysis).
Local Abbreviation fragments := (Completion.fragments E).
Local Abbreviation payload_fragment := (Completion.payload_fragment E).

(** The decoded fragments written are the non-empty fragments of the
    stream, in its order and from the first one on: all of them while the
    loop runs, and the ones met before it stopped afterwards. *)
Definition plain_inv (F : list jsstring) (st : state) : Prop :=
  (exists n, fragment_writes st = firstn n (filter truthy F))
  /\ (loop st = Running -> fragment_writes st = filter truthy F).

Lemma plain_inv_stop (F X : list jsstring) (st st' : state) :
  plain_inv F st ->
  fragment_writes st' = fragment_writes st ->
  loop st' <> Running ->
  plain_inv (F ++ X) st'.
Proof.
  intros ([n Hn] & _) Hw Hl. split; [|intros Hrun; contradiction (Hl Hrun)].
  rewrite Hw, Hn, filter_app.
  destruct (firstn_prefix_app n (filter truthy F) (filter truthy X))
    as [n' Hn'].
  exists n'. exact Hn'.
Qed.

Lemma plain_emit (F : list jsstring) (c : jsstring) (st : state) :
  dataStart st = true -> loop st = Running ->
  fragment_writes st = filter truthy F ->
  plain_inv (F ++ [c]) (Completion.emit [] c st).
Proof.
  intros Hds Hrun Hw.
  destruct (emit_effect [] c st) as (_ & Hw' & _).
  rewrite Hds in Hw'. cbn [andb stripRegexPatterns fold_left] in Hw'.
  assert (Heq : fragment_writes (Completion.emit [] c st)
                = filter truthy (F ++ [c])).
  { rewrite Hw', Hw, filter_app. cbn [filter].
    destruct (truthy c); reflexivity. }
  split; [|intros _; exact Heq].
  exists (length (filter truthy (F ++ [c]))).
  rewrite firstn_all. exact Heq.
Qed.

(** Without a pattern a payload never leaves the loop by [break]. *)
Lemma plain_payload_step (F : list jsstring) (payload : jsstring)
  (st : state) :
  loop st = Running -> plain_inv F st ->
  plain_inv (F ++ payload_fragment payload) (fst (payload_step payload st))
  /\ snd (payload_step payload st) = false.
Proof.
  intros Hrun Hinv.
  assert (Hfinish : forall X, plain_inv (F ++ X) (finish st)).
  { intros X. destruct (finish_fields E isAnalysis st)
      as (Hl & _ & _ & Hw & _).
    apply (@plain_inv_stop F X st); auto. rewrite Hl. discriminate. }
  unfold Completion.payload_step, Completion.payload_fragment.
  destruct (includes payload (u "[DONE]")); cbn [orb].
  { split; [apply Hfinish|reflexivity]. }
  destruct (stopTextStream st).
  { split; [apply Hfinish|reflexivity]. }
  destruct (startsWith payload (u "data:")).
  2:{ cbn [fst snd]. rewrite app_nil_r. split; [exact Hinv|reflexivity]. }
  destruct (Completion.parseContent E payload) as [c|v].
  2:{ cbn [fst snd]. split; [|reflexivity].
      apply (@plain_inv_stop F [] st); auto. cbn. discriminate. }
  destruct Hinv as (_ & Hall). specialize (Hall Hrun).
  destruct (dataStart st) eqn:Hds; cbn [negb].
  - cbn [fst snd]. split; [|reflexivity]. apply plain_emit; assumption.
  - cbn [Completion.match_prefix Completion.excludedPrefix pattern_truthy
         fst snd].
    split; [|reflexivity]. apply plain_emit; [reflexivity|exact Hrun|exact Hall].
Qed.

Lemma plain_payloads_loop (payloads : list jsstring) (F : list jsstring)
  (st : state) :
  loop st = Running -> plain_inv F st ->
  plain_inv (F ++ flat_map payload_fragment payloads)
    (payloads_loop payloads st).
Proof.
  revert F st. induction payloads as [|p ps IH]; intros F st Hrun Hinv.
  - cbn. rewrite app_nil_r. exact Hinv.
  - cbn [Completion.payloads_loop flat_map]. rewrite app_assoc.
    destruct (@plain_payload_step F p st Hrun Hinv) as [Hinv' Hbroke].
    destruct (payload_step p st) as [st' broke]. cbn [fst snd] in *.
    subst broke. cbn [orb].
    unfold is_running. destruct (loop st') eqn:Hl'; cbn [negb];
      try (apply (@plain_inv_stop _ _ st'); auto; rewrite Hl'; discriminate).
    apply IH; assumption.
Qed.

Lemma plain_on_chunk (payloads : list jsstring) (F : list jsstring)
  (st : state) :
  plain_inv F st ->
  plain_inv (F ++ flat_map payload_fragment payloads)
    (on_chunk E [] isAnalysis payloads st).
Proof.
  intros Hinv. unfold on_chunk, is_running.
  destruct (loop st) eqn:Hl;
    try (apply (@plain_inv_stop _ _ st); auto; rewrite Hl; discriminate).
  apply plain_payloads_loop; assumption.
Qed.

Lemma plain_quiet (F : list jsstring) (st st' : state) :
  quiet st st' -> plain_inv F st -> plain_inv F st'.
Proof.
  intros (_ & _ & _ & Hw & _ & Hl) (Hn & Hall).
  unfold plain_inv. rewrite Hw. split; [exact Hn|].
  intros Hrun. apply Hall. destruct Hl as [Hl|Hl]; congruence.
Qed.

Lemma plain_run (events : list event) (F : list jsstring) (st : state) :
  plain_inv F st -> plain_inv (F ++ fragments events) (run st events).
Proof.
  revert F st. induction events as [|e events IH]; intros F st Hinv.
  - cbn. rewrite app_nil_r. exact Hinv.
  - cbn [Completion.run fold_left Completion.fragments flat_map].
    rewrite app_assoc. apply IH.
    destruct e as [chunk| | |name|];
      try (rewrite app_nil_r; apply (@plain_quiet F st); [|exact Hinv];
           apply step_quiet; intros c Hc; discriminate Hc).
    apply plain_on_chunk. exact Hinv.
Qed.

Lemma plain_readData (listeners : list nat) (events : list event)
  (payloads : list jsstring) :
  plain_inv (fragments events ++ flat_map payload_fragment payloads)
    (on_chunk E [] isAnalysis payloads (readData listeners events)).
Proof.
  apply plain_on_chunk.
  apply (@plain_run events [] (Completion.start isAnalysis listeners)).
  split; [exists 0|intros _]; reflexivity.
Qed.

End PlainReads.

(** *** Reads outside the analysis mode *)

Section DefaultReads.

Variable E : Env.
Variable excluded : list pattern.

Definition is_fragment (w : written_item) : Prop :=
  match w with
  | Fragment _ => True
  | Notice _ => False
  end.

Definition is_prior (l : listener) : Prop :=
  match l with
  | Prior _ => True
  | AnalysisHandler => False
  end.

(** Outside the analysis mode the handler of the read is never registered,
    so the read never counts as stopped by the user and the writer
    receives decoded fragments only. *)
Definition no_notice (st : state) : Prop :=
  stoppedByUser st = false
  /\ Forall is_prior (sigint_listeners st)
  /\ Forall is_fragment (written st).

Lemma finish_no_notice (st : state) :
  no_notice st -> no_notice (Completion.finish E false st).
Proof.
  intros (Hu & Hp & Hw). unfold Completion.finish, Completion.cleanup.
  cbn [stoppedByUser with_dataStart]. rewrite Hu.
  unfold resolve. cbn [settled with_dataStart].
  destruct (settled st); repeat split; assumption.
Qed.

Lemma emit_no_notice (c : jsstring) (st : state) :
  no_notice st -> no_notice (Completion.emit excluded c st).
Proof.
  intros (Hu & Hp & Hw). unfold Completion.emit.
  destruct (dataStart st && truthy c); [|repeat split; assumption].
  repeat split; [exact Hu|exact Hp|].
  cbn. apply Forall_app. split; [exact Hw|].
  constructor; [exact I|constructor].
Qed.

Lemma payload_step_no_notice (payload : jsstring) (st : state) :
  no_notice st ->
  no_notice (fst (Completion.payload_step E excluded false payload st)).
Proof.
  intros Hinv. unfold Completion.payload_step.
  destruct (includes payload (u "[DONE]") || stopTextStream st).
  { apply finish_no_notice. exact Hinv. }
  destruct (startsWith payload (u "data:")); [|exact Hinv].
  destruct (Completion.parseContent E payload) as [c|v]; [|exact Hinv].
  destruct (negb (dataStart st)); [|apply emit_no_notice; exact Hinv].
  cbn [buffer with_buffer].
  destruct (Completion.match_prefix E excluded (buffer st ++ c))
    as [[|]|]; [|apply emit_no_notice; exact Hinv|exact Hinv].
  destruct (pattern_truthy (Completion.excludedPrefix excluded));
    [exact Hinv|apply emit_no_notice; exact Hinv].
Qed.

Lemma payloads_loop_no_notice (payloads : list jsstring) (st : state) :
  no_notice st ->
  no_notice (Completion.payloads_loop E excluded false payloads st).
Proof.
  revert st. induction payloads as [|p ps IH]; intros st Hinv.
  - exact Hinv.
  - cbn [Completion.payloads_loop].
    pose proof (@payload_step_no_notice p st Hinv) as Hinv'.
    destruct (Completion.payload_step E excluded false p st)
      as [st' broke].
    cbn [fst] in Hinv'.
    destruct (broke || negb (is_running st')); [exact Hinv'|].
    apply IH. exact Hinv'.
Qed.

Lemma on_chunk_no_notice (payloads : list jsstring) (st : state) :
  no_notice st -> no_notice (on_chunk E excluded false payloads st).
Proof.
  intros Hinv. unfold on_chunk.
  destruct (is_running st); [|exact Hinv].
  apply payloads_loop_no_notice. exact Hinv.
Qed.

Lemma prior_listeners_no_notice (ls : list listener) (st : state) :
  Forall is_prior ls -> no_notice st ->
  no_notice (fold_left (Completion.run_listener E) ls st).
Proof.
  intros Hls. revert st. induction Hls as [|l ls Hl _ IH]; intros st Hinv.
  - exact Hinv.
  - cbn [fold_left]. apply IH.
    destruct l as [id|]; [|contradiction Hl]. exact Hinv.
Qed.

Lemma step_no_notice (st : state) (e : event) :
  no_notice st -> no_notice (Completion.step E excluded false st e).
Proof.
  intros Hinv. destruct e as [chunk| | |name|]; cbn [Completion.step].
  - apply on_chunk_no_notice. exact Hinv.
  - destruct (is_running st); [|exact Hinv].
    unfold Completion.cleanup, resolve.
    destruct Hinv as (Hu & Hp & Hw).
    destruct (settled st); repeat split; assumption.
  - destruct (is_running st); exact Hinv.
  - destruct (existsb (str_eqb name) stopTextStreamKeys); exact Hinv.
  - destruct (sigint_listeners st) as [|l ls] eqn:Hls; [exact Hinv|].
    rewrite <- Hls. apply prior_listeners_no_notice; [|exact Hinv].
    destruct Hinv as (_ & Hp & _). exact Hp.
Qed.

Lemma readData_no_notice (listeners : list nat) (events : list event)
  (payloads : list jsstring) :
  no_notice (on_chunk E excluded false payloads
               (Completion.readData E excluded false listeners events)).
Proof.
  apply on_chunk_no_notice. unfold Completion.readData, Completion.run.
  assert (Hstart : no_notice (Completion.start false listeners)).
  { repeat split; cbn; [|constructor].
    apply Forall_forall. intros l Hl. apply in_map_iff in Hl.
    destruct Hl as (id & <- & _). exact I. }
  revert Hstart. generalize (Completion.start false listeners).
  induction events as [|e events IH]; intros st Hinv.
  - exact Hinv.
  - cbn [fold_left]. apply IH. apply step_no_notice. exact Hinv.
Qed.

End DefaultReads.

(** *** Start of the emission *)

(** C4.  [F] are the content fragments of the stream up to a payload
    boundary: those of the chunks of [events] and of the payloads of the
    chunk under way.  A decoded fragment has reached the writer only if the
    first exclusion pattern has matched the look-behind buffer made of some
    first fragments of [F].  Outside the analysis mode this holds of every
    text the writer has received.  With no exclusion pattern the writer
    receives the non-empty fragments in the order of the stream, beginning
    with the first of them: all of [F] while the loop runs, and those met
    before the loop stopped otherwise. *)
Theorem emission_waits_for_start_of_content (E : Env)
  (excluded : list pattern) (isAnalysis : bool) (listeners : list nat)
  (events : list event) (payloads : list jsstring) :
  let F := fragments E events ++ flat_map (payload_fragment E) payloads in
  (forall s,
      In (Fragment s)
        (written (on_chunk E excluded isAnalysis payloads
                    (readData E excluded isAnalysis listeners events))) ->
      exists k, match_prefix E excluded (concat (firstn k F)) = Some true)
  /\ (forall w,
         In w (written (on_chunk E excluded false payloads
                          (readData E excluded false listeners events))) ->
         exists k, match_prefix E excluded (concat (firstn k F)) = Some true)
  /\ (let st := on_chunk E [] isAnalysis payloads
                  (readData E [] isAnalysis listeners events) in
      (exists n, fragment_writes st = firstn n (filter truthy F))
      /\ (loop st = Running -> fragment_writes st = filter truthy F)).
Proof.
  intros F.
  assert (Hfrag : forall mode s,
             In (Fragment s)
               (written (on_chunk E excluded mode payloads
                           (readData E excluded mode listeners events))) ->
             exists k,
               match_prefix E excluded (concat (firstn k F)) = Some true).
  { intros mode s Hin. apply in_fragment_writes in Hin.
    destruct (readData_inv E excluded mode listeners events payloads)
      as (_ & _ & [Hs|(Hnone & _)]); [exact Hs|].
    rewrite Hnone in Hin. contradiction Hin. }
  split; [apply Hfrag|split].
  - intros w Hin.
    destruct (readData_no_notice E excluded listeners events payloads)
      as (_ & _ & Hw).
    rewrite Forall_forall in Hw. specialize (Hw w Hin).
    destruct w as [s|s]; [contradiction Hw|].
    apply (Hfrag false s). exact Hin.
  - apply plain_readData.
Qed.

(** *** Exclusion patterns *)

Lemma removeAllLiteral_unit (c : N) (s : jsstring) :
  ~ In c (removeAllLiteral [c] s).
Proof.
  unfold removeAllLiteral. induction s as [|x s IH].
  - intros [].
  - cbn [remove_literal_go startsWith length Nat.sub].
    destruct (N.eqb_spec c x) as [Heq|Hne]; cbn [andb].
    + destruct s; exact IH.
    + replace (match s with [] => false | _ :: _ => false end) with false
        by (destruct s; reflexivity).
      intros [Hx|Hin]; [apply Hne; symmetry; exact Hx|exact (IH Hin)].
Qed.

Lemma stripRegexPatterns_last (f : jsstring) (init : list pattern)
  (p : pattern) :
  stripRegexPatterns f (init ++ [p])
  = strip_one (stripRegexPatterns f init) p.
Proof.
  unfold stripRegexPatterns. rewrite fold_left_app. reflexivity.
Qed.

(** C3, as the code has it.  The exclusion patterns are removed from each
    fragment on its own: the accumulated text is the concatenation of the
    decoded fragments handed to the writer, and each of these is a content
    fragment of the stream after [stripRegexPatterns].  A literal pattern of
    one code unit in the last place of the list, as the newline of
    [shellCodeExclusions], therefore never occurs in the accumulated
    text. *)
Theorem accumulated_text_is_stripped_fragments (E : Env)
  (excluded : list pattern) (isAnalysis : bool) (listeners : list nat)
  (events : list event) (payloads : list jsstring) :
  let st := on_chunk E excluded isAnalysis payloads
              (readData E excluded isAnalysis listeners events) in
  let F := fragments E events ++ flat_map (payload_fragment E) payloads in
  data st = concat (fragment_writes st)
  /\ Forall (fun w => exists f, In f F /\ w = stripRegexPatterns f excluded)
       (fragment_writes st)
  /\ (forall c init,
         excluded = init ++ [PString [c]] -> ~ In c (data st)).
Proof.
  intros st F.
  destruct (readData_inv E excluded isAnalysis listeners events payloads)
    as (Hd & Hf & _).
  fold st in Hd, Hf. fold F in Hf.
  split; [exact Hd|split]; [exact Hf|].
  intros c init Hex Hin. rewrite Hd in Hin.
  apply in_concat in Hin. destruct Hin as (w & Hw & Hc).
  rewrite Forall_forall in Hf. destruct (Hf w Hw) as (f & _ & ->).
  rewrite Hex, stripRegexPatterns_last in Hc.
  exact (removeAllLiteral_unit _ _ Hc).
Qed.

(** C3, as the claim has it, fails: the closing fence of a reply arrives
    in two fragments, two backticks and one; neither holds a match of a
    pattern, and the text the read resolves with ends in the fence, which
    the second pattern of [shellCodeExclusions] matches. *)
Lemma fence_split_over_two_fragments_remains :
  let st :=
    readData plain_env shellCodeExclusions false []
      [Chunk (frame "```bash\n"); Chunk (frame "ls -la");
       Chunk (frame "``"); Chunk (frame "`"); Chunk done_frame] in
  settled st = Some (u "ls -la```")
  /\ fragment_writes st = [u "ls -la"; u "``"; u "`"]
  /\ Regex.test fence_open (u "ls -la```") = true.
Proof.
  vm_compute. repeat split; reflexivity.
Qed.

(** *** Parse failures *)

(** C2, as the code has it.  A payload with the event-data marker whose
    remainder [JSON.parse] refuses has the diagnostic text as its content;
    once the emission has started, the diagnostic goes through the
    exclusion patterns, is appended to the accumulated text and is handed
    to the writer, and the loop goes on to the next payload. *)
Theorem parse_failure_is_emitted_as_content (E : Env)
  (excluded : list pattern) (isAnalysis : bool)
  (payload : jsstring) (st : state) :
  startsWith payload (u "data:") = true ->
  includes payload (u "[DONE]") = false ->
  JSON_parse (trim (removeAll data_marker payload)) = None ->
  stopTextStream st = false ->
  dataStart st = true ->
  let diagnostic :=
    u "Error with JSON.parse and " ++ payload ++ u "." ++ nl
      ++ syntax_error_text E (trim (removeAll data_marker payload)) in
  let st' := fst (payload_step E excluded isAnalysis payload st) in
  parseContent E payload = Text diagnostic
  /\ data st' = data st ++ stripRegexPatterns diagnostic excluded
  /\ written st'
     = written st ++ [Fragment (stripRegexPatterns diagnostic excluded)]
  /\ loop st' = loop st
  /\ snd (payload_step E excluded isAnalysis payload st) = false.
Proof.
  intros Hdata Hdone Hparse Hstop Hds diagnostic st'.
  assert (Hcontent : parseContent E payload = Text diagnostic).
  { unfold parseContent. rewrite Hparse. reflexivity. }
  split; [exact Hcontent|].
  unfold st', payload_step.
  rewrite Hdone, Hstop, Hdata, Hcontent, Hds.
  cbn [orb negb fst snd]. unfold emit. rewrite Hds.
  cbn. repeat split; reflexivity.
Qed.

Lemma parse_failure_is_emitted_as_content_witness :
  let st := readData plain_env [] false [] [Chunk (frame "ls")] in
  written (fst (payload_step plain_env [] false (u "data: oops") st))
  = [Fragment (u "ls");
     Fragment (u "Error with JSON.parse and data: oops." ++ nl
                 ++ u "SyntaxError: Unexpected token in JSON")].
Proof.
  cbv zeta.
  destruct (@parse_failure_is_emitted_as_content plain_env [] false
              (u "data: oops")
              (readData plain_env [] false [] [Chunk (frame "ls")]))
    as (_ & _ & Hw & _).
  - reflexivity.
  - reflexivity.
  - reflexivity.
  - reflexivity.
  - reflexivity.
  - rewrite Hw. reflexivity.
Defined.

(** C2, as the claim has it, fails: with no exclusion pattern, the payload
    [data: oops] does not parse, and the diagnostic is what the writer
    receives and what the read accumulates. *)
Lemma parse_failure_reaches_the_writer :
  let st :=
    readData plain_env [] false [] [Chunk (u "data: oops" ++ nl ++ nl)] in
  JSON_parse (u "oops") = None
  /\ written st
     = [Fragment (u "Error with JSON.parse and data: oops." ++ nl
                    ++ u "SyntaxError: Unexpected token in JSON")]
  /\ data st
     = u "Error with JSON.parse and data: oops." ++ nl
         ++ u "SyntaxError: Unexpected token in JSON".
Proof.
  vm_compute. repeat split; reflexivity.
Qed.

(** *** Stopping by a key: an instance *)

Lemma keypress_stop_resolves_with_text_so_far_witness :
  settled (readData plain_env [] false []
             ([Chunk (frame "ls")]
                ++ Keypress (u "q")
                :: [] ++ Chunk (frame " -la") :: [Chunk done_frame]))
  = Some (u "ls").
Proof.
  destruct (@keypress_stop_resolves_with_text_so_far plain_env [] false []
              [Chunk (frame "ls")] [] [Chunk done_frame] (u "q")
              (Chunk (frame " -la")))
    as (Hs & _).
  - reflexivity.
  - reflexivity.
  - left. reflexivity.
  - constructor.
  - left. exists (frame " -la"). reflexivity.
  - rewrite Hs. reflexivity.
Defined.

(** *** The interrupt of the analysis mode *)

(** On the path of the interrupt the promise settles and the handler of the
    read stays registered, whatever the read had accumulated. *)
Lemma interrupt_keeps_analysis_handler (E : Env) (excluded : list pattern)
  (st : state) :
  settled st = None ->
  sigint_listeners st = [AnalysisHandler] ->
  let st' := step E excluded true st Sigint in
  settled st' = Some (data st)
  /\ sigint_listeners st' = [AnalysisHandler]
  /\ loop st' = loop st.
Proof.
  intros Hnone Hls. cbn [step]. rewrite Hls.
  cbn [fold_left run_listener]. unfold analysis_handler, resolve.
  cbn. rewrite Hnone. cbn. rewrite Hls. repeat split; reflexivity.
Qed.

(** C1.  A read in analysis mode, with the listener 7 registered before it,
    receives one frame and then SIGINT.  The promise is settled with the
    text so far, and the listener of the process is still the handler of
    the read: a second SIGINT runs that handler again, which writes its
    notice once more, and does not run the listener 7.  On the path of the
    completion marker the listener 7 is back and is the one a later SIGINT
    runs.  When the stream fails, nothing settles and nothing is
    restored. *)
Theorem interrupt_settles_before_handler_is_restored (E : Env) :
  let interrupted :=
    readData E [] true [7] [Chunk (frame "ls"); Sigint] in
  let completed :=
    readData E [] true [7] [Chunk (frame "ls"); Chunk done_frame] in
  let failed :=
    readData E [] true [7] [Chunk (frame "ls"); StreamError] in
  (settled interrupted = Some (u "ls")
   /\ sigint_listeners interrupted = [AnalysisHandler]
   /\ invoked (step E [] true interrupted Sigint) = []
   /\ written (step E [] true interrupted Sigint)
      = written interrupted
          ++ [Notice (nl ++ nl ++ yellow E (i18n_t E (u "Analysis stopped"))
                        ++ nl)])
  /\ (settled completed = Some (u "ls")
      /\ sigint_listeners completed = [Prior 7]
      /\ invoked (step E [] true completed Sigint) = [Prior 7])
  /\ (settled failed = None
      /\ sigint_listeners failed = [AnalysisHandler]).
Proof.
  vm_compute. repeat split; reflexivity.
Qed.

End DecoderFacts.

(* ================================================================== *)
(** * Further properties *)
(* ================================================================== *)

(** ** The command history buffer, further *)

Module HistoryMore.

Import History Samples.

(** The results recorded since the last reset, oldest first. *)
Definition since_reset (ops : list op) : list CommandResult :=
  fold_left (fun acc o => match o with
                          | Record_ r => acc ++ [r]
                          | Clear => []
                          end) ops [].

Lemma apply_ops_since (ops : list op) (h acc : list CommandResult) :
  h = firstn MAX_HISTORY_SIZE (rev acc) ->
  fold_left apply_op ops h
  = firstn MAX_HISTORY_SIZE
      (rev (fold_left (fun acc o => match o with
                                    | Record_ r => acc ++ [r]
                                    | Clear => []
                                    end) ops acc)).
Proof.
  revert h acc. induction ops as [|o ops IH]; intros h acc Hh.
  - exact Hh.
  - cbn [fold_left]. apply IH. destruct o as [r|]; cbn [apply_op].
    + rewrite HistoryFacts.addToCommandHistory_firstn
        by (rewrite Hh, length_firstn; lia).
      rewrite Hh, rev_app_distr. cbn [rev app].
      apply (HistoryFacts.firstn_app_firstn MAX_HISTORY_SIZE [r] (rev acc)).
    + reflexivity.
Qed.

(** X1.  Whatever results are recorded and whenever the buffer is reset, the
    buffer holds the results recorded since the last reset, the most
    recent first, cut to the [MAX_HISTORY_SIZE] most recent ones: nothing
    is lost below the capacity, and nothing older than a reset
    survives. *)
Theorem history_is_last_results_since_reset (ops : list op) :
  fold_left apply_op ops []
  = firstn MAX_HISTORY_SIZE (rev (since_reset ops)).
Proof.
  apply apply_ops_since. reflexivity.
Qed.

(** *** Lines *)

Lemma split_nl_step (cur s : jsstring) (c : N) :
  split_go nl 0 cur (c :: s)
  = if (10 =? c)%N then rev cur :: split_go nl 0 [] s
    else split_go nl 0 (c :: cur) s.
Proof.
  cbn [split_go startsWith nl length Nat.sub].
  destruct (10 =? c)%N; cbn [andb]; [|reflexivity].
  destruct s; reflexivity.
Qed.

(** Joining the lines of a text gives the text back. *)
Lemma join_split_go (cur s : jsstring) :
  join nl (split_go nl 0 cur s) = rev cur ++ s.
Proof.
  revert cur. induction s as [|c s IH]; intros cur.
  - cbn. rewrite app_nil_r. reflexivity.
  - rewrite split_nl_step. destruct (N.eqb_spec 10 c) as [<-|Hc].
    + pose proof (@DecoderFacts.split_go_nonempty nl 0 [] s) as Hne.
      specialize (IH []).
      destruct (split_go nl 0 [] s) as [|p ps];
        [contradiction Hne; reflexivity|].
      cbn [join]. cbn [join] in IH. rewrite IH. reflexivity.
    + rewrite IH. cbn [rev]. rewrite <- app_assoc. reflexivity.
Qed.

Lemma join_split (s : jsstring) : join nl (split s nl) = s.
Proof.
  apply (join_split_go [] s).
Qed.

Lemma split_go_lines (cur s : jsstring) :
  ~ In 10%N cur ->
  Forall (fun line => ~ In 10%N line) (split_go nl 0 cur s).
Proof.
  revert cur. induction s as [|c s IH]; intros cur Hcur.
  - cbn. constructor; [|constructor]. rewrite <- in_rev. exact Hcur.
  - rewrite split_nl_step. destruct (N.eqb_spec 10 c) as [<-|Hc].
    + constructor; [rewrite <- in_rev; exact Hcur|].
      apply IH. intros [].
    + apply IH. intros [H|H]; [apply Hc; symmetry; exact H|exact (Hcur H)].
Qed.

(** No line of a text holds a newline. *)
Lemma split_lines (s : jsstring) :
  Forall (fun line => ~ In 10%N line) (split s nl).
Proof.
  apply split_go_lines. intros [].
Qed.

Lemma split_go_line (cur line : jsstring) :
  ~ In 10%N line -> split_go nl 0 cur line = [rev cur ++ line].
Proof.
  revert cur. induction line as [|c line IH]; intros cur Hline.
  - cbn. rewrite app_nil_r. reflexivity.
  - rewrite split_nl_step. destruct (N.eqb_spec 10 c) as [<-|Hc].
    + contradiction Hline. left. reflexivity.
    + rewrite IH by (intros H; apply Hline; right; exact H).
      cbn [rev]. rewrite <- app_assoc. reflexivity.
Qed.

Lemma split_go_join (cur line : jsstring) (rest : list jsstring) :
  ~ In 10%N line ->
  split_go nl 0 cur (line ++ nl ++ join nl rest)
  = (rev cur ++ line) :: split_go nl 0 [] (join nl rest).
Proof.
  revert cur. induction line as [|c line IH]; intros cur Hline.
  - cbn [app]. change (nl ++ join nl rest) with (10%N :: join nl rest).
    rewrite split_nl_step. cbn. rewrite app_nil_r. reflexivity.
  - cbn [app]. rewrite split_nl_step. destruct (N.eqb_spec 10 c) as [<-|Hc].
    + contradiction Hline. left. reflexivity.
    + rewrite IH by (intros H; apply Hline; right; exact H).
      cbn [rev]. rewrite <- app_assoc. reflexivity.
Qed.

(** The lines of joined lines are those lines. *)
Lemma split_join (lines : list jsstring) :
  lines <> [] ->
  Forall (fun line => ~ In 10%N line) lines ->
  split (join nl lines) nl = lines.
Proof.
  intros Hne Hall. unfold split. cbn [nl].
  change [10%N] with nl.
  induction Hall as [|line rest Hline Hrest IH];
    [contradiction Hne; reflexivity|].
  destruct rest as [|line' rest].
  - cbn [join]. apply split_go_line. exact Hline.
  - change (join nl (line :: line' :: rest))
      with (line ++ nl ++ join nl (line' :: rest)).
    rewrite split_go_join by exact Hline.
    cbn [rev app]. f_equal. apply IH. discriminate.
Qed.

Lemma digits_no_newline (d : Decimal.uint) :
  ~ In 10%N (u (NilEmpty.string_of_uint d)).
Proof.
  induction d; cbn; intros H;
    repeat (destruct H as [H|H]; [discriminate H|]); auto.
Qed.

Lemma string_of_nat_no_newline (n : nat) : ~ In 10%N (string_of_nat n).
Proof.
  unfold string_of_nat, NilZero.string_of_uint.
  destruct (Nat.to_uint n) eqn:Hd;
    try (rewrite <- Hd; apply digits_no_newline).
  cbn. intros [H|[]]. discriminate H.
Qed.

Lemma elision_no_newline (count : nat) : ~ In 10%N (elision count).
Proof.
  unfold elision. intros H.
  apply in_app_or in H. destruct H as [H|H].
  - cbn in H. repeat (destruct H as [H|H]; [discriminate H|]). exact H.
  - apply in_app_or in H. destruct H as [H|H].
    + exact (string_of_nat_no_newline _ H).
    + cbn in H. repeat (destruct H as [H|H]; [discriminate H|]). exact H.
Qed.

(** *** The trimmed output *)

Lemma Forall_firstn_lines (A : Type) (P : A -> Prop) (n : nat) (l : list A) :
  Forall P l -> Forall P (firstn n l).
Proof.
  intros H. revert n. induction H as [|x l Hx _ IH]; intros [|n]; cbn;
    constructor; auto.
Qed.

Lemma Forall_skipn_lines (A : Type) (P : A -> Prop) (n : nat) (l : list A) :
  Forall P l -> Forall P (skipn n l).
Proof.
  intros H. revert n. induction H as [|x l Hx Hl IH]; intros [|n]; cbn;
    try constructor; auto.
Qed.

(** X2.  An output within the budget is returned as it is.  A longer one, for a
    budget of two lines or more, is made of the first [maxLines / 2] lines
    of the original, the elision line, and the last [maxLines / 2] lines of
    the original: [2 * (maxLines / 2) + 1] lines, which is the budget when
    the budget is odd (the 15 of the formatter) and one line more when it
    is even. *)
Theorem trimOutput_lines (output : jsstring) (maxLines : nat) :
  2 <= maxLines ->
  let lines := split output nl in
  let half := maxLines / 2 in
  (length lines <= maxLines -> trimOutput output maxLines = output)
  /\ (maxLines < length lines ->
      split (trimOutput output maxLines) nl
      = firstn half lines ++ [elision (length lines - maxLines)]
          ++ skipn (length lines - half) lines
      /\ length (split (trimOutput output maxLines) nl) = 2 * half + 1).
Proof.
  intros Hbudget lines half.
  assert (Hhalf : 1 <= half).
  { unfold half. apply Nat.div_le_lower_bound; lia. }
  assert (Hhalf' : 2 * half <= maxLines).
  { unfold half. apply Nat.Div0.mul_div_le. }
  split.
  - intros Hshort. unfold trimOutput. fold lines.
    apply Nat.leb_le in Hshort. rewrite Hshort. reflexivity.
  - intros Hlong.
    assert (Htrim : trimOutput output maxLines
                    = join nl (firstn half lines
                                 ++ [elision (length lines - maxLines)]
                                 ++ skipn (length lines - half) lines)).
    { unfold trimOutput. fold lines. fold half.
      destruct (length lines <=? maxLines) eqn:Hle.
      - apply Nat.leb_le in Hle. lia.
      - unfold slice_last. destruct half; [lia|reflexivity]. }
    assert (Hsplit : split (trimOutput output maxLines) nl
                     = firstn half lines
                         ++ [elision (length lines - maxLines)]
                         ++ skipn (length lines - half) lines).
    { rewrite Htrim. apply split_join.
      - intros H. apply app_eq_nil in H. destruct H as [_ H].
        discriminate H.
      - pose proof (split_lines output) as Hall. fold lines in Hall.
        apply Forall_app. split; [apply Forall_firstn_lines; exact Hall|].
        constructor; [apply elision_no_newline|].
        apply Forall_skipn_lines. exact Hall. }
    split; [exact Hsplit|].
    rewrite Hsplit, !length_app, length_firstn, length_skipn.
    cbn [length]. lia.
Qed.

Lemma trimOutput_lines_witness :
  length (split (trimOutput (numbered_lines 40) 15) nl) = 15.
Proof.
  destruct (@trimOutput_lines (numbered_lines 40) 15) as [_ Hlong];
    [lia|].
  destruct Hlong as [_ Hcount]; [vm_compute; lia|].
  exact Hcount.
Defined.

(** *** The formatted history *)

(** The head of the block of one entry: its number, the time, the status
    mark, the command and the exit code. *)
Definition entry_header (E : Env) (number : nat) (r : CommandResult)
  : jsstring :=
  u "## Command " ++ string_of_nat number ++ u " ["
    ++ toLocaleTimeString E (timestamp r) ++ u "] "
    ++ (if (exitCode r =? 0)%Z then [10003%N] else [10007%N]) ++ nl
    ++ fence_text ++ u "bash" ++ nl ++ u "$ " ++ command r ++ nl
    ++ fence_text ++ nl
    ++ u "Exit code: " ++ string_of_Z (exitCode r) ++ nl.

Lemma formatEntry_header (E : Env) (total index : nat) (r : CommandResult) :
  exists sections,
    formatEntry E total index r
    = entry_header E (total - index) r ++ sections
    /\ (trim (stdout r) = [] -> trim (stderr r) = [] -> sections = []).
Proof.
  exists ((if truthy (stdout r) && truthy (trim (stdout r))
           then nl ++ u "Output:" ++ nl ++ fence_text ++ nl
                  ++ trimOutput (stdout r) 15 ++ nl ++ fence_text ++ nl
           else [])
          ++ (if truthy (stderr r) && truthy (trim (stderr r))
              then nl ++ u "Error:" ++ nl ++ fence_text ++ nl
                     ++ trimOutput (stderr r) 15 ++ nl ++ fence_text ++ nl
              else [])).
  split.
  - unfold formatEntry, entry_header.
    destruct (truthy (stdout r) && truthy (trim (stdout r)));
      destruct (truthy (stderr r) && truthy (trim (stderr r)));
      repeat rewrite <- app_assoc; repeat rewrite app_nil_r; reflexivity.
  - intros Ho He. rewrite Ho, He. cbn [truthy].
    rewrite !andb_false_r. reflexivity.
Qed.

Lemma nth_error_mapi_from (A B : Type) (f : nat -> A -> B) (k i : nat)
  (l : list A) :
  nth_error (mapi_from f k l) i
  = option_map (f (k + i)) (nth_error l i).
Proof.
  revert k i. induction l as [|x l IH]; intros k [|i]; cbn; try reflexivity.
  - rewrite Nat.add_0_r. reflexivity.
  - rewrite IH. replace (S k + i) with (k + S i) by lia. reflexivity.
Qed.

Lemma length_mapi_from (A B : Type) (f : nat -> A -> B) (k : nat)
  (l : list A) :
  length (mapi_from f k l) = length l.
Proof.
  revert k. induction l as [|x l IH]; intros k; cbn; [|rewrite IH];
    reflexivity.
Qed.

(** X3.  The formatted history of a buffer that is not empty is one block per
    entry, in the order of the buffer (the most recent entry first), joined
    by newlines.  The block of the entry at position [i] begins with its
    header, numbered [length - i]: the most recent entry carries the
    highest number and the oldest the number 1; the header shows the check
    mark exactly for the exit code 0, then the command and the exit code.
    An entry whose captured outputs are blank has nothing after its
    header. *)
Theorem formatCommandHistoryForAI_blocks (E : Env)
  (commandHistory : list CommandResult) :
  commandHistory <> [] ->
  exists blocks,
    formatCommandHistoryForAI E commandHistory = join nl blocks
    /\ length blocks = length commandHistory
    /\ forall i r,
        nth_error commandHistory i = Some r ->
        exists sections,
          nth_error blocks i
          = Some (entry_header E (length commandHistory - i) r ++ sections)
          /\ (trim (stdout r) = [] -> trim (stderr r) = [] ->
              sections = []).
Proof.
  intros Hne.
  exists (mapi_from (formatEntry E (length commandHistory)) 0 commandHistory).
  split; [|split].
  - destruct commandHistory; [contradiction Hne; reflexivity|reflexivity].
  - apply length_mapi_from.
  - intros i r Hi. rewrite nth_error_mapi_from, Hi. cbn [option_map Nat.add].
    destruct (formatEntry_header E (length commandHistory) i r)
      as (sections & Heq & Hblank).
    exists sections. rewrite Heq. split; [reflexivity|exact Hblank].
Qed.

Lemma formatCommandHistoryForAI_blocks_witness :
  formatCommandHistoryForAI plain_env [entry 1]
  = u "## Command 1 [12:00:00 PM] " ++ [10007%N] ++ nl
      ++ fence_text ++ u "bash" ++ nl ++ u "$ echo" ++ nl ++ fence_text ++ nl
      ++ u "Exit code: 1" ++ nl.
Proof.
  destruct (@formatCommandHistoryForAI_blocks plain_env [entry 1])
    as (blocks & Heq & Hlen & Hblocks); [discriminate|].
  destruct (Hblocks 0 (entry 1) eq_refl) as (sections & Hnth & Hblank).
  rewrite (Hblank eq_refl eq_refl), app_nil_r in Hnth.
  destruct blocks as [|b [|b' bs]]; try discriminate Hlen.
  cbn in Hnth. injection Hnth as ->.
  rewrite Heq. reflexivity.
Defined.

(** X4.  The history the failure analysis is given: [runScript] records the
    result of the command before [analyzeFailedCommand] formats the
    buffer, so the formatted text is never the notice of the empty
    history; its first block is the one of the command just run, under
    the highest number, the length of the buffer. *)
Theorem recorded_command_heads_formatted_history (E : Env)
  (h : list CommandResult) (r : CommandResult) :
  let h' := addToCommandHistory h r in
  exists sections later,
    formatCommandHistoryForAI E h'
    = join nl ((entry_header E (length h') r ++ sections) :: later)
    /\ S (length later) = length h'
    /\ (trim (stdout r) = [] -> trim (stderr r) = [] -> sections = []).
Proof.
  intros h'.
  assert (Hhead : exists tl, h' = r :: tl).
  { unfold h', addToCommandHistory.
    destruct (MAX_HISTORY_SIZE <? length (r :: h)) eqn:Hfull;
      [|exists h; reflexivity].
    destruct h as [|x h]; [discriminate Hfull|].
    exists (removelast (x :: h)). reflexivity. }
  destruct Hhead as [tl Hh']. clearbody h'. subst h'.
  destruct (formatEntry_header E (length (r :: tl)) 0 r)
    as (sections & Heq & Hblank).
  rewrite Nat.sub_0_r in Heq.
  exists sections, (mapi_from (formatEntry E (length (r :: tl))) 1 tl).
  split; [|split].
  - rewrite <- Heq. reflexivity.
  - rewrite length_mapi_from. reflexivity.
  - exact Hblank.
Qed.

End HistoryMore.

(** ** The stream decoder, further *)

Module DecoderMore.

Import Regex Json Completion Samples Upstream.

(** *** The content of a frame *)

Lemma hex_value_hex_digit (d : N) :
  (d < 16)%N -> hex_value (hex_digit d) = Some d.
Proof.
  intros Hd.
  assert (H : (d = 0 \/ d = 1 \/ d = 2 \/ d = 3 \/ d = 4 \/ d = 5 \/ d = 6
               \/ d = 7 \/ d = 8 \/ d = 9 \/ d = 10 \/ d = 11 \/ d = 12
               \/ d = 13 \/ d = 14 \/ d = 15)%N) by lia.
  repeat (destruct H as [->|H]; [reflexivity|]). subst d. reflexivity.
Qed.

(** The lexer reads an escaped code unit back. *)
Lemma lex_string_escape_unit (c : N) (s acc : jsstring) (n : nat) :
  lex_string (escape_unit c ++ s) acc n
  = lex_string s (c :: acc) (length (escape_unit c) + n).
Proof.
  unfold escape_unit.
  destruct (N.eqb_spec c 34) as [->|H34]; [reflexivity|].
  destruct (N.eqb_spec c 92) as [->|H92]; [reflexivity|].
  destruct (N.eqb_spec c 8) as [->|H8]; [reflexivity|].
  destruct (N.eqb_spec c 12) as [->|H12]; [reflexivity|].
  destruct (N.eqb_spec c 10) as [->|H10]; [reflexivity|].
  destruct (N.eqb_spec c 13) as [->|H13]; [reflexivity|].
  destruct (N.eqb_spec c 9) as [->|H9]; [reflexivity|].
  destruct (N.ltb_spec c 32) as [Hlow|Hhigh].
  - cbn [app lex_string length].
    change (92 =? 34)%N with false. change (92 =? 92)%N with true.
    change (117 =? 117)%N with true. cbv iota.
    change (hex_value 48) with (Some 0%N).
    rewrite !hex_value_hex_digit
      by (try apply N.mod_lt; try (apply N.Div0.div_lt_upper_bound); lia).
    replace (0 * 4096 + 0 * 256 + c / 16 * 16 + c mod 16)%N with c.
    + reflexivity.
    + rewrite (N.div_mod c 16) at 1 by lia. lia.
  - cbn [app lex_string length].
    replace (c =? 34)%N with false by (symmetry; apply N.eqb_neq; exact H34).
    replace (c =? 92)%N with false by (symmetry; apply N.eqb_neq; exact H92).
    replace (c <? 32)%N with false by (symmetry; apply N.ltb_ge; exact Hhigh).
    reflexivity.
Qed.

(** The lexer reads an escaped string back, up to its closing quote. *)
Lemma lex_string_json_escape (c s acc : jsstring) (n : nat) :
  lex_string (json_escape c ++ 34%N :: s) acc n
  = Some (rev acc ++ c, S (length (json_escape c) + n)).
Proof.
  revert acc n. induction c as [|x c IH]; intros acc n.
  - cbn. rewrite app_nil_r. reflexivity.
  - cbn [json_escape flat_map]. fold (json_escape c).
    rewrite <- app_assoc, lex_string_escape_unit, IH.
    cbn [rev]. rewrite <- app_assoc, length_app. cbn [app].
    f_equal. f_equal. lia.
Qed.

Lemma lex_skip (a s : jsstring) : lex (length a) (a ++ s) = lex 0 s.
Proof.
  induction a as [|x a IH]; [reflexivity|exact IH].
Qed.

(** Past the start of the payload the marker matches nowhere. *)
Lemma data_marker_not_later (pos : nat) (s : jsstring) :
  pos <> 0 -> match_at data_marker pos s = None.
Proof.
  intros Hpos. destruct pos as [|pos]; [contradiction Hpos; reflexivity|].
  unfold match_at. cbn [data_marker source ignoreCase m].
  destruct s as [|x s]; [reflexivity|].
  unfold canonicalize. cbn [andb].
  destruct (x =? 10)%N; [|reflexivity].
  replace (S (S pos) =? S pos) with false
    by (symmetry; apply Nat.eqb_neq; lia).
  reflexivity.
Qed.

Lemma remove_go_later (s : jsstring) (pos : nat) :
  pos <> 0 -> remove_go data_marker 0 pos s = s.
Proof.
  revert pos. induction s as [|x s IH]; intros pos Hpos; [reflexivity|].
  cbn [remove_go]. rewrite data_marker_not_later by exact Hpos.
  rewrite IH by lia. reflexivity.
Qed.

(** The marker and the blank after it are removed from a payload whose
    data begins with a brace. *)
Lemma removeAll_data_marker (s : jsstring) :
  removeAll data_marker (u "data: " ++ 123%N :: s) = 123%N :: s.
Proof.
  unfold removeAll.
  change (remove_go data_marker 0 0 (u "data: " ++ 123%N :: s))
    with (remove_go data_marker 0 6 (123%N :: s)).
  apply remove_go_later. discriminate.
Qed.

Lemma trimStart_head (x : N) (s : jsstring) :
  is_whitespace x = false -> trimStart (x :: s) = x :: s.
Proof.
  intros Hx. cbn [trimStart]. rewrite Hx. reflexivity.
Qed.

Lemma trim_between (x y : N) (s : jsstring) :
  is_whitespace x = false -> is_whitespace y = false ->
  trim (x :: s ++ [y]) = x :: s ++ [y].
Proof.
  intros Hx Hy. unfold trim. rewrite trimStart_head by exact Hx.
  change (x :: s ++ [y]) with ((x :: s) ++ [y]).
  rewrite rev_app_distr. cbn [rev app].
  rewrite trimStart_head by exact Hy.
  change (y :: rev s ++ [x]) with ([y] ++ rev s ++ [x]).
  rewrite !rev_app_distr, rev_involutive. reflexivity.
Qed.

(** The data of a content payload, as JSON text. *)
Definition content_json (c : jsstring) : jsstring :=
  q "{'choices':[{'delta':{'content':'" ++ json_escape c ++ q "'}}]}".

Lemma lex_content_prefix (s : jsstring) :
  lex 0 (q "{'choices':[{'delta':{'content':" ++ s)
  = match lex 0 s with
    | Some tokens =>
        Some ([TLBrace; TString (u "choices"); TColon; TLBracket; TLBrace;
               TString (u "delta"); TColon; TLBrace; TString (u "content");
               TColon] ++ tokens)
    | None => None
    end.
Proof.
  change (lex 0 (q "{'choices':[{'delta':{'content':" ++ s))
    with (cons_token TLBrace
            (cons_token (TString (u "choices"))
               (cons_token TColon
                  (cons_token TLBracket
                     (cons_token TLBrace
                        (cons_token (TString (u "delta"))
                           (cons_token TColon
                              (cons_token TLBrace
                                 (cons_token (TString (u "content"))
                                    (cons_token TColon (lex 0 s))))))))))).
  destruct (lex 0 s); reflexivity.
Qed.

Lemma lex_string_token (c s : jsstring) :
  lex 0 (34%N :: json_escape c ++ 34%N :: s)
  = cons_token (TString c) (lex 0 s).
Proof.
  cbn [lex is_json_ws]. cbn [N.eqb Pos.eqb orb].
  rewrite lex_string_json_escape. cbn [rev app].
  replace (S (length (json_escape c) + 1) - 1)
    with (length (json_escape c ++ [34%N]))
    by (rewrite length_app; cbn [length]; lia).
  change (json_escape c ++ 34%N :: s) with (json_escape c ++ [34%N] ++ s).
  rewrite app_assoc, lex_skip. reflexivity.
Qed.

Lemma JSON_parse_content_json (c : jsstring) :
  JSON_parse (content_json c)
  = Some (JObject
            [(u "choices",
              JArray
                [JObject
                   [(u "delta", JObject [(u "content", JString c)])]])]).
Proof.
  unfold JSON_parse, content_json.
  change (q "{'choices':[{'delta':{'content':'" ++ json_escape c
            ++ q "'}}]}")
    with (q "{'choices':[{'delta':{'content':"
            ++ 34%N :: json_escape c ++ 34%N :: q "}}]}").
  rewrite lex_content_prefix, lex_string_token. reflexivity.
Qed.

Lemma parseContent_payload (E : Env) (c : jsstring) :
  parseContent E (content_payload c) = Text c.
Proof.
  unfold parseContent.
  assert (Hdata : removeAll data_marker (content_payload c) = content_json c).
  { unfold content_payload, content_json.
    change (q "data: {'choices':[{'delta':{'content':'" ++ json_escape c
              ++ q "'}}]}")
      with (u "data: "
              ++ 123%N :: (q "'choices':[{'delta':{'content':'"
                             ++ json_escape c ++ q "'}}]}")).
    apply removeAll_data_marker. }
  assert (Htrim : trim (content_json c) = content_json c).
  { assert (Hshape : content_json c
                     = 123%N :: (q "'choices':[{'delta':{'content':'"
                                   ++ json_escape c ++ q "'}}]") ++ [125%N]).
    { unfold content_json.
      change (q "'}}]}") with (q "'}}]" ++ [125%N]).
      repeat rewrite <- app_assoc. reflexivity. }
    rewrite Hshape. apply trim_between; reflexivity. }
  rewrite Hdata, Htrim, JSON_parse_content_json. reflexivity.
Qed.

(** *** Blanks around the data of a frame *)

Lemma whitespace_class (c : N) :
  class_mem false
    [(9, 13); (32, 32); (160, 160); (5760, 5760); (8192, 8202);
     (8232, 8233); (8239, 8239); (8287, 8287); (12288, 12288);
     (65279, 65279)]%N c
  = is_whitespace c.
Proof.
  apply eq_true_iff_eq.
  unfold class_mem, in_ranges, is_whitespace.
  cbn [existsb fst snd andb orb]. rewrite !orb_false_r.
  repeat first [rewrite orb_true_iff | rewrite andb_true_iff
               | rewrite N.leb_le | rewrite N.eqb_eq].
  split; intros H; lia.
Qed.

(** The iterations of [\s*] at the end of the marker pattern. *)
Definition blank_loop : nat -> nat -> jsstring -> option nat :=
  fix loop (fuel pos : nat) (rest : jsstring) {struct fuel} : option nat :=
    match fuel with
    | O => Some pos
    | S f =>
        match m false whitespace pos rest
                (fun p r' => if p =? pos then None else loop f p r') with
        | Some e => Some e
        | None => Some pos
        end
    end.

Lemma blank_loop_run (ws : jsstring) (x : N) (s : jsstring)
  (fuel pos : nat) :
  Forall (fun c => is_whitespace c = true) ws ->
  is_whitespace x = false ->
  length ws <= fuel ->
  blank_loop fuel pos (ws ++ x :: s) = Some (pos + length ws).
Proof.
  intros Hws Hx. revert fuel pos.
  induction Hws as [|y ws Hy _ IH]; intros fuel pos Hfuel.
  - cbn [app length]. rewrite Nat.add_0_r.
    destruct fuel as [|f]; [reflexivity|].
    cbn [blank_loop m whitespace]. rewrite whitespace_class, Hx.
    reflexivity.
  - destruct fuel as [|f]; [cbn in Hfuel; lia|].
    cbn [app]. cbn [blank_loop m whitespace].
    rewrite whitespace_class, Hy.
    replace (S pos =? pos) with false
      by (symmetry; apply Nat.eqb_neq; lia).
    change ((fix loop (fuel pos : nat) (rest : jsstring) {struct fuel}
               : option nat :=
               match fuel with
               | O => Some pos
               | S f =>
                   match m false whitespace pos rest
                           (fun p r' =>
                              if p =? pos then None else loop f p r') with
                   | Some e => Some e
                   | None => Some pos
                   end
               end) f (S pos) (ws ++ x :: s))
      with (blank_loop f (S pos) (ws ++ x :: s)).
    rewrite IH by (cbn in Hfuel; lia).
    cbn [length]. f_equal. lia.
Qed.

Lemma match_at_data_marker (ws : jsstring) (x : N) (s : jsstring) :
  Forall (fun c => is_whitespace c = true) ws ->
  is_whitespace x = false ->
  match_at data_marker 0 (u "data:" ++ ws ++ x :: s)
  = Some (5 + length ws).
Proof.
  intros Hws Hx.
  change (match_at data_marker 0 (u "data:" ++ ws ++ x :: s))
    with (blank_loop (S (length (ws ++ x :: s))) 5 (ws ++ x :: s)).
  apply blank_loop_run; [exact Hws|exact Hx|].
  rewrite length_app. lia.
Qed.

Lemma remove_go_skip (re : RegExp) (a s : jsstring) (pos : nat) :
  remove_go re (length a) pos (a ++ s)
  = remove_go re 0 (pos + length a) s.
Proof.
  revert pos. induction a as [|y a IH]; intros pos.
  - cbn. rewrite Nat.add_0_r. reflexivity.
  - cbn [app length remove_go]. rewrite IH. f_equal. lia.
Qed.

(** The marker and every blank after it are removed, and nothing else. *)
Lemma removeAll_data_marker_blanks (ws : jsstring) (x : N) (s : jsstring) :
  Forall (fun c => is_whitespace c = true) ws ->
  is_whitespace x = false ->
  removeAll data_marker (u "data:" ++ ws ++ x :: s) = x :: s.
Proof.
  intros Hws Hx. unfold removeAll.
  change (u "data:" ++ ws ++ x :: s)
    with (100%N :: (u "ata:" ++ ws ++ x :: s)).
  cbn [remove_go].
  change (100%N :: (u "ata:" ++ ws ++ x :: s))
    with (u "data:" ++ ws ++ x :: s).
  rewrite match_at_data_marker by assumption.
  cbn [Nat.add Nat.eqb].
  replace (S (S (S (S (S (length ws))))) - 0 - 1)
    with (length (u "ata:" ++ ws))
    by (rewrite length_app; cbn [length u]; reflexivity).
  rewrite app_assoc, remove_go_skip.
  apply remove_go_later. discriminate.
Qed.

Lemma trimStart_blanks (ws s : jsstring) :
  Forall (fun c => is_whitespace c = true) ws ->
  trimStart (ws ++ s) = trimStart s.
Proof.
  induction 1 as [|y ws Hy _ IH]; [reflexivity|].
  cbn [app trimStart]. rewrite Hy. exact IH.
Qed.

Lemma trim_blanks_after (x y : N) (s ws : jsstring) :
  is_whitespace x = false -> is_whitespace y = false ->
  Forall (fun c => is_whitespace c = true) ws ->
  trim ((x :: s ++ [y]) ++ ws) = x :: s ++ [y].
Proof.
  intros Hx Hy Hws. unfold trim.
  cbn [app]. rewrite trimStart_head by exact Hx.
  change (x :: (s ++ [y]) ++ ws) with ((x :: s ++ [y]) ++ ws).
  rewrite rev_app_distr.
  rewrite trimStart_blanks by (apply Forall_rev; exact Hws).
  change (x :: s ++ [y]) with ((x :: s) ++ [y]).
  rewrite rev_app_distr. cbn [rev app].
  rewrite trimStart_head by exact Hy.
  change (y :: rev s ++ [x]) with ([y] ++ rev s ++ [x]).
  rewrite !rev_app_distr, rev_involutive. reflexivity.
Qed.

(** X5.  [parseContent] reads back the content of a frame, whatever the
    content and whatever blanks stand between the marker and the data and
    after the data: the marker pattern takes the blanks before, [trim]
    those after, and the escapes of the JSON text are undone. *)
Theorem parseContent_reads_framed_content (E : Env)
  (before after c : jsstring) :
  Forall (fun x => is_whitespace x = true) before ->
  Forall (fun x => is_whitespace x = true) after ->
  parseContent E (u "data:" ++ before ++ content_json c ++ after) = Text c.
Proof.
  intros Hbefore Hafter. unfold parseContent.
  assert (Hshape : content_json c
                   = 123%N :: (q "'choices':[{'delta':{'content':'"
                                 ++ json_escape c ++ q "'}}]") ++ [125%N]).
  { unfold content_json.
    change (q "'}}]}") with (q "'}}]" ++ [125%N]).
    repeat rewrite <- app_assoc. reflexivity. }
  assert (Hdata : removeAll data_marker
                    (u "data:" ++ before ++ content_json c ++ after)
                  = content_json c ++ after).
  { rewrite Hshape. cbn [app].
    apply removeAll_data_marker_blanks; [exact Hbefore|reflexivity]. }
  assert (Htrim : trim (content_json c ++ after) = content_json c).
  { rewrite Hshape. apply trim_blanks_after; [reflexivity|reflexivity|].
    exact Hafter. }
  rewrite Hdata, Htrim, JSON_parse_content_json. reflexivity.
Qed.

Lemma parseContent_reads_framed_content_witness :
  parseContent plain_env
    (u "data:" ++ [32; 9]%N ++ content_json (q "echo 'a\b'") ++ [13; 10]%N)
  = Text (q "echo 'a\b'").
Proof.
  apply (@parseContent_reads_framed_content plain_env [32; 9]%N [13; 10]%N
           (q "echo 'a\b'")); repeat constructor.
Defined.

(** *** Where the completion marker can occur *)

Definition done_marker : jsstring := u "[DONE]".

Lemma startsWith_app_cut (a r p : jsstring) (x : N) :
  startsWith (a ++ x :: r) p = true -> startsWith a p = true \/ In x p.
Proof.
  revert a. induction p as [|y p IH]; intros a H.
  - left. destruct a; reflexivity.
  - destruct a as [|z a].
    + cbn in H. apply andb_prop in H. destruct H as [H _].
      apply N.eqb_eq in H. right. left. exact H.
    + cbn in H. apply andb_prop in H. destruct H as [Hz H].
      destruct (IH a H) as [Ha|Hin].
      * left. cbn. rewrite Hz, Ha. reflexivity.
      * right. right. exact Hin.
Qed.

Lemma includes_head (s p : jsstring) :
  includes s p = false -> startsWith s p = false.
Proof.
  destruct s; cbn; intros H; apply orb_false_elim in H; apply H.
Qed.

(** A text that does not hold [p], followed by a code unit that is not in
    [p] and a text from that unit on that does not hold [p]. *)
Lemma includes_app_false (a r p : jsstring) (x : N) :
  includes a p = false -> ~ In x p ->
  includes (x :: r) p = false ->
  includes (a ++ x :: r) p = false.
Proof.
  intros Ha Hx Hr. induction a as [|z a IH]; [exact Hr|].
  cbn [app includes]. apply orb_false_intro.
  - change (z :: a ++ x :: r) with ((z :: a) ++ x :: r).
    destruct (startsWith ((z :: a) ++ x :: r) p) eqn:Hs; [|reflexivity].
    destruct (@startsWith_app_cut (z :: a) r p x Hs) as [H|H].
    + rewrite (includes_head _ _ Ha) in H. discriminate H.
    + contradiction (Hx H).
  - apply IH. cbn [includes] in Ha. apply orb_false_elim in Ha. apply Ha.
Qed.

Lemma hex_digit_range (d : N) :
  (d < 16)%N -> (48 <= hex_digit d <= 57)%N \/ (97 <= hex_digit d <= 102)%N.
Proof.
  intros Hd. unfold hex_digit. destruct (N.ltb_spec d 10); lia.
Qed.

(** An escape is the code unit itself, or a backslash and units that are
    neither a bracket nor a newline. *)
Lemma escape_unit_cases (x : N) :
  (escape_unit x = [x] /\ x <> 92%N /\ x <> 10%N)
  \/ exists t, escape_unit x = 92%N :: t
               /\ ~ In 91%N t /\ ~ In 10%N t.
Proof.
  unfold escape_unit.
  destruct (N.eqb_spec x 34);
    [right; eexists; split; [reflexivity|split; intros H; cbn in H;
                             repeat (destruct H as [H|H]; [discriminate H|]);
                             exact H]|].
  destruct (N.eqb_spec x 92);
    [right; eexists; split; [reflexivity|split; intros H; cbn in H;
                             repeat (destruct H as [H|H]; [discriminate H|]);
                             exact H]|].
  destruct (N.eqb_spec x 8);
    [right; eexists; split; [reflexivity|split; intros H; cbn in H;
                             repeat (destruct H as [H|H]; [discriminate H|]);
                             exact H]|].
  destruct (N.eqb_spec x 12);
    [right; eexists; split; [reflexivity|split; intros H; cbn in H;
                             repeat (destruct H as [H|H]; [discriminate H|]);
                             exact H]|].
  destruct (N.eqb_spec x 10);
    [right; eexists; split; [reflexivity|split; intros H; cbn in H;
                             repeat (destruct H as [H|H]; [discriminate H|]);
                             exact H]|].
  destruct (N.eqb_spec x 13);
    [right; eexists; split; [reflexivity|split; intros H; cbn in H;
                             repeat (destruct H as [H|H]; [discriminate H|]);
                             exact H]|].
  destruct (N.eqb_spec x 9);
    [right; eexists; split; [reflexivity|split; intros H; cbn in H;
                             repeat (destruct H as [H|H]; [discriminate H|]);
                             exact H]|].
  destruct (N.ltb_spec x 32) as [Hlow|Hhigh].
  - right. eexists. split; [reflexivity|].
    assert (H1 : (x / 16 < 16)%N) by (apply N.Div0.div_lt_upper_bound; lia).
    assert (H2 : (x mod 16 < 16)%N) by (apply N.mod_lt; lia).
    pose proof (hex_digit_range H1) as R1.
    pose proof (hex_digit_range H2) as R2.
    split; intros H; cbn in H;
      repeat (destruct H as [H|H]; [try discriminate H; lia|]); exact H.
  - left. repeat split; assumption.
Qed.

Lemma includes_skip (t s p : jsstring) (f : N) :
  ~ In f t -> includes (t ++ s) (f :: p) = includes s (f :: p).
Proof.
  induction t as [|y t IH]; intros Hf; [reflexivity|].
  cbn [app includes startsWith].
  replace (f =? y)%N with false.
  - cbn [andb orb]. apply IH. intros H. apply Hf. right. exact H.
  - symmetry. apply N.eqb_neq. intros ->. apply Hf. left. reflexivity.
Qed.

(** The marker at the head of an escaped text is at the head of the
    text. *)
Lemma startsWith_json_escape (p s : jsstring) :
  Forall (fun ch => escape_unit ch = [ch] /\ ch <> 92%N) p ->
  startsWith (json_escape s) p = true -> startsWith s p = true.
Proof.
  intros Hp. revert s. induction Hp as [|ch p [Hch Hne] _ IH]; intros s H.
  - destruct s; reflexivity.
  - destruct s as [|x s]; [discriminate H|].
    cbn [json_escape flat_map] in H. fold (json_escape s) in H.
    destruct (escape_unit_cases x) as [(Hx & _ & _)|(t & Hx & _)];
      rewrite Hx in H; cbn [app startsWith] in H.
    + apply andb_prop in H. destruct H as [Hhead Htail].
      cbn [startsWith]. rewrite Hhead. cbn [andb]. apply IH. exact Htail.
    + apply andb_prop in H. destruct H as [Hhead _].
      apply N.eqb_eq in Hhead. contradiction (Hne Hhead).
Qed.

(** Escaping brings no completion marker into a text. *)
Lemma includes_json_escape (s : jsstring) :
  includes s done_marker = false ->
  includes (json_escape s) done_marker = false.
Proof.
  induction s as [|x s IH]; intros H; [reflexivity|].
  cbn [includes] in H. apply orb_false_elim in H. destruct H as [Hhead Htail].
  assert (Hstart : startsWith (json_escape (x :: s)) done_marker = false).
  { destruct (startsWith (json_escape (x :: s)) done_marker) eqn:Hs;
      [|reflexivity].
    apply startsWith_json_escape in Hs; [congruence|].
    repeat constructor; discriminate. }
  cbn [json_escape flat_map] in *. fold (json_escape s) in *.
  destruct (escape_unit_cases x) as [(Hx & _ & _)|(t & Hx & Ht & _)];
    rewrite Hx in *; cbn [app] in *; cbn [includes]; rewrite Hstart;
    cbn [orb].
  - apply IH. exact Htail.
  - unfold done_marker at 1.
    change (u "[DONE]") with (91%N :: u "DONE]").
    rewrite includes_skip by exact Ht. apply IH. exact Htail.
Qed.

(** The payload of a content holds the completion marker only if the
    content does. *)
Lemma includes_content_payload (c : jsstring) :
  includes c done_marker = false ->
  includes (content_payload c) done_marker = false.
Proof.
  intros Hc. unfold content_payload.
  change (q "data: {'choices':[{'delta':{'content':'" ++ json_escape c
            ++ q "'}}]}")
    with (q "data: {'choices':[{'delta':{'content':"
            ++ 34%N :: (json_escape c ++ 34%N :: q "}}]}")).
  apply includes_app_false.
  - reflexivity.
  - cbn. intros H. repeat (destruct H as [H|H]; [discriminate H|]). exact H.
  - cbn [includes]. apply orb_false_intro; [reflexivity|].
    apply includes_app_false.
    + apply includes_json_escape. exact Hc.
    + cbn. intros H. repeat (destruct H as [H|H]; [discriminate H|]). exact H.
    + reflexivity.
Qed.

Lemma json_escape_no_newline (c : jsstring) : ~ In 10%N (json_escape c).
Proof.
  induction c as [|x c IH]; [intros []|].
  cbn [json_escape flat_map]. fold (json_escape c). intros H.
  apply in_app_or in H. destruct H as [H|H]; [|exact (IH H)].
  destruct (escape_unit_cases x) as [(Hx & _ & Hnl)|(t & Hx & _ & Ht)];
    rewrite Hx in H.
  - destruct H as [H|[]]. contradiction (Hnl H).
  - destruct H as [H|H]; [discriminate H|exact (Ht H)].
Qed.

Lemma content_payload_no_newline (c : jsstring) :
  ~ In 10%N (content_payload c).
Proof.
  unfold content_payload. intros H.
  apply in_app_or in H. destruct H as [H|H].
  - cbn in H. repeat (destruct H as [H|H]; [discriminate H|]). exact H.
  - apply in_app_or in H. destruct H as [H|H].
    + exact (json_escape_no_newline _ H).
    + cbn in H. repeat (destruct H as [H|H]; [discriminate H|]). exact H.
Qed.

(** *** The payloads of a chunk of frames *)

Lemma split_delimiter_go (s rest cur : jsstring) :
  ~ In 10%N s ->
  split_go (nl ++ nl) 0 cur (s ++ nl ++ nl ++ rest)
  = (rev cur ++ s) :: split_go (nl ++ nl) 0 [] rest.
Proof.
  revert cur. induction s as [|x s IH]; intros cur Hs.
  - rewrite app_nil_r. cbn [app nl split_go startsWith length Nat.sub].
    replace (startsWith rest []) with true by (destruct rest; reflexivity).
    reflexivity.
  - cbn [app split_go startsWith nl].
    replace (10 =? x)%N with false
      by (symmetry; apply N.eqb_neq; intros Hx; apply Hs; left;
          symmetry; exact Hx).
    cbn [andb]. change (10%N :: 10%N :: rest) with (nl ++ nl ++ rest).
    change [10%N; 10%N] with (nl ++ nl).
    rewrite IH by (intros H; apply Hs; right; exact H).
    cbn [rev]. rewrite <- app_assoc. reflexivity.
Qed.

(** A chunk of frames splits into their payloads and a last, empty
    payload. *)
Lemma split_content_chunk (contents : list jsstring) :
  split (content_chunk contents) (nl ++ nl)
  = map content_payload contents ++ [[]].
Proof.
  unfold split. cbn [nl app].
  change [10%N; 10%N] with (nl ++ nl).
  induction contents as [|c contents IH]; [reflexivity|].
  cbn [content_chunk flat_map map app]. fold (content_chunk contents).
  rewrite <- !app_assoc.
  rewrite split_delimiter_go by apply content_payload_no_newline.
  cbn [rev app]. f_equal. exact IH.
Qed.

(** *** Decoding a stream of frames *)

Section Frames.

Variable E : Env.
Variable isAnalysis : bool.

(** From [st] to [st'] the contents [cs] have been taken in: their text
    is appended, the non-empty ones have been handed to the writer, and
    nothing else has changed. *)
Definition fed (st st' : state) (cs : list jsstring) : Prop :=
  loop st' = loop st
  /\ stopTextStream st' = stopTextStream st
  /\ data st' = data st ++ concat cs
  /\ written st' = written st ++ map Fragment (filter truthy cs)
  /\ settled st' = settled st
  /\ sigint_listeners st' = sigint_listeners st
  /\ originalSigintHandler st' = originalSigintHandler st
  /\ stoppedByUser st' = stoppedByUser st.

Lemma fed_refl (st : state) : fed st st [].
Proof.
  unfold fed. cbn. rewrite !app_nil_r. repeat split; reflexivity.
Qed.

Lemma fed_trans (a b c : state) (cs1 cs2 : list jsstring) :
  fed a b cs1 -> fed b c cs2 -> fed a c (cs1 ++ cs2).
Proof.
  intros (Hl & Hs & Hd & Hw & Hp & Hls & Ho & Hu)
         (Hl' & Hs' & Hd' & Hw' & Hp' & Hls' & Ho' & Hu').
  unfold fed. rewrite concat_app, filter_app, map_app.
  repeat split; try congruence.
  - rewrite Hd', Hd, app_assoc. reflexivity.
  - rewrite Hw', Hw, app_assoc. reflexivity.
Qed.

(** One payload of a frame: its content is emitted, and the loop goes
    on. *)
Lemma payload_step_content (c : jsstring) (st : state) :
  stopTextStream st = false ->
  includes c done_marker = false ->
  snd (payload_step E [] isAnalysis (content_payload c) st) = false
  /\ fed st (fst (payload_step E [] isAnalysis (content_payload c) st)) [c].
Proof.
  intros Hstop Hc. unfold payload_step.
  change (u "[DONE]") with done_marker.
  rewrite (includes_content_payload c Hc), Hstop.
  replace (startsWith (content_payload c) (u "data:")) with true
    by reflexivity.
  rewrite parseContent_payload.
  cbn [orb]. unfold fed.
  destruct (dataStart st) eqn:Hds; cbn [negb].
  - cbn [fst snd]. unfold emit. rewrite Hds. cbn [andb].
    destruct c as [|x c]; cbn; rewrite ?app_nil_r;
      repeat split; auto.
  - cbn [match_prefix excludedPrefix pattern_truthy fst snd].
    unfold emit. cbn [dataStart with_buffer with_dataStart andb].
    destruct c as [|x c]; cbn; rewrite ?app_nil_r;
      repeat split; auto.
Qed.

Lemma payloads_loop_contents (cs : list jsstring) (st : state) :
  loop st = Running -> stopTextStream st = false ->
  Forall (fun c => includes c done_marker = false) cs ->
  fed st (payloads_loop E [] isAnalysis (map content_payload cs ++ [[]]) st)
    cs.
Proof.
  intros Hrun Hstop Hcs. revert st Hrun Hstop.
  induction Hcs as [|c cs Hc _ IH]; intros st Hrun Hstop.
  - cbn [map app payloads_loop]. unfold payload_step.
    change (includes [] (u "[DONE]")) with false.
    change (startsWith [] (u "data:")) with false.
    rewrite Hstop. cbn [orb].
    unfold is_running. rewrite Hrun. cbn. apply fed_refl.
  - cbn [map app payloads_loop].
    destruct (@payload_step_content c st Hstop Hc) as [Hbroke Hfed].
    destruct (payload_step E [] isAnalysis (content_payload c) st)
      as [st1 broke].
    cbn [fst snd] in *. subst broke.
    pose proof Hfed as (Hl & Hs & _).
    unfold is_running. rewrite Hl, Hrun. cbn [orb negb].
    change (c :: cs) with ([c] ++ cs).
    eapply fed_trans; [exact Hfed|].
    apply IH; congruence.
Qed.

Lemma step_content_chunk (cs : list jsstring) (st : state) :
  loop st = Running -> stopTextStream st = false ->
  Forall (fun c => includes c done_marker = false) cs ->
  fed st (step E [] isAnalysis st (Chunk (content_chunk cs))) cs.
Proof.
  intros Hrun Hstop Hcs. cbn [step]. unfold on_chunk, is_running.
  rewrite Hrun, split_content_chunk.
  apply payloads_loop_contents; assumption.
Qed.

Lemma run_content_chunks (groups : list (list jsstring)) (st : state) :
  loop st = Running -> stopTextStream st = false ->
  Forall (Forall (fun c => includes c done_marker = false)) groups ->
  fed st (run E [] isAnalysis st
            (map (fun g => Chunk (content_chunk g)) groups))
    (concat groups).
Proof.
  intros Hrun Hstop Hgs. revert st Hrun Hstop.
  induction Hgs as [|g groups Hg _ IH]; intros st Hrun Hstop.
  - apply fed_refl.
  - cbn [map run fold_left concat].
    pose proof (@step_content_chunk g st Hrun Hstop Hg) as Hfed.
    pose proof Hfed as (Hl & Hs & _).
    eapply fed_trans; [exact Hfed|].
    apply IH; congruence.
Qed.

(** X6.  The frames of any contents, in any grouping into chunks, followed by
    the completion frame or by the end of the stream: with no exclusion
    pattern the read resolves with the concatenation of the contents, and
    the writer has received exactly the non-empty contents, in their
    order.  The contents are arbitrary strings, short of the completion
    marker itself. *)
Theorem readData_decodes_contents (listeners : list nat)
  (groups : list (list jsstring)) (closing : event) :
  Forall (Forall (fun c => includes c done_marker = false)) groups ->
  closing = Chunk done_frame \/ closing = StreamEnd ->
  let st :=
    readData E [] isAnalysis listeners
      (map (fun g => Chunk (content_chunk g)) groups ++ [closing]) in
  settled st = Some (concat (concat groups))
  /\ written st = map Fragment (filter truthy (concat groups))
  /\ loop st = Returned.
Proof.
  intros Hgs Hclosing st. unfold st, readData.
  rewrite DecoderFacts.run_app. cbn [run fold_left].
  set (st0 := start isAnalysis listeners).
  destruct (@run_content_chunks groups st0 eq_refl eq_refl Hgs)
    as (Hl & Hs & Hd & Hw & Hp & _ & _ & Hu).
  fold (run E [] isAnalysis st0
          (map (fun g => Chunk (content_chunk g)) groups)) in *.
  set (st1 := run E [] isAnalysis st0
                (map (fun g => Chunk (content_chunk g)) groups)) in *.
  cbn in Hl, Hs, Hd, Hw, Hp, Hu.
  clearbody st1. clear Hgs. destruct st1; cbn in Hl, Hs, Hd, Hw, Hp, Hu.
  subst. destruct Hclosing as [->| ->].
  - change (step E [] isAnalysis ?s (Chunk done_frame))
      with (payloads_loop E [] isAnalysis [u "data: [DONE]"; []] s).
    destruct isAnalysis; cbn; repeat split; reflexivity.
  - destruct isAnalysis; cbn; repeat split; reflexivity.
Qed.

End Frames.

Lemma readData_decodes_contents_witness :
  settled (readData plain_env [] false []
             (map (fun g => Chunk (content_chunk g))
                [[u "echo " ++ [34%N] ++ u "a" ++ [34%N]];
                 [nl; u "ls"]]
                ++ [Chunk done_frame]))
  = Some (u "echo " ++ [34%N] ++ u "a" ++ [34%N] ++ nl ++ u "ls").
Proof.
  destruct (@readData_decodes_contents plain_env false []
              [[u "echo " ++ [34%N] ++ u "a" ++ [34%N]]; [nl; u "ls"]]
              (Chunk done_frame)) as (Hs & _).
  - repeat constructor.
  - left. reflexivity.
  - rewrite Hs. reflexivity.
Defined.


(** *** The completion marker inside a content *)

Lemma startsWith_app_self (p s : jsstring) : startsWith (p ++ s) p = true.
Proof.
  induction p as [|x p IH]; [destruct s; reflexivity|].
  cbn. rewrite N.eqb_refl, IH. reflexivity.
Qed.

Lemma includes_intro (a p b : jsstring) : includes (a ++ p ++ b) p = true.
Proof.
  induction a as [|x a IH].
  - cbn [app]. destruct (p ++ b) as [|y r] eqn:Hpb.
    + destruct p; [reflexivity|discriminate Hpb].
    + cbn [includes]. rewrite <- Hpb.
      rewrite startsWith_app_self. reflexivity.
  - cbn [app includes]. rewrite IH. apply orb_true_r.
Qed.

(** X7.  The read takes the completion marker wherever a payload holds it: a
    frame whose content mentions the marker ends the read, and neither
    that content nor anything after it in the chunk is emitted. *)
Theorem done_marker_in_content_ends_read (E : Env)
  (excluded : list pattern) (isAnalysis : bool) (st : state)
  (a b : jsstring) (later : list jsstring) :
  loop st = Running ->
  let st' :=
    step E excluded isAnalysis st
      (Chunk (content_chunk ((a ++ done_marker ++ b) :: later))) in
  st' = finish E isAnalysis st
  /\ loop st' = Returned
  /\ data st' = data st
  /\ fragment_writes st' = fragment_writes st.
Proof.
  intros Hrun st'.
  assert (Hin : includes (content_payload (a ++ done_marker ++ b))
                  (u "[DONE]") = true).
  { replace (content_payload (a ++ done_marker ++ b))
      with ((q "data: {'choices':[{'delta':{'content':'" ++ json_escape a)
              ++ u "[DONE]" ++ (json_escape b ++ q "'}}]}"));
      [apply includes_intro|].
    unfold content_payload, json_escape. rewrite !flat_map_app.
    change (flat_map escape_unit done_marker) with (u "[DONE]").
    rewrite <- !app_assoc. reflexivity. }
  assert (Heq : st' = finish E isAnalysis st).
  { unfold st'. cbn [step]. unfold on_chunk, is_running. rewrite Hrun.
    rewrite split_content_chunk. cbn [map app payloads_loop].
    unfold payload_step at 1. rewrite Hin. cbn [orb].
    destruct (DecoderFacts.finish_fields E isAnalysis st) as (Hl & _).
    unfold is_running. rewrite Hl. reflexivity. }
  split; [exact Heq|]. rewrite Heq.
  destruct (DecoderFacts.finish_fields E isAnalysis st)
    as (Hl & Hd & _ & Hw & _).
  repeat split; assumption.
Qed.

Lemma done_marker_in_content_ends_read_witness :
  let st := readData plain_env [] false [] [Chunk (content_chunk [u "ls"])] in
  let st' :=
    step plain_env [] false st
      (Chunk (content_chunk
                ((u "echo " ++ done_marker ++ u " now") :: [u "pwd"]))) in
  settled st = None /\ settled st' = Some (u "ls") /\ data st' = u "ls".
Proof.
  cbv zeta.
  destruct (@done_marker_in_content_ends_read plain_env [] false
              (readData plain_env [] false []
                 [Chunk (content_chunk [u "ls"])])
              (u "echo ") (u " now") [u "pwd"] eq_refl)
    as (Heq & _ & Hd & _).
  rewrite Hd, Heq. repeat split; reflexivity.
Defined.

(** *** Before the start of the content *)

Section BeforeStart.

Variable E : Env.
Variable excluded : list pattern.
Variable isAnalysis : bool.
Hypothesis Hprefix : pattern_truthy (excludedPrefix excluded) = true.

Lemma payload_step_before_start (payload : jsstring) (st : state) :
  dataStart st = false ->
  let st' := fst (payload_step E excluded isAnalysis payload st) in
  let broke := snd (payload_step E excluded isAnalysis payload st) in
  data st' = data st
  /\ fragment_writes st' = fragment_writes st
  /\ (broke = false -> is_running st' = true -> dataStart st' = false).
Proof.
  intros Hds. unfold payload_step.
  destruct (includes payload (u "[DONE]") || stopTextStream st).
  { destruct (DecoderFacts.finish_fields E isAnalysis st)
      as (Hl & Hd & Hs & Hw & _).
    cbn [fst snd]. repeat split; auto. }
  destruct (startsWith payload (u "data:")); [|cbn; auto].
  destruct (parseContent E payload) as [c|v]; [|cbn; auto].
  rewrite Hds. cbn [negb buffer with_buffer].
  destruct (match_prefix E excluded (buffer st ++ c)) as [[|]|].
  - rewrite Hprefix. cbn. repeat split; auto; intros; discriminate.
  - unfold emit. cbn [dataStart with_buffer]. rewrite Hds.
    cbn. repeat split; auto.
  - cbn. repeat split; auto; intros; discriminate.
Qed.

Lemma payloads_loop_before_start (payloads : list jsstring) (st : state) :
  dataStart st = false ->
  data (payloads_loop E excluded isAnalysis payloads st) = data st
  /\ fragment_writes (payloads_loop E excluded isAnalysis payloads st)
     = fragment_writes st.
Proof.
  revert st. induction payloads as [|p ps IH]; intros st Hds.
  - split; reflexivity.
  - cbn [payloads_loop].
    destruct (@payload_step_before_start p st Hds) as (Hd & Hw & Hnext).
    destruct (payload_step E excluded isAnalysis p st) as [st1 broke].
    cbn [fst snd] in *.
    destruct broke; cbn [orb]; [split; assumption|].
    destruct (is_running st1) eqn:Hrun; cbn [negb]; [|split; assumption].
    destruct (IH st1 (Hnext eq_refl eq_refl)) as (Hd' & Hw').
    split; congruence.
Qed.

(** X8.  With a first exclusion pattern that is not empty, a chunk taken while
    the start of the content has not been detected hands nothing to the
    writer and adds nothing to the text, not even when the start is
    detected in it: what follows the start marker in the same chunk is
    dropped.  So the first chunk of a read never adds text, whatever it
    holds. *)
Theorem chunk_before_start_emits_nothing
  (payloads : list jsstring) (st : state) :
  dataStart st = false ->
  let st' := on_chunk E excluded isAnalysis payloads st in
  data st' = data st /\ fragment_writes st' = fragment_writes st.
Proof.
  intros Hds. unfold on_chunk.
  destruct (is_running st); [|split; reflexivity].
  apply payloads_loop_before_start. exact Hds.
Qed.

End BeforeStart.

Lemma chunk_before_start_emits_nothing_witness :
  let st :=
    on_chunk plain_env shellCodeExclusions false
      (map content_payload [u "```bash" ++ nl; u "ls -la"; nl ++ u "```"])
      (start false []) in
  data st = [] /\ fragment_writes st = [].
Proof.
  exact (@chunk_before_start_emits_nothing plain_env shellCodeExclusions
           false eq_refl
           (map content_payload [u "```bash" ++ nl; u "ls -la"; nl ++ u "```"])
           (start false []) eq_refl).
Defined.

(** *** The promise of a read *)

Section Promise.

Variable E : Env.
Variable excluded : list pattern.
Variable isAnalysis : bool.

(** A settled promise holds the accumulated text, and by then the stop flag
    is set or the loop has stopped; a loop left by [return] has settled. *)
Definition promise_inv (st : state) : Prop :=
  (forall v, settled st = Some v ->
     data st = v /\ (stopTextStream st = true \/ loop st <> Running))
  /\ (loop st = Returned -> settled st <> None).

Lemma promise_unsettled (st : state) :
  settled st = None -> loop st <> Returned -> promise_inv st.
Proof.
  intros Hs Hl. split.
  - intros v Hv. rewrite Hs in Hv. discriminate Hv.
  - intros Hr. contradiction (Hl Hr).
Qed.

Lemma finish_promise (st : state) :
  promise_inv st -> promise_inv (finish E isAnalysis st).
Proof.
  intros [Hset _].
  destruct (DecoderFacts.finish_fields E isAnalysis st)
    as (Hl & Hd & _ & _ & Hs & _).
  split.
  - intros v Hv. rewrite Hs in Hv. rewrite Hd, Hl.
    split; [|right; discriminate].
    destruct (settled st) as [x|] eqn:Hx.
    + destruct (Hset x eq_refl) as [Hdx _]. congruence.
    + congruence.
  - intros _. rewrite Hs. destruct (settled st); discriminate.
Qed.

Lemma emit_promise (c : jsstring) (st : state) :
  settled (emit excluded c st) = settled st
  /\ loop (emit excluded c st) = loop st.
Proof.
  unfold emit. destruct (dataStart st && truthy c); split; reflexivity.
Qed.

Lemma payload_step_promise (payload : jsstring) (st : state) :
  loop st = Running -> promise_inv st ->
  promise_inv (fst (payload_step E excluded isAnalysis payload st)).
Proof.
  intros Hrun Hinv.
  destruct (settled st) as [v|] eqn:Hs.
  { destruct Hinv as [Hset Hret].
    destruct (Hset v Hs) as [_ [Hstop|Hl]]; [|contradiction (Hl Hrun)].
    rewrite DecoderFacts.payload_step_stopped by exact Hstop.
    apply finish_promise. split; assumption. }
  unfold payload_step.
  destruct (includes payload (u "[DONE]") || stopTextStream st).
  { apply finish_promise. exact Hinv. }
  destruct (startsWith payload (u "data:")); [|exact Hinv].
  destruct (parseContent E payload) as [c|v].
  2:{ apply promise_unsettled; [exact Hs|discriminate]. }
  destruct (negb (dataStart st)).
  - cbn [buffer with_buffer].
    destruct (match_prefix E excluded (buffer st ++ c)) as [[|]|].
    + destruct (pattern_truthy (excludedPrefix excluded)); cbn [fst].
      * apply promise_unsettled; cbn; [exact Hs|rewrite Hrun; discriminate].
      * match goal with
        | |- promise_inv (emit excluded c ?s) =>
            destruct (emit_promise c s) as [He Hl]
        end.
        apply promise_unsettled; [rewrite He; exact Hs|].
        rewrite Hl. cbn. rewrite Hrun. discriminate.
    + cbn [fst].
      match goal with
      | |- promise_inv (emit excluded c ?s) =>
          destruct (emit_promise c s) as [He Hl]
      end.
      apply promise_unsettled; [rewrite He; exact Hs|].
      rewrite Hl. cbn. rewrite Hrun. discriminate.
    + apply promise_unsettled; cbn; [exact Hs|discriminate].
  - cbn [fst]. destruct (emit_promise c st) as [He Hl].
    apply promise_unsettled; [rewrite He; exact Hs|].
    rewrite Hl, Hrun. discriminate.
Qed.

Lemma payloads_loop_promise (payloads : list jsstring) (st : state) :
  loop st = Running -> promise_inv st ->
  promise_inv (payloads_loop E excluded isAnalysis payloads st).
Proof.
  revert st. induction payloads as [|p ps IH]; intros st Hrun Hinv.
  - exact Hinv.
  - cbn [payloads_loop].
    pose proof (@payload_step_promise p st Hrun Hinv) as Hinv'.
    destruct (payload_step E excluded isAnalysis p st) as [st1 broke].
    cbn [fst] in Hinv'.
    destruct broke; cbn [orb]; [exact Hinv'|].
    unfold is_running. destruct (loop st1) eqn:Hl; cbn [negb];
      try exact Hinv'.
    apply IH; assumption.
Qed.

Lemma analysis_handler_promise (st : state) :
  promise_inv st -> promise_inv (analysis_handler E st).
Proof.
  intros [Hset Hret]. unfold analysis_handler.
  destruct st as [stop user d ds b o l s w ls inv]. cbn in Hset, Hret.
  unfold resolve, write. cbn.
  destruct s as [x|]; cbn; split; cbn.
  - intros v Hv. destruct (Hset v Hv) as [Hd _].
    split; [exact Hd|left; reflexivity].
  - exact Hret.
  - intros v Hv. inversion Hv. split; [reflexivity|left; reflexivity].
  - intros _ H. discriminate H.
Qed.

Lemma run_listeners_promise (ls : list listener) (st : state) :
  promise_inv st -> promise_inv (fold_left (run_listener E) ls st).
Proof.
  revert st. induction ls as [|l ls IH]; intros st Hinv; [exact Hinv|].
  cbn [fold_left]. apply IH. destruct l as [id|].
  - exact Hinv.
  - apply analysis_handler_promise. exact Hinv.
Qed.

Lemma step_promise (st : state) (e : event) :
  promise_inv st -> promise_inv (step E excluded isAnalysis st e).
Proof.
  intros Hinv. destruct e as [chunk| | |name|]; cbn [step].
  - unfold on_chunk, is_running. destruct (loop st) eqn:Hl; try exact Hinv.
    apply payloads_loop_promise; assumption.
  - unfold is_running. destruct (loop st) eqn:Hl; try exact Hinv.
    destruct Hinv as [Hset _].
    destruct (DecoderFacts.cleanup_fields isAnalysis st)
      as (Hd & _ & _ & _ & _ & Hs & _).
    destruct (DecoderFacts.resolve_fields (data (cleanup isAnalysis st))
                (cleanup isAnalysis st)) as (Hd2 & _).
    pose proof (DecoderFacts.resolve_settled (data (cleanup isAnalysis st))
                  (cleanup isAnalysis st)) as Hs2.
    split; cbn [settled data loop with_loop].
    + intros v Hv. rewrite Hs2, Hs, Hd in Hv. rewrite Hd2, Hd.
      split; [|right; discriminate].
      destruct (settled st) as [x|] eqn:Hx.
      * destruct (Hset x eq_refl) as [Hdx _]. congruence.
      * congruence.
    + intros _. rewrite Hs2. destruct (settled (cleanup isAnalysis st));
        discriminate.
  - unfold is_running. destruct (loop st) eqn:Hl; try exact Hinv.
    destruct Hinv as [Hset _]. split; cbn.
    + intros v Hv. destruct (Hset v Hv) as [Hd _].
      split; [exact Hd|right; discriminate].
    + intros H. discriminate H.
  - destruct (existsb (str_eqb name) stopTextStreamKeys); [|exact Hinv].
    destruct Hinv as [Hset Hret]. split; cbn.
    + intros v Hv. destruct (Hset v Hv) as [Hd _].
      split; [exact Hd|left; reflexivity].
    + exact Hret.
  - destruct (sigint_listeners st) as [|l ls] eqn:Hls.
    + destruct Hinv as [Hset _]. split; cbn.
      * intros v Hv. destruct (Hset v Hv) as [Hd _].
        split; [exact Hd|right; discriminate].
      * intros H. discriminate H.
    + apply run_listeners_promise. exact Hinv.
Qed.

Lemma run_promise (events : list event) (st : state) :
  promise_inv st -> promise_inv (run E excluded isAnalysis st events).
Proof.
  revert st. induction events as [|e events IH]; intros st Hinv.
  - exact Hinv.
  - cbn [run fold_left]. apply IH. apply step_promise. exact Hinv.
Qed.

Lemma readData_promise (listeners : list nat) (events : list event) :
  promise_inv (readData E excluded isAnalysis listeners events).
Proof.
  apply run_promise. apply promise_unsettled; [reflexivity|discriminate].
Qed.

(** X9.  A read whose loop was left by [return], on the completion marker, on
    the stop flag or at the end of the stream, has resolved its promise,
    and the value is the accumulated text. *)
Theorem returned_read_is_settled
  (listeners : list nat) (events : list event) :
  let st := readData E excluded isAnalysis listeners events in
  loop st = Returned -> settled st = Some (data st).
Proof.
  intros st Hret.
  destruct (readData_promise listeners events) as [Hset Hsome].
  fold st in Hset, Hsome.
  destruct (settled st) as [v|] eqn:Hs.
  - destruct (Hset v eq_refl) as [Hd _]. rewrite Hd. reflexivity.
  - contradiction (Hsome Hret). reflexivity.
Qed.

(** Once settled, a step keeps the promise, the text and the fragments
    written. *)
Lemma settled_step (st : state) (e : event) (v : jsstring) :
  promise_inv st -> settled st = Some v ->
  settled (step E excluded isAnalysis st e) = Some v
  /\ fragment_writes (step E excluded isAnalysis st e) = fragment_writes st.
Proof.
  intros [Hset _] Hs.
  assert (Hquiet : (forall chunk, e <> Chunk chunk) ->
                   settled (step E excluded isAnalysis st e) = Some v
                   /\ fragment_writes (step E excluded isAnalysis st e)
                      = fragment_writes st).
  { intros Hnc.
    destruct (@DecoderFacts.step_quiet E excluded isAnalysis st e Hnc)
      as (_ & _ & _ & Hw & Hp & _).
    split; [apply Hp; exact Hs|exact Hw]. }
  destruct e as [chunk| | | |];
    try (apply Hquiet; intros c Hc; discriminate Hc).
  clear Hquiet.
  cbn [step]. unfold on_chunk, is_running.
  destruct (loop st) eqn:Hl; try (split; [exact Hs|reflexivity]).
  destruct (Hset v Hs) as [_ [Hstop|Hne]];
    [|contradiction Hne; reflexivity].
  rewrite DecoderFacts.payloads_loop_stopped;
    [|apply DecoderFacts.split_delimiter_nonempty|exact Hstop].
  destruct (DecoderFacts.finish_fields E isAnalysis st)
    as (_ & _ & _ & Hw & Hs' & _).
  rewrite Hs', Hs. split; [reflexivity|exact Hw].
Qed.

(** X10.  The promise settles once: whatever the stream, the keyboard and the
    signals bring after the promise has settled with [v], the promise
    holds [v], the accumulated text is [v], and the writer receives no
    further decoded fragment. *)
Theorem settled_read_is_final
  (listeners : list nat) (events more : list event) (v : jsstring) :
  settled (readData E excluded isAnalysis listeners events) = Some v ->
  let st' := readData E excluded isAnalysis listeners (events ++ more) in
  settled st' = Some v
  /\ data st' = v
  /\ fragment_writes st'
     = fragment_writes (readData E excluded isAnalysis listeners events).
Proof.
  intros Hs st'. unfold st', readData.
  rewrite DecoderFacts.run_app.
  fold (readData E excluded isAnalysis listeners events).
  pose proof (readData_promise listeners events) as Hinv.
  revert Hs Hinv.
  generalize (readData E excluded isAnalysis listeners events) as st.
  induction more as [|e more IH]; intros st Hs Hinv.
  - cbn. destruct Hinv as [Hset _]. destruct (Hset v Hs) as [Hd _].
    repeat split; assumption.
  - cbn [run fold_left].
    destruct (@settled_step st e v Hinv Hs) as [Hs1 Hw1].
    destruct (IH (step E excluded isAnalysis st e) Hs1
                (step_promise e Hinv)) as (Hs2 & Hd2 & Hw2).
    repeat split; [exact Hs2|exact Hd2|].
    etransitivity; [exact Hw2|exact Hw1].
Qed.

End Promise.

Lemma returned_read_is_settled_witness :
  settled (readData plain_env [] false []
             [Chunk (content_chunk [u "ls"; u " -la"]); StreamEnd])
  = Some (u "ls -la").
Proof.
  exact (@returned_read_is_settled plain_env [] false []
           [Chunk (content_chunk [u "ls"; u " -la"]); StreamEnd] eq_refl).
Defined.

Lemma settled_read_is_final_witness :
  let st' :=
    readData plain_env [] true [7]
      ([Chunk (content_chunk [u "ls"]); Sigint]
         ++ [Chunk (content_chunk [u " -la"]); Sigint; StreamEnd]) in
  settled st' = Some (u "ls") /\ data st' = u "ls"
  /\ fragment_writes st' = [u "ls"].
Proof.
  exact (@settled_read_is_final plain_env [] true [7]
           [Chunk (content_chunk [u "ls"]); Sigint]
           [Chunk (content_chunk [u " -la"]); Sigint; StreamEnd]
           (u "ls") eq_refl).
Defined.

(** *** The SIGINT listeners of the process *)

(** [process.listeners('SIGINT').pop()] at the start of a read in analysis
    mode, and the listeners [cleanup] registers again. *)
Definition taken_over (listeners : list nat) : option listener :=
  match listeners with
  | [] => None
  | id :: ids => Some (Prior (last ids id))
  end.

Definition restored (listeners : list nat) : list listener :=
  match taken_over listeners with
  | Some h => [h]
  | None => []
  end.

(** The deliveries of SIGINT in a schedule. *)
Definition interrupts (events : list event) : nat :=
  length (filter (fun e => match e with Sigint => true | _ => false end)
            events).

Definition unreturned (st : state) : Prop :=
  loop st = Running \/ loop st = Threw \/ loop st = Untyped.

Section Listeners.

Variable E : Env.
Variable excluded : list pattern.

(** From [st] to [st'] the process and the promise are as they were, and
    the loop has not been left by [return]. *)
Definition kept (st st' : state) : Prop :=
  sigint_listeners st' = sigint_listeners st
  /\ invoked st' = invoked st
  /\ originalSigintHandler st' = originalSigintHandler st
  /\ settled st' = settled st
  /\ unreturned st'.

Lemma kept_trans (a b c : state) : kept a b -> kept b c -> kept a c.
Proof.
  intros (H1 & H2 & H3 & H4 & _) (H1' & H2' & H3' & H4' & Hl).
  unfold kept. repeat split; first [congruence | exact Hl].
Qed.

Lemma emit_kept (c : jsstring) (st : state) :
  unreturned st -> kept st (emit excluded c st).
Proof.
  intros Hl. unfold emit, kept, unreturned.
  destruct (dataStart st && truthy c); cbn; repeat split; auto.
Qed.

(** One payload either takes the branch of the completion marker and the
    stop flag, or leaves the process and the promise alone. *)
Lemma payload_step_cases (isAnalysis : bool) (payload : jsstring)
  (st : state) :
  loop st = Running ->
  let st' := fst (payload_step E excluded isAnalysis payload st) in
  st' = finish E isAnalysis st \/ kept st st'.
Proof.
  intros Hrun. unfold payload_step.
  assert (Hst : kept st st).
  { unfold kept, unreturned. repeat split; auto. }
  destruct (includes payload (u "[DONE]") || stopTextStream st);
    [left; reflexivity|right].
  destruct (startsWith payload (u "data:")); [|exact Hst].
  destruct (parseContent E payload) as [c|v].
  2:{ unfold kept, unreturned. cbn. repeat split; auto. }
  destruct (negb (dataStart st)).
  - cbn [buffer with_buffer].
    destruct (match_prefix E excluded (buffer st ++ c)) as [[|]|].
    + destruct (pattern_truthy (excludedPrefix excluded)); cbn [fst].
      * unfold kept, unreturned. cbn. repeat split; auto.
      * eapply kept_trans; [|apply emit_kept].
        -- unfold kept, unreturned. cbn. repeat split; auto.
        -- unfold unreturned. cbn. auto.
    + cbn [fst]. eapply kept_trans; [|apply emit_kept].
      * unfold kept, unreturned. cbn. repeat split; auto.
      * unfold unreturned. cbn. auto.
    + unfold kept, unreturned. cbn. repeat split; auto.
  - cbn [fst]. apply emit_kept. unfold unreturned. auto.
Qed.

Lemma payloads_loop_cases (isAnalysis : bool) (payloads : list jsstring)
  (st : state) :
  loop st = Running ->
  let st' := payloads_loop E excluded isAnalysis payloads st in
  (exists st0, kept st st0 /\ st' = finish E isAnalysis st0)
  \/ kept st st'.
Proof.
  revert st. induction payloads as [|p ps IH]; intros st Hrun.
  - right. unfold kept, unreturned. cbn. repeat split; auto.
  - cbn [payloads_loop].
    assert (Hst : kept st st).
    { unfold kept, unreturned. repeat split; auto. }
    pose proof (@payload_step_cases isAnalysis p st Hrun) as Hcases.
    destruct (payload_step E excluded isAnalysis p st) as [st1 broke].
    cbn [fst] in Hcases.
    assert (Hstop : (exists st0, kept st st0
                                 /\ st1 = finish E isAnalysis st0)
                    \/ kept st st1).
    { destruct Hcases as [->|Hk]; [left; exists st; auto|right; exact Hk]. }
    destruct broke; cbn [orb]; [exact Hstop|].
    unfold is_running. destruct (loop st1) eqn:Hl; cbn [negb];
      try exact Hstop.
    destruct Hcases as [->|Hk].
    { destruct (DecoderFacts.finish_fields E isAnalysis st) as (Hf & _).
      rewrite Hf in Hl. discriminate Hl. }
    destruct (IH st1 Hl) as [(st0 & Hk0 & Heq)|Hk1].
    + left. exists st0. split; [eapply kept_trans; eassumption|exact Heq].
    + right. eapply kept_trans; eassumption.
Qed.

Lemma run_priors (ids : list nat) (st : state) :
  fold_left (run_listener E) (map Prior ids) st
  = with_invoked (invoked st ++ map Prior ids) st.
Proof.
  revert st. induction ids as [|id ids IH]; intros st.
  - cbn. rewrite app_nil_r. destruct st; reflexivity.
  - cbn [map fold_left run_listener]. rewrite IH.
    cbn. rewrite <- app_assoc. reflexivity.
Qed.

(** **** Analysis mode *)

Lemma finish_analysis (st : state) :
  let st' := finish E true st in
  loop st' = Returned
  /\ sigint_listeners st'
     = match originalSigintHandler st with Some h => [h] | None => [] end
  /\ originalSigintHandler st' = originalSigintHandler st
  /\ invoked st' = invoked st.
Proof.
  destruct st as [stop user d ds b o l s w ls inv].
  unfold finish, cleanup, resolve, write. cbn.
  destruct user, s; cbn; repeat split; reflexivity.
Qed.

Definition analysis_inv (listeners : list nat) (st : state) : Prop :=
  originalSigintHandler st = taken_over listeners
  /\ (unreturned st ->
      sigint_listeners st = [AnalysisHandler] /\ invoked st = [])
  /\ (loop st = Returned \/ loop st = Exited ->
      sigint_listeners st = restored listeners).

Lemma analysis_inv_kept (listeners : list nat) (st st' : state) :
  unreturned st -> analysis_inv listeners st -> kept st st' ->
  analysis_inv listeners st'.
Proof.
  intros Hun (Ho & Hls & _) (H1 & H2 & H3 & _ & Hl).
  unfold analysis_inv. rewrite H1, H2, H3.
  split; [exact Ho|split]; [intros _; exact (Hls Hun)|].
  intros [Hr|Hr]; destruct Hl as [Hl|[Hl|Hl]]; congruence.
Qed.

Lemma analysis_inv_finish (listeners : list nat) (st : state) :
  originalSigintHandler st = taken_over listeners ->
  analysis_inv listeners (finish E true st).
Proof.
  intros Ho. destruct (finish_analysis st) as (Hl & Hls & Ho' & _).
  unfold analysis_inv. rewrite Hl, Hls, Ho', Ho.
  split; [reflexivity|split].
  - intros [H|[H|H]]; discriminate H.
  - intros _. reflexivity.
Qed.

Lemma step_analysis_inv (listeners : list nat) (st : state) (e : event) :
  analysis_inv listeners st ->
  analysis_inv listeners (step E excluded true st e).
Proof.
  intros Hinv. pose proof Hinv as (Ho & Hls & Hres).
  destruct e as [chunk| | |name|]; cbn [step].
  - unfold on_chunk, is_running. destruct (loop st) eqn:Hl; try exact Hinv.
    assert (Hun : unreturned st) by (left; exact Hl).
    destruct (@payloads_loop_cases true (split chunk (nl ++ nl)) st Hl)
      as [(st0 & Hk & ->)|Hk].
    + apply analysis_inv_finish.
      destruct Hk as (_ & _ & Ho0 & _). rewrite Ho0. exact Ho.
    + apply (analysis_inv_kept Hun Hinv Hk).
  - unfold is_running. destruct (loop st) eqn:Hl; try exact Hinv.
    destruct st as [stop user d ds b o l s w ls inv].
    cbn in Ho. unfold analysis_inv, cleanup, resolve, unreturned.
    cbn. destruct s; cbn; rewrite Ho; (split; [reflexivity|split]);
      try (intros [H|[H|H]]; discriminate H); intros _; reflexivity.
  - unfold is_running. destruct (loop st) eqn:Hl; try exact Hinv.
    assert (Hun : unreturned st) by (left; exact Hl).
    unfold analysis_inv, unreturned. cbn.
    split; [exact Ho|split]; [intros _; exact (Hls Hun)|].
    intros [H|H]; discriminate H.
  - destruct (existsb (str_eqb name) stopTextStreamKeys); exact Hinv.
  - destruct (loop st) eqn:Hl.
    1,3,4:
      (assert (Hun : unreturned st)
         by (unfold unreturned; rewrite Hl; auto);
       destruct (Hls Hun) as [Hl1 Hl2]; rewrite Hl1;
       cbn [fold_left run_listener];
       destruct st as [stop user d ds b o l s w ls inv];
       cbn in Ho, Hl, Hl1, Hl2; subst;
       unfold analysis_inv, analysis_handler, resolve, write, unreturned;
       cbn; destruct s; cbn;
       (split; [reflexivity|split]);
       [intros _; split; reflexivity|intros [H|H]; discriminate H
       |intros _; split; reflexivity|intros [H|H]; discriminate H]).
    + assert (Hr : sigint_listeners st = restored listeners)
        by (apply Hres; left; reflexivity).
      rewrite Hr. unfold restored, taken_over in *.
      destruct listeners as [|id ids].
      * unfold analysis_inv, unreturned. cbn.
        split; [exact Ho|split]; [intros [H|[H|H]]; discriminate H|].
        intros _. exact Hr.
      * cbn [fold_left run_listener].
        unfold analysis_inv, unreturned. cbn. rewrite Hl.
        split; [exact Ho|split]; [intros [H|[H|H]]; discriminate H|].
        intros _. exact Hr.
    + assert (Hr : sigint_listeners st = restored listeners)
        by (apply Hres; right; reflexivity).
      rewrite Hr. unfold restored, taken_over in *.
      destruct listeners as [|id ids].
      * unfold analysis_inv, unreturned. cbn.
        split; [exact Ho|split]; [intros [H|[H|H]]; discriminate H|].
        intros _. exact Hr.
      * cbn [fold_left run_listener].
        unfold analysis_inv, unreturned. cbn. rewrite Hl.
        split; [exact Ho|split]; [intros [H|[H|H]]; discriminate H|].
        intros _. exact Hr.
Qed.

Lemma readData_analysis_inv (listeners : list nat) (events : list event) :
  analysis_inv listeners (readData E excluded true listeners events).
Proof.
  unfold readData.
  assert (Hstart : analysis_inv listeners (start true listeners)).
  { unfold analysis_inv, unreturned. cbn.
    split; [reflexivity|split]; [intros _; split; reflexivity|].
    intros [H|H]; discriminate H. }
  revert Hstart. generalize (start true listeners) as st.
  induction events as [|e events IH]; intros st Hinv; [exact Hinv|].
  cbn [run fold_left]. apply IH. apply step_analysis_inv. exact Hinv.
Qed.

(** X11.  In analysis mode, as long as the loop has not been left by [return],
    the handler of the read is the only SIGINT listener of the process and
    no listener registered before the read has been run; once the loop has
    returned, the listener registered is the last of those the process had
    before the read, and the others are gone. *)
Theorem analysis_mode_sigint_listeners
  (listeners : list nat) (events : list event) :
  let st := readData E excluded true listeners events in
  (loop st = Running \/ loop st = Threw \/ loop st = Untyped ->
   sigint_listeners st = [AnalysisHandler] /\ invoked st = [])
  /\ (loop st = Returned ->
      sigint_listeners st
      = match listeners with
        | [] => []
        | id :: ids => [Prior (last ids id)]
        end).
Proof.
  intros st.
  destruct (readData_analysis_inv listeners events) as (_ & Hls & Hres).
  fold st in Hls, Hres. split; [exact Hls|].
  intros Hr. rewrite Hres by (left; exact Hr).
  destruct listeners; reflexivity.
Qed.

(** X12.  The interrupt of the analysis mode, followed to the end: SIGINT is
    delivered while the loop runs; after key presses, if any, the stream
    yields its next chunk or ends.  The promise holds the text accumulated
    before the interrupt, the listener taken over at the start is back,
    and the writer has received the notice of the stop and, when a chunk
    came, the notice of the completion; nothing of that chunk is
    decoded. *)
Theorem interrupt_then_next_chunk
  (listeners : list nat) (pre mid : list event) (chunk : jsstring) :
  let st := readData E excluded true listeners pre in
  loop st = Running ->
  Forall DecoderFacts.is_keypress mid ->
  let stopped :=
    Notice (nl ++ nl ++ yellow E (i18n_t E (u "Analysis stopped")) ++ nl) in
  let complete :=
    Notice (nl ++ yellow E (i18n_t E (u "Analysis complete")) ++ nl) in
  let by_chunk :=
    readData E excluded true listeners
      (pre ++ Sigint :: mid ++ [Chunk chunk]) in
  let by_end :=
    readData E excluded true listeners (pre ++ Sigint :: mid ++ [StreamEnd])
  in
  (settled by_chunk = Some (data st)
   /\ written by_chunk = written st ++ [stopped; complete]
   /\ sigint_listeners by_chunk = restored listeners
   /\ loop by_chunk = Returned)
  /\ (settled by_end = Some (data st)
      /\ written by_end = written st ++ [stopped]
      /\ sigint_listeners by_end = restored listeners
      /\ loop by_end = Returned).
Proof.
  intros st Hrun Hmid stopped complete by_chunk by_end.
  destruct (readData_analysis_inv listeners pre) as (Ho & Hls & _).
  destruct (readData_promise E excluded true listeners pre) as [Hset _].
  fold st in Ho, Hls, Hset.
  destruct (Hls (or_introl Hrun)) as [Hl1 _].
  assert (Hsig : step E excluded true st Sigint = analysis_handler E st).
  { cbn [step]. rewrite Hl1. reflexivity. }
  assert (Hstop : stopTextStream (analysis_handler E st) = true).
  { unfold analysis_handler, resolve. cbn.
    destruct (settled st); reflexivity. }
  assert (Hloop : loop (analysis_handler E st) = Running).
  { unfold analysis_handler, resolve. cbn.
    destruct (settled st); exact Hrun. }
  assert (Hev : forall next,
             readData E excluded true listeners
               (pre ++ Sigint :: mid ++ [next])
             = step E excluded true (analysis_handler E st) next).
  { intros next. unfold readData. rewrite DecoderFacts.run_app.
    fold (readData E excluded true listeners pre). fold st.
    cbn [run fold_left]. rewrite Hsig.
    change (fold_left (step E excluded true) (mid ++ [next])
              (analysis_handler E st))
      with (run E excluded true (analysis_handler E st) (mid ++ [next])).
    rewrite DecoderFacts.run_app.
    rewrite (@DecoderFacts.keypresses_keep_stop E excluded true mid
               (analysis_handler E st) Hstop Hmid).
    reflexivity. }
  assert (Hdata : forall v, settled st = Some v -> v = data st).
  { intros v Hv. destruct (Hset v Hv) as [Hd _]. symmetry. exact Hd. }
  unfold by_chunk, by_end. rewrite !Hev. clear Hev.
  assert (Hchunk : step E excluded true (analysis_handler E st) (Chunk chunk)
                   = finish E true (analysis_handler E st)).
  { cbn [step]. unfold on_chunk, is_running. rewrite Hloop.
    apply DecoderFacts.payloads_loop_stopped;
      [apply DecoderFacts.split_delimiter_nonempty|exact Hstop]. }
  rewrite Hchunk.
  assert (Hend : step E excluded true (analysis_handler E st) StreamEnd
                 = with_loop Returned
                     (resolve (data (cleanup true (analysis_handler E st)))
                        (cleanup true (analysis_handler E st)))).
  { cbn [step]. unfold is_running. rewrite Hloop. reflexivity. }
  rewrite Hend.
  unfold restored. rewrite <- Ho.
  clearbody st. clear Hchunk Hend Hsig Hstop Hloop Hls Hset.
  unfold stopped, complete.
  destruct st as [stop user d ds b o l s w ls inv].
  cbn in Hdata, Hrun, Hl1 |- *.
  unfold finish, analysis_handler, cleanup, resolve, write. cbn.
  destruct s as [v|]; cbn.
  - rewrite (Hdata v eq_refl). rewrite <- !app_assoc.
    repeat split; reflexivity.
  - rewrite <- !app_assoc. repeat split; reflexivity.
Qed.

(** **** Outside the analysis mode *)

Lemma finish_default (st : state) :
  let st' := finish E false st in
  loop st' = Returned
  /\ sigint_listeners st' = sigint_listeners st
  /\ invoked st' = invoked st.
Proof.
  destruct st as [stop user d ds b o l s w ls inv].
  unfold finish, cleanup, resolve, write. cbn.
  destruct user, s; cbn; repeat split; reflexivity.
Qed.

Lemma concat_repeat_S (A : Type) (l : list A) (n : nat) :
  concat (repeat l (S n)) = concat (repeat l n) ++ l.
Proof.
  induction n as [|n IH]; [cbn; rewrite app_nil_r; reflexivity|].
  change (concat (repeat l (S (S n)))) with (l ++ concat (repeat l (S n))).
  rewrite IH at 1. rewrite app_assoc. reflexivity.
Qed.

Definition default_inv (listeners : list nat) (n : nat) (st : state)
  : Prop :=
  sigint_listeners st = map Prior listeners
  /\ invoked st = concat (repeat (map Prior listeners) n)
  /\ (unreturned st -> settled st = None).

Lemma step_default_inv (listeners : list nat) (n : nat) (st : state)
  (e : event) :
  default_inv listeners n st ->
  default_inv listeners (n + interrupts [e]) (step E excluded false st e).
Proof.
  intros Hinv. pose proof Hinv as (Hls & Hi & Hs).
  destruct e as [chunk| | |name|]; cbn [step interrupts filter length];
    rewrite ?Nat.add_0_r.
  - unfold on_chunk, is_running. destruct (loop st) eqn:Hl; try exact Hinv.
    assert (Hun : unreturned st) by (left; exact Hl).
    destruct (@payloads_loop_cases false (split chunk (nl ++ nl)) st Hl)
      as [(st0 & Hk & ->)|Hk].
    + destruct (finish_default st0) as (Hl0 & Hls0 & Hi0).
      destruct Hk as (H1 & H2 & _).
      unfold default_inv. rewrite Hls0, Hi0, H1, H2.
      split; [exact Hls|split]; [exact Hi|].
      intros [H|[H|H]]; rewrite Hl0 in H; discriminate H.
    + destruct Hk as (H1 & H2 & _ & H4 & Hl').
      unfold default_inv. rewrite H1, H2, H4.
      split; [exact Hls|split]; [exact Hi|].
      intros _. exact (Hs Hun).
  - unfold is_running. destruct (loop st) eqn:Hl; try exact Hinv.
    unfold default_inv, cleanup, resolve, unreturned.
    destruct (settled st); cbn;
      (split; [exact Hls|split]; [exact Hi|]);
      intros [H|[H|H]]; discriminate H.
  - unfold is_running. destruct (loop st) eqn:Hl; try exact Hinv.
    unfold default_inv. cbn.
    split; [exact Hls|split]; [exact Hi|].
    intros _. apply Hs. left. exact Hl.
  - destruct (existsb (str_eqb name) stopTextStreamKeys); exact Hinv.
  - rewrite Nat.add_1_r. unfold default_inv. rewrite concat_repeat_S, Hls.
    destruct listeners as [|id ids].
    + cbn [map]. unfold unreturned. cbn. rewrite app_nil_r.
      split; [exact Hls|split]; [exact Hi|].
      intros [H|[H|H]]; discriminate H.
    + cbn [map]. cbv iota.
      change (Prior id :: map Prior ids) with (map Prior (id :: ids)).
      rewrite run_priors. unfold unreturned.
      cbn [sigint_listeners invoked with_invoked loop settled].
      rewrite Hi. split; [exact Hls|split]; [reflexivity|exact Hs].
Qed.

Lemma run_default_inv (listeners : list nat) (events : list event)
  (n : nat) (st : state) :
  default_inv listeners n st ->
  default_inv listeners (n + interrupts events)
    (run E excluded false st events).
Proof.
  revert n st. induction events as [|e events IH]; intros n st Hinv.
  - cbn. rewrite Nat.add_0_r. exact Hinv.
  - cbn [run fold_left].
    replace (n + interrupts (e :: events))
      with ((n + interrupts [e]) + interrupts events).
    + apply IH. apply step_default_inv. exact Hinv.
    + unfold interrupts. cbn [filter]. destruct e; cbn [length]; lia.
Qed.

(** X13.  Outside the analysis mode a read leaves the SIGINT listeners of the
    process alone: they are the ones registered before the read, each
    delivery of SIGINT runs all of them, in order, and the promise is
    settled by no other way than a [return] of the loop. *)
Theorem default_mode_sigint_listeners
  (listeners : list nat) (events : list event) :
  let st := readData E excluded false listeners events in
  sigint_listeners st = map Prior listeners
  /\ invoked st
     = concat (repeat (map Prior listeners) (interrupts events))
  /\ (loop st = Running \/ loop st = Threw \/ loop st = Untyped ->
      settled st = None).
Proof.
  apply (@run_default_inv listeners events 0 (start false listeners)).
  unfold default_inv. cbn. repeat split; reflexivity.
Qed.

End Listeners.

Lemma interrupt_then_next_chunk_witness :
  let by_chunk :=
    readData plain_env [] true [7; 8]
      ([Chunk (content_chunk [u "ls"])]
         ++ Sigint :: [Keypress (u "x")]
         ++ [Chunk (content_chunk [u " -la"])]) in
  settled by_chunk = Some (u "ls")
  /\ written by_chunk
     = [Fragment (u "ls");
        Notice (nl ++ nl ++ u "Analysis stopped" ++ nl);
        Notice (nl ++ u "Analysis complete" ++ nl)]
  /\ sigint_listeners by_chunk = [Prior 8].
Proof.
  cbv zeta.
  destruct (@interrupt_then_next_chunk plain_env [] [7; 8]
              [Chunk (content_chunk [u "ls"])] [Keypress (u "x")]
              (content_chunk [u " -la"]) eq_refl)
    as ((Hs & Hw & Hls & _) & _).
  - repeat constructor.
  - rewrite Hs, Hw, Hls. repeat split; reflexivity.
Defined.

(** *** The start marker of the script readers *)

(** The code units [[a-zA-Z]] stands for. *)
Definition ascii_letter (c : N) : Prop :=
  (65 <= c <= 90)%N \/ (97 <= c <= 122)%N.

Lemma letters_class (c : N) :
  class_mem true [(97, 122); (65, 90)]%N c = true <-> ascii_letter c.
Proof.
  unfold class_mem, in_ranges, ascii_letter. cbn [existsb fst snd andb orb].
  repeat match goal with
         | |- context [(?a <=? ?b)%N] => destruct (N.leb_spec a b)
         end;
    cbn; split; intros Hc; try reflexivity; try discriminate Hc; lia.
Qed.

Lemma canonicalize_below_letters (c x : N) :
  (c < 65)%N \/ (90 < c < 97)%N ->
  (canonicalize true x =? canonicalize true c)%N = (x =? c)%N.
Proof.
  intros Hc. unfold canonicalize. cbn [andb].
  destruct (N.leb_spec 97 c), (N.leb_spec c 122), (N.leb_spec 97 x),
    (N.leb_spec x 122); cbn [andb]; try lia; try reflexivity.
  destruct (N.eqb_spec (x - 32) c), (N.eqb_spec x c); try reflexivity; lia.
Qed.

(** What must follow the three backticks: letters, then a newline. *)
Fixpoint tag_end (rest : jsstring) : bool :=
  match rest with
  | [] => false
  | x :: rest' =>
      if class_mem true [(97, 122); (65, 90)]%N x then tag_end rest'
      else (x =? 10)%N
  end.

Lemma tag_end_spec (rest : jsstring) :
  tag_end rest = true
  <-> exists tag after,
        rest = tag ++ nl ++ after /\ Forall ascii_letter tag.
Proof.
  induction rest as [|x rest IH]; cbn [tag_end].
  - split; [intros H; discriminate H|].
    intros (tag & after & Heq & _). destruct tag; discriminate Heq.
  - destruct (class_mem true [(97, 122); (65, 90)]%N x) eqn:Hx.
    + apply letters_class in Hx. rewrite IH. split.
      * intros (tag & after & -> & Htag).
        exists (x :: tag), after. split; [reflexivity|].
        constructor; assumption.
      * intros (tag & after & Heq & Htag).
        destruct tag as [|y tag].
        -- cbn in Heq. inversion Heq; subst.
           unfold ascii_letter in Hx. lia.
        -- cbn in Heq. inversion Heq; subst.
           exists tag, after. split; [reflexivity|].
           inversion Htag; assumption.
    + split.
      * intros Hn. apply N.eqb_eq in Hn. subst x.
        exists [], rest. split; [reflexivity|constructor].
      * intros (tag & after & Heq & Htag).
        destruct tag as [|y tag].
        -- cbn in Heq. inversion Heq. reflexivity.
        -- cbn in Heq. inversion Heq; subst.
           inversion Htag as [|? ? Hy _]; subst.
           apply letters_class in Hy. congruence.
Qed.

(** The iterations of [[a-zA-Z]*] in the first exclusion pattern of the
    script readers, followed by the newline. *)
Definition tag_loop : nat -> nat -> jsstring -> option nat :=
  fix loop (fuel pos : nat) (rest : jsstring) {struct fuel} : option nat :=
    match fuel with
    | O => m true (RChar 10) pos rest (fun p _ => Some p)
    | S f =>
        match m true letters pos rest
                (fun p r' => if p =? pos then None else loop f p r') with
        | Some e => Some e
        | None => m true (RChar 10) pos rest (fun p _ => Some p)
        end
    end.

Lemma newline_next (pos : nat) (rest : jsstring) :
  m true (RChar 10) pos rest (fun p _ => Some p)
  = match rest with
    | x :: _ => if (x =? 10)%N then Some (S pos) else None
    | [] => None
    end.
Proof.
  destruct rest as [|x rest]; [reflexivity|].
  cbn [m]. rewrite canonicalize_below_letters by lia. reflexivity.
Qed.

Lemma tag_loop_spec (fuel pos : nat) (rest : jsstring) :
  length rest <= fuel ->
  (tag_loop fuel pos rest <> None <-> tag_end rest = true).
Proof.
  revert pos rest. induction fuel as [|f IH]; intros pos rest Hlen.
  - destruct rest; [|cbn in Hlen; lia].
    cbn. split; [intros H; contradiction H; reflexivity|].
    intros H; discriminate H.
  - destruct rest as [|x rest].
    + cbn. split; [intros H; contradiction H; reflexivity
                  |intros H; discriminate H].
    + change (tag_loop (S f) pos (x :: rest))
        with (match (if class_mem true [(97, 122); (65, 90)]%N x
                     then (if S pos =? pos then None
                           else tag_loop f (S pos) rest)
                     else None) with
              | Some e => Some e
              | None => m true (RChar 10) pos (x :: rest) (fun p _ => Some p)
              end).
      rewrite newline_next. cbn [tag_end].
      replace (S pos =? pos) with false
        by (symmetry; apply Nat.eqb_neq; lia).
      destruct (class_mem true [(97, 122); (65, 90)]%N x) eqn:Hx.
      * assert (Hnl : (x =? 10)%N = false).
        { apply letters_class in Hx. unfold ascii_letter in Hx.
          apply N.eqb_neq. lia. }
        rewrite Hnl. cbn in Hlen.
        rewrite <- (IH (S pos) rest) by lia.
        destruct (tag_loop f (S pos) rest); split; intros H; congruence.
      * destruct (x =? 10)%N; split; intros H; congruence.
Qed.

Lemma match_at_fence_line (pos : nat) (rest : jsstring) :
  match_at fence_line pos rest <> None
  <-> exists rest',
        rest = fence_text ++ rest' /\ tag_end rest' = true.
Proof.
  assert (Hbt : forall x, (canonicalize true x =? canonicalize true 96)%N
                          = (x =? 96)%N).
  { intros x. apply canonicalize_below_letters. lia. }
  unfold match_at, fence_line, fence_text.
  cbn [source ignoreCase literal].
  destruct rest as [|a [|b [|c rest']]].
  1-3: (cbn [m]; rewrite ?Hbt;
        repeat match goal with
               | |- context [(?x =? 96)%N] => destruct (x =? 96)%N
               end;
        (split; [intros H; contradiction H; reflexivity|]);
        intros (r & Heq & _); discriminate Heq).
  cbn [m]. rewrite !Hbt.
  destruct (N.eqb_spec a 96) as [->|Ha].
  2:{ split; [intros H; contradiction H; reflexivity|].
      intros (r & Heq & _). inversion Heq. congruence. }
  destruct (N.eqb_spec b 96) as [->|Hb].
  2:{ split; [intros H; contradiction H; reflexivity|].
      intros (r & Heq & _). inversion Heq. congruence. }
  destruct (N.eqb_spec c 96) as [->|Hc].
  2:{ split; [intros H; contradiction H; reflexivity|].
      intros (r & Heq & _). inversion Heq. congruence. }
  change (tag_loop (S (length rest')) (S (S (S pos))) rest' <> None
          <-> (exists r, [96; 96; 96] ++ rest' = [96; 96; 96] ++ r
                         /\ tag_end r = true)%N).
  rewrite tag_loop_spec by lia. split.
  - intros H. exists rest'. split; [reflexivity|exact H].
  - intros (r & Heq & H). inversion Heq. subst. exact H.
Qed.

Lemma search_fence_line (pos : nat) (s : jsstring) :
  search fence_line pos s = true
  <-> exists before rest',
        s = before ++ fence_text ++ rest' /\ tag_end rest' = true.
Proof.
  revert pos. induction s as [|x s IH]; intros pos.
  - cbn [search].
    pose proof (match_at_fence_line pos []) as Hm.
    destruct (match_at fence_line pos []) as [e|].
    + destruct Hm as [Hm _].
      destruct Hm as (r & Heq & _); [discriminate|discriminate Heq].
    + split; [intros H; discriminate H|].
      intros (before & r & Heq & _).
      destruct before; discriminate Heq.
  - cbn [search].
    pose proof (match_at_fence_line pos (x :: s)) as Hm.
    destruct (match_at fence_line pos (x :: s)) as [e|].
    + split; [intros _|reflexivity].
      destruct Hm as [Hm _].
      destruct Hm as (r & Heq & Hr); [discriminate|].
      exists [], r. split; assumption.
    + rewrite IH. split.
      * intros (before & r & -> & Hr).
        exists (x :: before), r. split; [reflexivity|exact Hr].
      * intros (before & r & Heq & Hr).
        destruct before as [|y before].
        -- destruct Hm as [_ Hm]. contradiction Hm; [|reflexivity].
           exists r. split; assumption.
        -- inversion Heq; subst. exists before, r.
           split; [reflexivity|exact Hr].
Qed.

Lemma test_fence_line_spec (buffer : jsstring) :
  Regex.test fence_line buffer = true
  <-> exists before tag after,
        buffer = before ++ fence_text ++ tag ++ nl ++ after
        /\ Forall ascii_letter tag.
Proof.
  unfold Regex.test. rewrite search_fence_line. split.
  - intros (before & r & -> & Hr).
    apply tag_end_spec in Hr. destruct Hr as (tag & after & -> & Htag).
    exists before, tag, after. split; [reflexivity|exact Htag].
  - intros (before & tag & after & -> & Htag).
    exists before, (tag ++ nl ++ after). split; [reflexivity|].
    apply tag_end_spec. exists tag, after. split; [reflexivity|exact Htag].
Qed.

(** X14.  The start of the content of a script reply, as the first pattern of
    [shellCodeExclusions] detects it in the look-behind buffer: three
    backticks, any number of ASCII letters, and a newline right after
    them. *)
Theorem fence_line_is_the_start_marker (E : Env) (buffer : jsstring) :
  match_prefix E shellCodeExclusions buffer = Some true
  <-> exists before tag after,
        buffer = before ++ fence_text ++ tag ++ nl ++ after
        /\ Forall ascii_letter tag.
Proof.
  rewrite <- test_fence_line_spec. cbn [match_prefix excludedPrefix
    shellCodeExclusions]. split.
  - intros H. inversion H. reflexivity.
  - intros ->. reflexivity.
Qed.

Lemma test_fence_line_prefix (s t : jsstring) :
  Regex.test fence_line (s ++ t) = false -> Regex.test fence_line s = false.
Proof.
  intros Hst. destruct (Regex.test fence_line s) eqn:Hs; [|reflexivity].
  apply test_fence_line_spec in Hs.
  destruct Hs as (before & tag & after & -> & Htag).
  assert (Hyes : Regex.test fence_line
                   ((before ++ fence_text ++ tag ++ nl ++ after) ++ t)
                 = true).
  { apply test_fence_line_spec. exists before, tag, (after ++ t).
    split; [|exact Htag]. rewrite <- !app_assoc. reflexivity. }
  congruence.
Qed.

(** X15.  A script reply in which no fence line occurs, over all its content
    fragments taken together, never starts the emission: the script
    readers hand nothing to the writer, and resolve, if they do, with the
    empty text. *)
Theorem reply_without_fence_line_is_empty (E : Env) (isAnalysis : bool)
  (listeners : list nat) (events : list event) :
  Regex.test fence_line (concat (fragments E events)) = false ->
  let st := readData E shellCodeExclusions isAnalysis listeners events in
  fragment_writes st = [] /\ data st = []
  /\ forall v, settled st = Some v -> v = [].
Proof.
  intros Hnone st.
  pose proof (DecoderFacts.readData_inv E shellCodeExclusions isAnalysis
                listeners events []) as Hinv.
  cbn [flat_map] in Hinv. rewrite app_nil_r in Hinv.
  assert (Hst : on_chunk E shellCodeExclusions isAnalysis []
                  (readData E shellCodeExclusions isAnalysis listeners events)
                = st).
  { unfold on_chunk. destruct (is_running _); reflexivity. }
  rewrite Hst in Hinv. destruct Hinv as (Hd & _ & Hs).
  assert (Hw : fragment_writes st = []).
  { destruct Hs as [(k & Hk)|(Hw & _)]; [|exact Hw].
    cbn [match_prefix excludedPrefix shellCodeExclusions] in Hk.
    rewrite <- (firstn_skipn k (fragments E events)), concat_app in Hnone.
    apply test_fence_line_prefix in Hnone. congruence. }
  assert (Hdata : data st = []) by (rewrite Hd, Hw; reflexivity).
  split; [exact Hw|split]; [exact Hdata|].
  intros v Hv.
  destruct (readData_promise E shellCodeExclusions isAnalysis listeners
              events) as [Hset _].
  fold st in Hset. destruct (Hset v Hv) as [Hdv _]. congruence.
Qed.

Lemma reply_without_fence_line_is_empty_witness :
  let st :=
    readData plain_env shellCodeExclusions false []
      [Chunk (content_chunk [u "```bash ls"; u " -la```"]);
       Chunk done_frame] in
  fragment_writes st = [] /\ data st = [] /\ settled st = Some [].
Proof.
  cbv zeta.
  destruct (@reply_without_fence_line_is_empty plain_env false []
              [Chunk (content_chunk [u "```bash ls"; u " -la```"]);
               Chunk done_frame] eq_refl)
    as (Hw & Hd & _).
  rewrite Hw, Hd. repeat split; reflexivity.
Defined.

(** *** A frame cut by a chunk boundary *)

Lemma json_prefix_opening (t l : jsstring) :
  q "{'choices':[{'delta':{'content':'" = t ++ l ->
  JSON_parse (trim t) = None.
Proof.
  intros H.
  remember (q "{'choices':[{'delta':{'content':'") as opening eqn:Hopening.
  vm_compute in Hopening. subst opening.
  repeat match type of H with
         | _ = ?t ++ _ =>
             is_var t;
             destruct t as [|? t];
             [vm_compute; reflexivity
             |cbn [app] in H;
              first [discriminate H
                    |let Hx := fresh "Hx" in
                     injection H as Hx H; subst]]
         end.
Qed.

Lemma lex_string_escape_prefix (x : N) (t l acc : jsstring) (n : nat) :
  escape_unit x = t ++ l -> l <> [] -> lex_string t acc n = None.
Proof.
  unfold escape_unit. intros H Hl.
  repeat match type of H with
         | (if ?b then _ else _) = _ => destruct b eqn:?
         end;
    repeat match type of H with
           | _ = ?t ++ _ =>
               is_var t;
               destruct t as [|? t];
               [try reflexivity
               |cbn [app] in H;
                first [discriminate H
                      |let Hx := fresh "Hx" in
                       injection H as Hx H; subst]]
           end.
  all: try (cbn [app] in H; subst l; contradiction Hl; reflexivity).
Qed.

Lemma lex_string_prefix_none (c t l acc : jsstring) (n : nat) :
  json_escape c = t ++ l -> lex_string t acc n = None.
Proof.
  revert t l acc n. induction c as [|x c IH]; intros t l acc n H.
  - cbn in H. symmetry in H. apply app_eq_nil in H. destruct H as [-> _].
    reflexivity.
  - cbn [json_escape flat_map] in H. fold (json_escape c) in H.
    apply app_eq_app in H.
    destruct H as (mid & [[Hesc Hl]|[Ht Hrest]]).
    + destruct mid as [|y mid].
      * rewrite app_nil_r in Hesc. subst t.
        rewrite <- (app_nil_r (escape_unit x)).
        rewrite lex_string_escape_unit. reflexivity.
      * apply (@lex_string_escape_prefix x t (y :: mid)); [exact Hesc|].
        discriminate.
    + subst t. rewrite lex_string_escape_unit.
      apply (IH mid l). exact Hrest.
Qed.

Lemma trimStart_app_stop (a s : jsstring) (x : N) :
  is_whitespace x = false ->
  trimStart (a ++ x :: s) = trimStart a ++ x :: s.
Proof.
  intros Hx. induction a as [|y a IH].
  - cbn. rewrite Hx. reflexivity.
  - cbn [app trimStart]. destruct (is_whitespace y); [exact IH|reflexivity].
Qed.

Lemma trimStart_suffix (s : jsstring) : exists w, s = w ++ trimStart s.
Proof.
  induction s as [|y s [w IH]].
  - exists []. reflexivity.
  - cbn [trimStart]. destruct (is_whitespace y).
    + exists (y :: w). cbn. rewrite <- IH. reflexivity.
    + exists []. reflexivity.
Qed.

(** [trim] of a text that begins with a brace and holds a quote takes
    blanks off the end of what follows the quote, and nothing else. *)
Lemma trim_after_quote (h t : jsstring) :
  exists t' w,
    trim ((123%N :: h ++ [34%N]) ++ t) = (123%N :: h ++ [34%N]) ++ t'
    /\ t = t' ++ w.
Proof.
  destruct (trimStart_suffix (rev t)) as [w Hw].
  exists (rev (trimStart (rev t))), (rev w). split.
  - unfold trim. cbn [app]. rewrite trimStart_head by reflexivity.
    change (123%N :: (h ++ [34%N]) ++ t) with ((123%N :: h ++ [34%N]) ++ t).
    rewrite rev_app_distr.
    change (123%N :: h ++ [34%N]) with ((123%N :: h) ++ [34%N]).
    rewrite (rev_app_distr (123%N :: h) [34%N]). cbn [rev app].
    rewrite trimStart_app_stop by reflexivity.
    rewrite rev_app_distr. cbn [rev]. rewrite !rev_app_distr.
    cbn [rev app]. rewrite rev_involutive, <- !app_assoc. reflexivity.
  - rewrite <- rev_app_distr, <- Hw, rev_involutive. reflexivity.
Qed.

(** The data of a frame cut inside its string: the string is not
    closed. *)
Lemma json_prefix_unterminated (c t l : jsstring) :
  json_escape c = t ++ l ->
  JSON_parse (trim (q "{'choices':[{'delta':{'content':'" ++ t)) = None.
Proof.
  intros H.
  change (q "{'choices':[{'delta':{'content':'")
    with (123%N :: q "'choices':[{'delta':{'content':" ++ [34%N]).
  destruct (trim_after_quote (q "'choices':[{'delta':{'content':") t)
    as (t' & w & Htrim & Ht).
  rewrite Htrim. unfold JSON_parse.
  change ((123%N :: q "'choices':[{'delta':{'content':" ++ [34%N]) ++ t')
    with (q "{'choices':[{'delta':{'content':" ++ 34%N :: t').
  rewrite lex_content_prefix. cbn [lex is_json_ws].
  cbn [N.eqb Pos.eqb orb].
  rewrite (@lex_string_prefix_none c t' (w ++ l));
    [reflexivity|].
  rewrite H, Ht, <- app_assoc. reflexivity.
Qed.

(** No proper prefix of the data of a frame is a JSON text. *)
Lemma frame_prefix_unparsable (c t r : jsstring) :
  content_json c = t ++ r -> r <> [] -> JSON_parse (trim t) = None.
Proof.
  intros H Hr. unfold content_json in H.
  apply app_eq_app in H.
  destruct H as (mid & [[Hopen _]|[Ht Hrest]]).
  { apply (@json_prefix_opening t mid). exact Hopen. }
  subst t. apply app_eq_app in Hrest.
  destruct Hrest as (mid2 & [[Hesc _]|[Hmid Hclose]]).
  { apply (@json_prefix_unterminated c mid mid2). exact Hesc. }
  subst mid.
  assert (Hclosed : forall s,
             JSON_parse
               (q "{'choices':[{'delta':{'content':" ++ 34%N
                  :: json_escape c ++ 34%N :: s)
             = match lex 0 s with
               | Some tokens =>
                   match fold_left parse_step tokens
                           (SNext [FObject [(u "content", JString c)] None;
                                   FObject [] (Some (u "delta"));
                                   FArray [];
                                   FObject [] (Some (u "choices"))]) with
                   | SDone v => Some v
                   | _ => None
                   end
               | None => None
               end).
  { intros s. unfold JSON_parse.
    rewrite lex_content_prefix, lex_string_token.
    destruct (lex 0 s); reflexivity. }
  assert (Hshape : forall s,
             q "{'choices':[{'delta':{'content':'"
               ++ json_escape c ++ 34%N :: s
             = q "{'choices':[{'delta':{'content':" ++ 34%N
                 :: json_escape c ++ 34%N :: s)
    by reflexivity.
  assert (Htrim : forall s y,
             is_whitespace y = false ->
             trim (q "{'choices':[{'delta':{'content':'"
                     ++ json_escape c ++ s ++ [y])
             = q "{'choices':[{'delta':{'content':'"
                 ++ json_escape c ++ s ++ [y]).
  { intros s y Hy.
    change (q "{'choices':[{'delta':{'content':'"
              ++ json_escape c ++ s ++ [y])
      with (123%N :: (q "'choices':[{'delta':{'content':'"
                         ++ json_escape c ++ s ++ [y])).
    rewrite !app_assoc. apply trim_between; [reflexivity|exact Hy]. }
  remember (q "'}}]}") as closing eqn:Hclosing.
  vm_compute in Hclosing. subst closing.
  destruct mid2 as [|y1 mid2].
  { rewrite app_nil_r.
    apply (@json_prefix_unterminated c (json_escape c) []).
    rewrite app_nil_r. reflexivity. }
  cbn [app] in Hclose. injection Hclose as <- Hclose.
  destruct mid2 as [|y2 mid2].
  { change [34%N] with ([] ++ [34%N]).
    rewrite (Htrim [] 34%N eq_refl). cbn [app].
    rewrite Hshape, Hclosed. reflexivity. }
  cbn [app] in Hclose. injection Hclose as <- Hclose.
  destruct mid2 as [|y3 mid2].
  { change [34%N; 125%N] with ([34%N] ++ [125%N]).
    rewrite (Htrim [34%N] 125%N eq_refl). cbn [app].
    rewrite Hshape, Hclosed. reflexivity. }
  cbn [app] in Hclose. injection Hclose as <- Hclose.
  destruct mid2 as [|y4 mid2].
  { change [34%N; 125%N; 125%N] with ([34%N; 125%N] ++ [125%N]).
    rewrite (Htrim [34%N; 125%N] 125%N eq_refl). cbn [app].
    rewrite Hshape, Hclosed. reflexivity. }
  cbn [app] in Hclose. injection Hclose as <- Hclose.
  destruct mid2 as [|y5 mid2].
  { change [34%N; 125%N; 125%N; 93%N]
      with ([34%N; 125%N; 125%N] ++ [93%N]).
    rewrite (Htrim [34%N; 125%N; 125%N] 93%N eq_refl). cbn [app].
    rewrite Hshape, Hclosed. reflexivity. }
  cbn [app] in Hclose. injection Hclose as <- Hclose.
  destruct mid2; [|discriminate Hclose].
  cbn [app] in Hclose. subst r. contradiction Hr. reflexivity.
Qed.

Lemma startsWith_app (a b p : jsstring) :
  startsWith a p = true -> startsWith (a ++ b) p = true.
Proof.
  revert a. induction p as [|x p IH]; intros a H.
  - destruct (a ++ b); reflexivity.
  - destruct a as [|y a]; [discriminate H|].
    cbn [app startsWith] in *. apply andb_prop in H. destruct H as [Hx Hp].
    rewrite Hx, (IH a Hp). reflexivity.
Qed.

Lemma includes_prefix_false (a b p : jsstring) :
  includes (a ++ b) p = false -> includes a p = false.
Proof.
  induction a as [|y a IH]; intros H.
  - destruct p as [|x p]; [|reflexivity].
    cbn [app] in H. destruct b; discriminate H.
  - cbn [app includes] in H. apply orb_false_elim in H.
    destruct H as [Hhead Htail].
    cbn [includes]. rewrite (IH Htail), orb_false_r.
    destruct (startsWith (y :: a) p) eqn:Hs; [|reflexivity].
    apply (@startsWith_app (y :: a) b) in Hs.
    cbn [app] in Hs. congruence.
Qed.

Lemma includes_suffix_false (a b p : jsstring) :
  includes (a ++ b) p = false -> includes b p = false.
Proof.
  induction a as [|y a IH]; intros H; [exact H|].
  cbn [app includes] in H. apply orb_false_elim in H.
  apply IH, H.
Qed.

Lemma split_go_no_newline (s cur : jsstring) :
  ~ In 10%N s -> split_go (nl ++ nl) 0 cur s = [rev cur ++ s].
Proof.
  revert cur. induction s as [|x s IH]; intros cur Hs.
  - cbn. rewrite app_nil_r. reflexivity.
  - cbn [app split_go startsWith nl].
    replace (10 =? x)%N with false
      by (symmetry; apply N.eqb_neq; intros Hx; apply Hs; left;
          symmetry; exact Hx).
    cbn [andb]. change [10%N; 10%N] with (nl ++ nl).
    rewrite IH by (intros H; apply Hs; right; exact H).
    cbn [rev]. rewrite <- app_assoc. reflexivity.
Qed.

(** The first part of a frame that a chunk boundary cuts, after the
    marker: it is taken for a payload, and its data does not parse. *)
Lemma cut_payload_unparsable (c a b : jsstring) :
  content_payload c = a ++ b -> 5 <= length a -> b <> [] ->
  startsWith a (u "data:") = true
  /\ JSON_parse (trim (removeAll data_marker a)) = None.
Proof.
  intros H Hlen Hb.
  change (content_payload c) with (u "data: " ++ content_json c) in H.
  remember (u "data: ") as marker eqn:Hmarker.
  vm_compute in Hmarker. subst marker.
  do 5 (destruct a as [|? a]; [cbn in Hlen; lia|];
        cbn [app] in H;
        let Hx := fresh "Hx" in injection H as Hx H; subst).
  clear Hlen. split; [destruct a; reflexivity|].
  destruct a as [|y a]; [vm_compute; reflexivity|].
  cbn [app] in H. injection H as <- H.
  destruct a as [|z a]; [vm_compute; reflexivity|].
  assert (Hz : z = 123%N).
  { unfold content_json in H.
    remember (q "{'choices':[{'delta':{'content':'") as opening
      eqn:Hopening.
    vm_compute in Hopening. subst opening.
    cbn [app] in H. injection H as Hz _. symmetry. exact Hz. }
  subst z.
  change (100%N :: 97%N :: 116%N :: 97%N :: 58%N :: 32%N :: 123%N :: a)
    with (u "data: " ++ 123%N :: a).
  rewrite removeAll_data_marker.
  apply (@frame_prefix_unparsable c (123%N :: a) b); [exact H|exact Hb].
Qed.

(** X16.  The read does not put together a frame that arrives in two
    chunks.  The first part, cut anywhere after the marker, is taken for a
    payload on its own: its data does not parse, so the diagnostic of the
    parse failure is emitted in the place of the content; the second part,
    unless it begins with the marker itself, is passed over.  The content
    of the frame reaches neither the writer nor the accumulated text. *)
Theorem split_frame_is_not_reassembled (E : Env)
  (excluded : list pattern) (isAnalysis : bool)
  (c a b : jsstring) (st : state) :
  content_payload c = a ++ b ->
  5 <= length a ->
  b <> [] ->
  includes c done_marker = false ->
  loop st = Running ->
  stopTextStream st = false ->
  dataStart st = true ->
  let diagnostic :=
    u "Error with JSON.parse and " ++ a ++ u "." ++ nl
      ++ syntax_error_text E (trim (removeAll data_marker a)) in
  let st1 := step E excluded isAnalysis st (Chunk a) in
  let st2 := step E excluded isAnalysis st1 (Chunk (b ++ nl ++ nl)) in
  written st1
  = written st ++ [Fragment (stripRegexPatterns diagnostic excluded)]
  /\ data st1 = data st ++ stripRegexPatterns diagnostic excluded
  /\ (startsWith b (u "data:") = false -> st2 = st1).
Proof.
  intros Hcut Hlen Hb Hc Hrun Hstop Hds diagnostic st1 st2.
  destruct (@cut_payload_unparsable c a b Hcut Hlen Hb) as [Hdata Hparse].
  pose proof (@includes_content_payload c Hc) as Hdone.
  rewrite Hcut in Hdone.
  pose proof (@includes_prefix_false a b done_marker Hdone) as Hdone_a.
  pose proof (@includes_suffix_false a b done_marker Hdone) as Hdone_b.
  pose proof (@content_payload_no_newline c) as Hnl. rewrite Hcut in Hnl.
  assert (Hnl_a : ~ In 10%N a)
    by (intros H; apply Hnl, in_or_app; left; exact H).
  assert (Hnl_b : ~ In 10%N b)
    by (intros H; apply Hnl, in_or_app; right; exact H).
  assert (Hcontent : parseContent E a = Text diagnostic).
  { unfold parseContent. rewrite Hparse. reflexivity. }
  assert (Hst1 : st1
                 = write (Fragment (stripRegexPatterns diagnostic excluded))
                     (with_data
                        (data st ++ stripRegexPatterns diagnostic excluded)
                        st)).
  { unfold st1. cbn [step]. unfold on_chunk, is_running. rewrite Hrun.
    change (split a (nl ++ nl)) with (split_go (nl ++ nl) 0 [] a).
    rewrite split_go_no_newline by exact Hnl_a.
    cbn [rev app payloads_loop]. unfold payload_step.
    change (u "[DONE]") with done_marker.
    rewrite Hdone_a, Hstop, Hdata, Hcontent, Hds.
    cbn [orb negb]. unfold emit. rewrite Hds.
    change (truthy diagnostic) with true. cbn [andb].
    match goal with
    | |- (if ?cond then _ else _) = _ => destruct cond; reflexivity
    end. }
  split; [|split].
  - rewrite Hst1. reflexivity.
  - rewrite Hst1. reflexivity.
  - intros Hnot. unfold st2. cbn [step]. unfold on_chunk, is_running.
    assert (Hrun1 : loop st1 = Running) by (rewrite Hst1; exact Hrun).
    assert (Hstop1 : stopTextStream st1 = false)
      by (rewrite Hst1; exact Hstop).
    rewrite Hrun1.
    change (split (b ++ nl ++ nl) (nl ++ nl))
      with (split_go (nl ++ nl) 0 [] (b ++ nl ++ nl ++ [])).
    rewrite split_delimiter_go by exact Hnl_b.
    cbn [rev app split_go payloads_loop]. unfold payload_step.
    change (u "[DONE]") with done_marker.
    rewrite Hdone_b, Hstop1, Hnot. cbn [orb].
    unfold is_running. rewrite Hrun1. cbn [negb].
    change (includes [] done_marker) with false.
    change (startsWith [] (u "data:")) with false.
    rewrite Hstop1. cbn [orb]. rewrite Hrun1. reflexivity.
Qed.

Lemma split_frame_is_not_reassembled_witness :
  let st :=
    readData plain_env [] false [] [Chunk (content_chunk [u "$ "])] in
  let st1 :=
    step plain_env [] false st
      (Chunk (q "data: {'choices':[{'delta':{'con")) in
  let st2 :=
    step plain_env [] false st1
      (Chunk (q "tent':'ls -la'}}]}" ++ nl ++ nl)) in
  data st1
  = u "$ " ++ q "Error with JSON.parse and data: {'choices':[{'delta':{'con."
      ++ nl ++ u "SyntaxError: Unexpected token in JSON"
  /\ st2 = st1.
Proof.
  cbv zeta.
  destruct (@split_frame_is_not_reassembled plain_env [] false (u "ls -la")
              (q "data: {'choices':[{'delta':{'con")
              (q "tent':'ls -la'}}]}")
              (readData plain_env [] false []
                 [Chunk (content_chunk [u "$ "])]))
    as (_ & Hd & Hsecond).
  - reflexivity.
  - vm_compute. lia.
  - discriminate.
  - reflexivity.
  - reflexivity.
  - reflexivity.
  - reflexivity.
  - split; [rewrite Hd; reflexivity|apply Hsecond; reflexivity].
Defined.

(** *** A reply behind a start marker *)

Lemma with_buffer_same (st : state) : with_buffer (buffer st) st = st.
Proof.
  destruct st; reflexivity.
Qed.

Lemma with_buffer_twice (a b : jsstring) (st : state) :
  with_buffer a (with_buffer b st) = with_buffer a st.
Proof.
  reflexivity.
Qed.

Section Scripts.

Variable E : Env.
Variable excluded : list pattern.
Variable isAnalysis : bool.
Hypothesis Hprefix : pattern_truthy (excludedPrefix excluded) = true.

Local Abbreviation strip := (fun c => stripRegexPatterns c excluded).
Local Abbreviation chunk_of := (fun g => Chunk (content_chunk g)).

(** The detector stays silent on the look-behind buffer [B] grown by the
    contents [cs], one after the other. *)
Fixpoint unmatched (B : jsstring) (cs : list jsstring) : Prop :=
  match cs with
  | [] => True
  | c :: cs' =>
      match_prefix E excluded (B ++ c) = Some false
      /\ unmatched (B ++ c) cs'
  end.

Lemma unmatched_firstn (B : jsstring) (cs : list jsstring) :
  (forall k, 0 < k <= length cs ->
             match_prefix E excluded (B ++ concat (firstn k cs))
             = Some false) ->
  unmatched B cs.
Proof.
  revert B. induction cs as [|c cs IH]; intros B H; [exact I|].
  cbn [unmatched]. split.
  - specialize (H 1). cbn [firstn concat length] in H.
    rewrite app_nil_r in H. apply H. lia.
  - apply IH. intros k Hk. specialize (H (S k)).
    cbn [firstn concat length] in H. rewrite <- app_assoc. apply H. lia.
Qed.

Lemma unmatched_app (B : jsstring) (a b : list jsstring) :
  unmatched B (a ++ b) -> unmatched B a /\ unmatched (B ++ concat a) b.
Proof.
  revert B. induction a as [|c a IH]; intros B H.
  - cbn. rewrite app_nil_r. split; [exact I|exact H].
  - cbn [app unmatched concat] in *. destruct H as [Hc H].
    destruct (IH (B ++ c) H) as [Ha Hb].
    rewrite <- app_assoc in Hb. repeat split; assumption.
Qed.

(** **** Before the marker *)

Lemma payload_step_waiting (c : jsstring) (st : state) :
  stopTextStream st = false -> dataStart st = false ->
  includes c done_marker = false ->
  match_prefix E excluded (buffer st ++ c) = Some false ->
  payload_step E excluded isAnalysis (content_payload c) st
  = (with_buffer (buffer st ++ c) st, false).
Proof.
  intros Hstop Hds Hc Hmatch. unfold payload_step.
  change (u "[DONE]") with done_marker.
  rewrite (includes_content_payload c Hc), Hstop.
  replace (startsWith (content_payload c) (u "data:")) with true
    by reflexivity.
  rewrite parseContent_payload, Hds.
  cbn [orb negb buffer with_buffer]. rewrite Hmatch.
  unfold emit. cbn [dataStart with_buffer]. rewrite Hds. reflexivity.
Qed.

Lemma payload_step_opens (c : jsstring) (st : state) :
  stopTextStream st = false -> dataStart st = false ->
  includes c done_marker = false ->
  match_prefix E excluded (buffer st ++ c) = Some true ->
  payload_step E excluded isAnalysis (content_payload c) st
  = (with_buffer [] (with_dataStart true st), true).
Proof.
  intros Hstop Hds Hc Hmatch. unfold payload_step.
  change (u "[DONE]") with done_marker.
  rewrite (includes_content_payload c Hc), Hstop.
  replace (startsWith (content_payload c) (u "data:")) with true
    by reflexivity.
  rewrite parseContent_payload, Hds.
  cbn [orb negb buffer with_buffer]. rewrite Hmatch, Hprefix.
  reflexivity.
Qed.

Lemma payloads_loop_waiting (cs : list jsstring) (st : state) :
  loop st = Running -> stopTextStream st = false -> dataStart st = false ->
  Forall (fun c => includes c done_marker = false) cs ->
  unmatched (buffer st) cs ->
  payloads_loop E excluded isAnalysis (map content_payload cs ++ [[]]) st
  = with_buffer (buffer st ++ concat cs) st.
Proof.
  intros Hrun Hstop Hds Hcs. revert st Hrun Hstop Hds.
  induction Hcs as [|c cs Hc _ IH]; intros st Hrun Hstop Hds Hquiet.
  - cbn [map app payloads_loop concat]. unfold payload_step.
    change (includes [] (u "[DONE]")) with false.
    change (startsWith [] (u "data:")) with false.
    rewrite Hstop. cbn [orb]. unfold is_running. rewrite Hrun. cbn.
    rewrite app_nil_r, with_buffer_same. reflexivity.
  - cbn [map app payloads_loop]. destruct Hquiet as [Hmatch Hquiet].
    rewrite payload_step_waiting by assumption.
    unfold is_running. cbn [loop with_buffer orb]. rewrite Hrun.
    cbn [negb].
    rewrite IH by assumption.
    cbn [buffer with_buffer concat]. rewrite with_buffer_twice, app_assoc.
    reflexivity.
Qed.

Lemma payloads_loop_opens (cs : list jsstring) (c : jsstring)
  (st : state) :
  loop st = Running -> stopTextStream st = false -> dataStart st = false ->
  Forall (fun x => includes x done_marker = false) (cs ++ [c]) ->
  unmatched (buffer st) cs ->
  match_prefix E excluded (buffer st ++ concat cs ++ c) = Some true ->
  payloads_loop E excluded isAnalysis
    (map content_payload (cs ++ [c]) ++ [[]]) st
  = with_buffer [] (with_dataStart true st).
Proof.
  revert st. induction cs as [|x cs IH];
    intros st Hrun Hstop Hds Hall Hquiet Hmatch.
  - cbn [app map payloads_loop concat] in *.
    inversion Hall as [|? ? Hc _]; subst.
    rewrite payload_step_opens by assumption. reflexivity.
  - cbn [app map payloads_loop concat] in *.
    inversion Hall as [|? ? Hx Hrest]; subst.
    destruct Hquiet as [Hmx Hquiet].
    rewrite payload_step_waiting by assumption.
    unfold is_running. cbn [loop with_buffer orb]. rewrite Hrun.
    cbn [negb].
    rewrite IH; try assumption.
    + reflexivity.
    + cbn [buffer with_buffer]. rewrite <- !app_assoc in *. exact Hmatch.
Qed.

Lemma run_waiting (groups : list (list jsstring)) (st : state) :
  loop st = Running -> stopTextStream st = false -> dataStart st = false ->
  Forall (Forall (fun c => includes c done_marker = false)) groups ->
  unmatched (buffer st) (concat groups) ->
  run E excluded isAnalysis st (map chunk_of groups)
  = with_buffer (buffer st ++ concat (concat groups)) st.
Proof.
  intros Hrun Hstop Hds Hgs. revert st Hrun Hstop Hds.
  induction Hgs as [|g groups Hg _ IH]; intros st Hrun Hstop Hds Hquiet.
  - cbn. rewrite app_nil_r, with_buffer_same. reflexivity.
  - cbn [map run fold_left concat] in *.
    apply unmatched_app in Hquiet. destruct Hquiet as [Hqg Hqrest].
    assert (Hstep : step E excluded isAnalysis st (Chunk (content_chunk g))
                    = with_buffer (buffer st ++ concat g) st).
    { cbn [step]. unfold on_chunk, is_running.
      rewrite Hrun, split_content_chunk.
      apply payloads_loop_waiting; assumption. }
    rewrite Hstep.
    change (fold_left (step E excluded isAnalysis) (map chunk_of groups)
              (with_buffer (buffer st ++ concat g) st))
      with (run E excluded isAnalysis
              (with_buffer (buffer st ++ concat g) st)
              (map chunk_of groups)).
    rewrite IH by assumption.
    cbn [buffer with_buffer]. rewrite with_buffer_twice, concat_app.
    rewrite <- app_assoc. reflexivity.
Qed.

(** **** After the marker *)

(** From [st] to [st'] the contents [cs] have been emitted: the non-empty
    ones, after the exclusion patterns, are appended to the text and
    handed to the writer, and nothing else has changed. *)
Definition emitted_from (st st' : state) (cs : list jsstring) : Prop :=
  loop st' = loop st
  /\ stopTextStream st' = stopTextStream st
  /\ dataStart st' = dataStart st
  /\ data st' = data st ++ concat (map strip (filter truthy cs))
  /\ written st'
     = written st ++ map Fragment (map strip (filter truthy cs))
  /\ settled st' = settled st
  /\ stoppedByUser st' = stoppedByUser st.

Lemma emitted_from_refl (st : state) : emitted_from st st [].
Proof.
  unfold emitted_from. cbn. rewrite !app_nil_r. repeat split; reflexivity.
Qed.

Lemma emitted_from_trans (a b c : state) (cs1 cs2 : list jsstring) :
  emitted_from a b cs1 -> emitted_from b c cs2 ->
  emitted_from a c (cs1 ++ cs2).
Proof.
  intros (Hl & Hs & Hds & Hd & Hw & Hp & Hu)
         (Hl' & Hs' & Hds' & Hd' & Hw' & Hp' & Hu').
  unfold emitted_from. rewrite filter_app, !map_app, concat_app.
  repeat split; try congruence.
  - rewrite Hd', Hd, app_assoc. reflexivity.
  - rewrite Hw', Hw, app_assoc. reflexivity.
Qed.

Lemma payload_step_emits (c : jsstring) (st : state) :
  stopTextStream st = false -> dataStart st = true ->
  includes c done_marker = false ->
  snd (payload_step E excluded isAnalysis (content_payload c) st) = false
  /\ emitted_from st
       (fst (payload_step E excluded isAnalysis (content_payload c) st))
       [c].
Proof.
  intros Hstop Hds Hc. unfold payload_step.
  change (u "[DONE]") with done_marker.
  rewrite (includes_content_payload c Hc), Hstop.
  replace (startsWith (content_payload c) (u "data:")) with true
    by reflexivity.
  rewrite parseContent_payload, Hds.
  cbn [orb negb fst snd]. split; [reflexivity|].
  unfold emit, emitted_from. rewrite Hds. cbn [andb].
  destruct c as [|x c]; cbn; rewrite ?app_nil_r; repeat split; auto.
Qed.

Lemma payloads_loop_emits (cs : list jsstring) (st : state) :
  loop st = Running -> stopTextStream st = false -> dataStart st = true ->
  Forall (fun c => includes c done_marker = false) cs ->
  emitted_from st
    (payloads_loop E excluded isAnalysis (map content_payload cs ++ [[]]) st)
    cs.
Proof.
  intros Hrun Hstop Hds Hcs. revert st Hrun Hstop Hds.
  induction Hcs as [|c cs Hc _ IH]; intros st Hrun Hstop Hds.
  - cbn [map app payloads_loop]. unfold payload_step.
    change (includes [] (u "[DONE]")) with false.
    change (startsWith [] (u "data:")) with false.
    rewrite Hstop. cbn [orb].
    unfold is_running. rewrite Hrun. cbn. apply emitted_from_refl.
  - cbn [map app payloads_loop].
    destruct (@payload_step_emits c st Hstop Hds Hc) as [Hbroke Hfed].
    destruct (payload_step E excluded isAnalysis (content_payload c) st)
      as [st1 broke].
    cbn [fst snd] in *. subst broke.
    pose proof Hfed as (Hl & Hs & Hd & _).
    unfold is_running. rewrite Hl, Hrun. cbn [orb negb].
    change (c :: cs) with ([c] ++ cs).
    eapply emitted_from_trans; [exact Hfed|].
    apply IH; congruence.
Qed.

Lemma run_emits (groups : list (list jsstring)) (st : state) :
  loop st = Running -> stopTextStream st = false -> dataStart st = true ->
  Forall (Forall (fun c => includes c done_marker = false)) groups ->
  emitted_from st (run E excluded isAnalysis st (map chunk_of groups))
    (concat groups).
Proof.
  intros Hrun Hstop Hds Hgs. revert st Hrun Hstop Hds.
  induction Hgs as [|g groups Hg _ IH]; intros st Hrun Hstop Hds.
  - apply emitted_from_refl.
  - cbn [map run fold_left concat].
    assert (Hfed : emitted_from st
                     (step E excluded isAnalysis st
                        (Chunk (content_chunk g))) g).
    { cbn [step]. unfold on_chunk, is_running.
      rewrite Hrun, split_content_chunk.
      apply payloads_loop_emits; assumption. }
    pose proof Hfed as (Hl & Hs & Hd & _).
    eapply emitted_from_trans; [exact Hfed|].
    apply IH; congruence.
Qed.

(** X17.  A reply read with a first exclusion pattern that is not empty.
    The frames come in chunks, grouped in any way.  The detector stays
    silent on the look-behind buffer until the content [c], the last of its
    chunk, completes the marker; then the frames of [groups] follow, and
    the completion frame or the end of the stream.  The read resolves with
    the contents that came after the chunk of the marker, the non-empty
    ones, each after the exclusion patterns, and the writer has received
    exactly these, in order: nothing of what came up to the marker, and
    nothing else. *)
Theorem reply_after_start_marker_is_emitted
  (listeners : list nat) (before : list (list jsstring))
  (g : list jsstring) (c : jsstring)
  (groups : list (list jsstring)) (closing : event) :
  let waiting := concat before ++ g in
  Forall (Forall (fun x => includes x done_marker = false))
    (before ++ [g ++ [c]] ++ groups) ->
  (forall k, 0 < k <= length waiting ->
             match_prefix E excluded (concat (firstn k waiting))
             = Some false) ->
  match_prefix E excluded (concat waiting ++ c) = Some true ->
  closing = Chunk done_frame \/ closing = StreamEnd ->
  let st :=
    readData E excluded isAnalysis listeners
      (map chunk_of before ++ [chunk_of (g ++ [c])]
         ++ map chunk_of groups ++ [closing]) in
  let emitted := map strip (filter truthy (concat groups)) in
  settled st = Some (concat emitted)
  /\ written st = map Fragment emitted
  /\ loop st = Returned.
Proof.
  intros waiting Hall Hquiet Hmatch Hclosing st emitted.
  apply Forall_app in Hall. destruct Hall as [Hbefore Hall].
  apply Forall_app in Hall. destruct Hall as [Hlast Hgroups].
  inversion Hlast as [|? ? Hgc _]; subst.
  assert (Hun : unmatched [] waiting).
  { apply unmatched_firstn. exact Hquiet. }
  apply unmatched_app in Hun. destruct Hun as [Hun_before Hun_g].
  cbn [app] in Hun_g.
  set (st0 := start isAnalysis listeners).
  (* the chunks before the marker *)
  assert (H1 : run E excluded isAnalysis st0 (map chunk_of before)
               = with_buffer (concat (concat before)) st0).
  { rewrite run_waiting; try assumption; reflexivity. }
  (* the chunk of the marker *)
  assert (H2 : step E excluded isAnalysis
                 (with_buffer (concat (concat before)) st0)
                 (chunk_of (g ++ [c]))
               = with_buffer [] (with_dataStart true st0)).
  { cbn [step]. unfold on_chunk, is_running. cbn [loop with_buffer st0 start].
    rewrite split_content_chunk.
    rewrite payloads_loop_opens; try assumption; try reflexivity.
    cbn [buffer with_buffer]. unfold waiting in Hmatch.
    rewrite concat_app, <- app_assoc in Hmatch. exact Hmatch. }
  (* the frames after it *)
  pose proof (@run_emits groups (with_buffer [] (with_dataStart true st0))
                eq_refl eq_refl eq_refl Hgroups)
    as (Hl & Hs & Hds & Hd & Hw & Hp & Hu).
  assert (Hst : st
                = step E excluded isAnalysis
                    (run E excluded isAnalysis
                       (with_buffer [] (with_dataStart true st0))
                       (map chunk_of groups))
                    closing).
  { unfold st, readData. rewrite DecoderFacts.run_app. fold st0.
    rewrite H1. cbn [app run fold_left]. rewrite H2.
    change (fold_left (step E excluded isAnalysis)
              (map chunk_of groups ++ [closing])
              (with_buffer [] (with_dataStart true st0)))
      with (run E excluded isAnalysis
              (with_buffer [] (with_dataStart true st0))
              (map chunk_of groups ++ [closing])).
    rewrite DecoderFacts.run_app. reflexivity. }
  rewrite Hst. fold emitted in Hd, Hw.
  set (st1 := run E excluded isAnalysis
                (with_buffer [] (with_dataStart true st0))
                (map chunk_of groups)) in *.
  cbn in Hl, Hs, Hds, Hd, Hw, Hp, Hu.
  clearbody st1 emitted. clear Hst H1 H2 Hgroups.
  destruct st1; cbn in Hl, Hs, Hds, Hd, Hw, Hp, Hu. subst.
  destruct Hclosing as [->| ->].
  - change (step E excluded isAnalysis ?s (Chunk done_frame))
      with (payloads_loop E excluded isAnalysis [u "data: [DONE]"; []] s).
    destruct isAnalysis; cbn; repeat split; reflexivity.
  - destruct isAnalysis; cbn; repeat split; reflexivity.
Qed.

End Scripts.

Lemma reply_after_start_marker_is_emitted_witness :
  let st :=
    readData plain_env shellCodeExclusions false []
      (map (fun g => Chunk (content_chunk g)) [[fence_text]; [u "bash"]]
         ++ [Chunk (content_chunk ([] ++ [nl]))]
         ++ map (fun g => Chunk (content_chunk g))
              [[u "ls"; []]; [u " -la"]; [nl ++ fence_text]]
         ++ [Chunk done_frame]) in
  settled st = Some (u "ls -la")
  /\ written st = [Fragment (u "ls"); Fragment (u " -la"); Fragment []].
Proof.
  cbv zeta.
  destruct (@reply_after_start_marker_is_emitted plain_env
              shellCodeExclusions false eq_refl []
              [[fence_text]; [u "bash"]] [] nl
              [[u "ls"; []]; [u " -la"]; [nl ++ fence_text]]
              (Chunk done_frame))
    as (Hs & Hw & _).
  - repeat constructor.
  - intros k Hk. destruct k as [|[|[|k]]];
      [lia|reflexivity|reflexivity|cbn in Hk; lia].
  - reflexivity.
  - left. reflexivity.
  - rewrite Hs, Hw. split; reflexivity.
Defined.

End DecoderMore.

(** ** The worker and its bridge *)

Module WorkerFacts.

Import ForkAi AiProcess.

(** The error the bridge builds from a message of type [error]. *)
Definition relayed (error : thrown) : error_value :=
  {| err_message := message error; err_name := name error;
     err_code := code error; err_stack := Some (stack error) |}.

(** What the listener of [exit] adds for the exits of a schedule. *)
Definition exit_errors (events : list worker_event) : list response_event :=
  flat_map (fun e => match e with
                     | Exit code => emitted (exitHandler code attached)
                     | _ => []
                     end) events.

Lemma chunks_relayed (chunks : list jsstring) (b : bridge) :
  message_listening b = true ->
  fold_left step (map Message (map MChunk chunks)) b
  = {| message_listening := true; error_listening := error_listening b;
       emitted := emitted b ++ map data_event chunks |}.
Proof.
  revert b. induction chunks as [|c chunks IH]; intros b Hb.
  - cbn. rewrite app_nil_r. destruct b; cbn in *. subst. reflexivity.
  - cbn [map fold_left step]. rewrite Hb. cbn [messageHandler].
    rewrite IH by exact Hb. cbn. rewrite <- app_assoc. reflexivity.
Qed.

(** X18.  The worker and the bridge together: the caller of
    [generateCompletionWithFork] receives one [data] event for each chunk
    the worker read, in order, and then [end], or, when the generation
    threw, one [error] that carries the message, name, code and stack of
    the exception; after it the bridge listens neither to messages nor to
    errors of the process. *)
Theorem generation_is_relayed (g : generation) :
  let b := run (map Message (on_message (u "generate") g)) in
  emitted b
  = match g with
    | Streamed chunks => map data_event chunks ++ [end_event]
    | Failed chunks error =>
        map data_event chunks ++ [error_event (relayed error)]
    end
  /\ message_listening b = false
  /\ error_listening b = false.
Proof.
  change (on_message (u "generate") g)
    with (match g with
          | Streamed chunks => map MChunk chunks ++ [MDone]
          | Failed chunks error => map MChunk chunks ++ [error_message error]
          end).
  unfold run. destruct g as [chunks|chunks error];
    rewrite map_app, fold_left_app, chunks_relayed by reflexivity;
    cbn; repeat split; reflexivity.
Qed.

Lemma exitHandler_emitted (code : option Z) (b : bridge) :
  exitHandler code b
  = {| message_listening := message_listening b;
       error_listening := error_listening b;
       emitted := emitted b ++ emitted (exitHandler code attached) |}.
Proof.
  destruct b as [ml el em].
  destruct code as [[|p|p]|]; cbn; rewrite ?app_nil_r; reflexivity.
Qed.

(** X19.  Once the bridge has removed its listeners, messages and errors of the
    worker process reach the response no more; the listener of [exit] is
    not removed: each later exit with a code other than 0 still makes the
    response emit an error. *)
Theorem detached_bridge_hears_exits_only
  (b : bridge) (events : list worker_event) :
  message_listening b = false ->
  error_listening b = false ->
  let b' := fold_left step events b in
  emitted b' = emitted b ++ exit_errors events
  /\ message_listening b' = false
  /\ error_listening b' = false.
Proof.
  intros Hm He b'. subst b'. revert b Hm He.
  induction events as [|e events IH]; intros b Hm He.
  - cbn. rewrite app_nil_r. repeat split; assumption.
  - cbn [fold_left]. destruct e as [msg|code|err]; cbn [step].
    + rewrite Hm. apply (IH b Hm He).
    + rewrite exitHandler_emitted.
      match goal with
      | |- context [fold_left step events ?b1] =>
          destruct (IH b1 Hm He) as (H1 & H2 & H3)
      end.
      rewrite H1, H2, H3. cbn [emitted exit_errors flat_map].
      rewrite <- app_assoc. repeat split; reflexivity.
    + rewrite He. apply (IH b Hm He).
Qed.

Lemma detached_bridge_hears_exits_only_witness :
  emitted
    (fold_left step
       [Message (MChunk (u "pwd")); Exit None; Message MDone]
       (run (map Message (on_message (u "generate") (Streamed [u "ls"])))))
  = [data_event (u "ls"); end_event;
     error_event (new_Error (u "AI process exited with code null"))].
Proof.
  destruct (@detached_bridge_hears_exits_only
              (run (map Message
                      (on_message (u "generate") (Streamed [u "ls"]))))
              [Message (MChunk (u "pwd")); Exit None; Message MDone]
              eq_refl eq_refl) as (H & _).
  rewrite H. reflexivity.
Defined.

(** X20.  An exception nobody caught in the worker reaches the caller twice:
    the handler of [uncaughtException] sends it, which the bridge relays,
    and then ends the process with code 1, for which the listener of
    [exit] synthesizes a second error. *)
Theorem uncaught_exception_emits_two_errors
  (chunks : list jsstring) (error : thrown) :
  emitted
    (run (map Message (map MChunk chunks) ++ on_uncaughtException error))
  = map data_event chunks
      ++ [error_event (relayed error);
          error_event (new_Error (u "AI process exited with code 1"))].
Proof.
  unfold run. rewrite fold_left_app, chunks_relayed by reflexivity.
  cbn [on_uncaughtException fold_left step message_listening
       error_message messageHandler ForkAi.emit remove_listeners
       exitHandler emitted attached app].
  rewrite <- app_assoc. reflexivity.
Qed.

End WorkerFacts.
